(** * speedtest-cli: the measurement engine

    A shallow embedding of the Go program [speedtest-cli.go] (package main):
    great-circle ranking of the candidate servers ([distance],
    [getClosestServers]), concurrent latency probing ([getBestServer]) and the
    producer/consumer download sampler ([downloadSpeed]), with the fetch helper
    [fetchHttp] they share.  The revision embedded is the one with
    [downloadSpeed]; the earlier revision has the same [distance] and the
    same loop in [getClosestServers].

    Conventions of the embedding.
    - [float64] is read as a real number ([R]): arithmetic is exact, there is
      no rounding, no infinity and no NaN.  What is proved about [distance]
      and about the final rate is therefore a statement about the formula the
      code evaluates, not about its rounding.  What is proved about the
      order of the distances is proved of the ranking loop over any keys
      with a total order ([rankWith]), of which the loop over [R] is an
      instance.
    - [int64] and [time.Duration] (a count of nanoseconds) are integers ([Z]);
      the wrap-around of [+=] is written out ([add64]), and [/] is Go's
      truncating division ([Z.quot]).
    - Go's [map[float64]Server] is an association list without duplicate
      keys, kept in insertion order.  Go leaves the iteration order of a map
      unspecified; nothing below depends on it other than through list
      membership and length.
    - The network and the clock are inputs: every call of [fetchHttp] is given
      a [Response] that says what [http.Get], [ioutil.ReadAll] and the clock
      did during that call.  A call that never returns has no [Response];
      where that matters ([workerStepMay]) it is a [None].
    - Goroutines that synchronise on a mutex or on a channel are interleaved
      by an explicit schedule, one atomic step per entry.
    - The packages [encoding/xml] and [net/url] are not part of the program:
      the functions the program calls are the fields of the class
      [Packages], and what is proved holds for every instance. *)

From Stdlib Require Import Reals Lra ZArith List String Ascii Bool Lia.
From Stdlib Require Import DecimalString Permutation.
Import ListNotations.

#[local] Open Scope Z_scope.
#[local] Open Scope string_scope.

(** ** Results of a call *)

Definition error : Type := string.

(** How a call of one of the program's functions ends. *)
Inductive Outcome (A : Type) : Type :=
| Returns (a : A)          (* the call returns [a] *)
| Fatal (msg : error)      (* [log.Fatal(err)]: the message is logged, exit status 1 *)
| Panics                   (* run-time panic: index out of range *)
| Exits (code : Z)         (* [os.Exit(code)] *)
| Pending.                 (* the schedule ends before [wg.Wait()] returns *)

Arguments Returns {A} a.
Arguments Fatal {A} msg.
Arguments Panics {A}.
Arguments Exits {A} code.
Arguments Pending {A}.

Definition bind {A B : Type} (o : Outcome A) (k : A -> Outcome B) : Outcome B :=
  match o with
  | Returns a => k a
  | Fatal msg => Fatal msg
  | Panics => Panics
  | Exits code => Exits code
  | Pending => Pending
  end.

Notation "x <- c1 ;; c2" := (bind c1 (fun x => c2))
  (at level 61, c1 at next level, right associativity).

(** ** Constants *)

Definition bytesPerMegabit : Z := 131072.
Definition concurrentDownloads : nat := 6.
Definition duplicateDownloads : nat := 4.
Definition nanoSecPerMilli : Z := 1000000.
Definition numberOfClosestServers : nat := 5.
Definition timesToRunLatency : nat := 5.
Definition downloadSizes : list Z :=
  [350; 500; 750; 1000; 1500; 2000; 2500; 3000; 3500; 4000].

Definition degToRad : R := (PI / 180)%R.
Definition earthsRadiusKm : R := 6371%R.

(** ** Machine integers and durations *)

(** [time.Duration] is an [int64] count of nanoseconds. *)
Definition Duration : Type := Z.

Definition wrap64 (z : Z) : Z := (z + 2 ^ 63) mod 2 ^ 64 - 2 ^ 63.

(** [a + b] on [int64]. *)
Definition add64 (a b : Z) : Z := wrap64 (a + b).

(** [td.Nanoseconds()]. *)
Definition Nanoseconds (td : Duration) : Z := td.

(** [td.Seconds()]: whole seconds plus the fraction, as in package [time]. *)
Definition Seconds (td : Duration) : R :=
  (IZR (Z.quot td 1000000000) + IZR (Z.rem td 1000000000) / 1000000000)%R.

Definition durationToMilliSeconds (td : Duration) : Z :=
  Z.quot (Nanoseconds td) nanoSecPerMilli.

(** ** Data *)

Module Point.
Record t := mk { Lat : R; Long : R }.
End Point.

Module Client.
Record t := mk { Ip : string; Isp : string; Lat : R; Long : R }.
End Client.

Module Config.
Record t := mk { LicenseKey : string; Clients : list Client.t }.
Definition zero : t := mk "" [].
End Config.

Module Server.
Record t := mk {
  Name : string;
  Sponsor : string;
  Country : string;
  Lat : R;
  Long : R;
  Url : string;
  Host : string;
  Distance : R;   (* calculated by us *)
  Ping : Z        (* calculated by us *)
}.

(** The zero value of the struct ([var bestServer Server]). *)
Definition zero : t := mk "" "" "" 0%R 0%R "" "" 0%R 0.

(** [server.Distance = d]. *)
Definition with_Distance (s : t) (d : R) : t :=
  mk (Name s) (Sponsor s) (Country s) (Lat s) (Long s) (Url s) (Host s) d (Ping s).

(** [server.Ping = p]. *)
Definition with_Ping (s : t) (p : Z) : t :=
  mk (Name s) (Sponsor s) (Country s) (Lat s) (Long s) (Url s) (Host s) (Distance s) p.
End Server.

Module Servers.
(** [ServerGroup] is a slice of groups, each a slice of servers. *)
Record t := mk { ServerGroup : list (list Server.t) }.
Definition zero : t := mk [].
End Servers.

(** The part of [net/url.URL] the program touches: it assigns [Path] and
    prints the rest unchanged. *)
Module URL.
Record t := mk { Scheme : string; Host : string; Path : string; RawQuery : string }.
Definition with_Path (u : t) (p : string) : t :=
  mk (Scheme u) (Host u) p (RawQuery u).
End URL.

(** ** fetchHttp *)

(** What happens during one call of [fetchHttp]: [http.Get] fails, or
    [ioutil.ReadAll] fails, or the body is read.  [since] is the value of
    [time.Since(time.Now())] in the branch that returns the error, the time
    between two consecutive readings of the clock; [downloadTime] is
    [endTime.Sub(startTime)]. *)
Inductive Response : Type :=
| GetFails (err : error) (since : Duration)
| ReadFails (err : error) (since : Duration)
| Served (body : list Byte.byte) (downloadTime : Duration).

Definition fetchHttp (r : Response) : list Byte.byte * Duration * option error :=
  match r with
  | GetFails err since => ([], since, Some err)
  | ReadFails err since => ([], since, Some err)
  | Served body downloadTime => (body, downloadTime, None)
  end.

(** ** distance *)

(** [math.Atan2(y, x)] on the reals: the angle of the point [(x, y)]. *)
Definition Atan2 (y x : R) : R :=
  if Rlt_dec 0 x then atan (y / x)
  else if Rlt_dec x 0 then
    (if Rle_dec 0 y then atan (y / x) + PI else atan (y / x) - PI)%R
  else if Rlt_dec 0 y then (PI / 2)%R
  else if Rlt_dec y 0 then (- (PI / 2))%R
  else 0%R.

Definition distance (origin destination : Point.t) : R :=
  let dlat := ((Point.Lat destination - Point.Lat origin) * degToRad)%R in
  let dlon := ((Point.Long destination - Point.Long origin) * degToRad)%R in
  let radOriginLat := (Point.Lat origin * degToRad)%R in
  let a := (sin (dlat / 2) * sin (dlat / 2) +
            cos radOriginLat * cos radOriginLat * sin (dlon / 2) * sin (dlon / 2))%R in
  let c := (2 * Atan2 (sqrt a) (sqrt (1 - a)))%R in
  let d := (earthsRadiusKm * c)%R in
  d.

(** The haversine distance in the words of the specification, to compare
    [distance] with. *)
Definition haversine_spec (origin destination : Point.t) : R :=
  let dlat := ((Point.Lat destination - Point.Lat origin) * (PI / 180))%R in
  let dlon := ((Point.Long destination - Point.Long origin) * (PI / 180))%R in
  let a := ((sin (dlat / 2))² +
            cos (Point.Lat origin * (PI / 180)) * cos (Point.Lat destination * (PI / 180)) *
            (sin (dlon / 2))²)%R in
  (2 * 6371 * Atan2 (sqrt a) (sqrt (1 - a)))%R.

(** ** The map of getClosestServers *)

Definition DistMap : Type := list (R * Server.t).

(** [m[k] = v]. *)
Fixpoint map_set (m : DistMap) (k : R) (v : Server.t) : DistMap :=
  match m with
  | [] => [(k, v)]
  | (k', v') :: m' =>
      if Req_dec_T k' k then (k', v) :: m' else (k', v') :: map_set m' k v
  end.

(** [delete(m, k)]. *)
Fixpoint map_delete (m : DistMap) (k : R) : DistMap :=
  match m with
  | [] => []
  | (k', v') :: m' =>
      if Req_dec_T k' k then m' else (k', v') :: map_delete m' k
  end.

(** The loop [for k := range closestServers] that raises [highestDistance]. *)
Definition highestFrom (highestDistance : R) (m : DistMap) : R :=
  fold_left (fun highestDistance kv =>
               if Rlt_dec highestDistance (fst kv) then fst kv else highestDistance)
            m highestDistance.

(** [var highestDistance float64] starts at zero. *)
Definition highest (m : DistMap) : R := highestFrom 0%R m.

(** The body of the loop over [servers.ServerGroup[0].Servers]. *)
Definition rankStep (client : Client.t) (closestServers : DistMap) (server : Server.t)
  : DistMap :=
  let server :=
    Server.with_Distance server
      (distance (Point.mk (Client.Lat client) (Client.Long client))
                (Point.mk (Server.Lat server) (Server.Long server))) in
  if (List.length closestServers <? 5)%nat then
    map_set closestServers (Server.Distance server) server
  else
    let highestDistance := highest closestServers in
    if Rlt_dec (Server.Distance server) highestDistance then
      map_set (map_delete closestServers highestDistance) (Server.Distance server) server
    else closestServers.

(** The ranking part of [getClosestServers]: the loop, then the copy of the
    map's values into [returnServers]. *)
Definition rankServers (client : Client.t) (servers : list Server.t) : list Server.t :=
  map snd (fold_left (rankStep client) servers []).

(** ** The packages the program calls *)

(** [encoding/xml] and [net/url].  [xml.Unmarshal(data, &v)] fills [v] as far
    as it gets and returns an error or [nil]; [url.Parse] returns a URL or an
    error; [u.String()] prints a URL. *)
Class Packages : Type := {
  xml_Unmarshal_Config : list Byte.byte -> Config.t -> Config.t * option error;
  xml_Unmarshal_Servers : list Byte.byte -> Servers.t -> Servers.t * option error;
  url_Parse : string -> URL.t + error;
  URL_String : URL.t -> string
}.

(** [strconv.Itoa]. *)
Definition Itoa (n : Z) : string := NilZero.string_of_int (Z.to_int n).

(** ** The regular expression of downloadSpeed *)

Definition slash : ascii := "/"%char.
Definition newline : ascii := "010"%char.

(** Walks back from the end of the text, over characters that [.] matches,
    to the nearest [/]; returns what is before it, reversed. *)
Fixpoint scanBack (r : list ascii) : option (list ascii) :=
  match r with
  | [] => None
  | c :: r' =>
      if Ascii.eqb c newline then None
      else if Ascii.eqb c slash then Some r'
      else scanBack r'
  end.

(** The expression compiled by [regexp.MustCompile] in [downloadSpeed]. *)
Definition re : string := "(.*)/(.+?)$".

(** [ReplaceAllString] of package [regexp] for [re], with a template made of
    a reference to group 1 followed by the literal [tail].  The dollar of [re]
    is the end of the text and its dots match any character but a newline, so
    a match ends at the end of [src], lies within its last line and is unique;
    the greedy first group puts the slash as far right as leaves one character
    for the second group.  The match is replaced by group 1 followed by
    [tail]; without a match [src] is returned as it is. *)
Definition replaceLastSegment (src tail : string) : string :=
  match rev (list_ascii_of_string src) with
  | [] => src
  | c0 :: r =>
      if Ascii.eqb c0 newline then src
      else match scanBack r with
           | None => src
           | Some r' => string_of_list_ascii (rev r') ++ tail
           end
  end.

(** [l[i] = x] on a slice; out of range the model leaves [l] as it is. *)
Fixpoint set_nth {A : Type} (i : nat) (x : A) (l : list A) : list A :=
  match l, i with
  | [], _ => []
  | _ :: l', O => x :: l'
  | y :: l', S i' => y :: set_nth i' x l'
  end.

(** A schedule for [n] goroutines that lets each of them run. *)
Definition covers (n : nat) (order : list nat) : bool :=
  (List.length order =? n)%nat &&
  forallb (fun i => existsb (Nat.eqb i) order) (seq 0 n).

(** ** getBestServer *)

(** The loop [for i := 0; i < timesToRunLatency; i++]: [n] iterations are
    left, [fetch i] is what the [i]-th call of [fetchHttp] meets. *)
Fixpoint latencyLoop (n i : nat) (fetch : nat -> Response) (totalDur : Duration)
  : Duration :=
  match n with
  | O => totalDur
  | S n' =>
      match fetchHttp (fetch i) with
      | (_, dur, None) => latencyLoop n' (S i) fetch (add64 totalDur dur)
      | (_, _, Some err) => totalDur      (* printed, then [break] *)
      end
  end.

(** The memory [getBestServer] works on: the caller's slice, the parameter
    [server] of each goroutine (a copy of the slice element, made by
    [go func(server Server) {...}(server)]), and the two variables guarded by
    [bestServerLock]. *)
Record Prober : Type := mkProber {
  servers_slice : list Server.t;
  goroutine_server : list Server.t;
  firstPass : bool;
  bestServer : Server.t
}.

Section Engine.
Context {P : Packages}.

(** *** getConfig, getClient, getClosestServers *)

Definition getConfig (resp : Response) : Outcome Config.t :=
  match fetchHttp resp with
  | (_, _, Some err) => Fatal err
  | (configXml, _, None) =>
      let config := Config.zero in
      let config := fst (xml_Unmarshal_Config configXml config) in
      Returns config
  end.

Definition getClient (c : Config.t) : Outcome Client.t :=
  match Config.Clients c with
  | [] => Panics
  | client :: _ => Returns client
  end.

Definition getClosestServers (client : Client.t) (resp : Response)
  : Outcome (list Server.t) :=
  match fetchHttp resp with
  | (_, _, Some err) => Fatal err
  | (serversXml, _, None) =>
      let servers := Servers.zero in
      let servers := fst (xml_Unmarshal_Servers serversXml servers) in
      match Servers.ServerGroup servers with
      | [] => Panics
      | group :: _ => Returns (rankServers client group)
      end
  end.

(** *** getBestServer *)

(** The goroutine up to and including [server.Ping = ...]: [seed] is the
    value of [time.Since(time.Now())] that [totalDur] starts from. *)
Definition measure (seed : Duration) (fetch : nat -> string -> Response)
    (server : Server.t) : Outcome Server.t :=
  match url_Parse (Server.Url server) with
  | inr err => Fatal err
  | inl u =>
      let u := URL.with_Path u "/latency.txt" in
      let totalDur := seed in
      let totalDur :=
        latencyLoop timesToRunLatency 0 (fun i => fetch i (URL_String u)) totalDur in
      Returns (Server.with_Ping server
                 (Z.quot (durationToMilliSeconds totalDur) (Z.of_nat timesToRunLatency)))
  end.

(** The section between [bestServerLock.Lock()] and [Unlock()]. *)
Definition record (st : Prober) (server : Server.t) : Prober :=
  if firstPass st || (Server.Ping server <? Server.Ping (bestServer st))%Z then
    mkProber (servers_slice st) (goroutine_server st) false server
  else st.

(** Goroutine [i] as one step: what it does before it takes the lock
    touches its own parameter only. *)
Definition goroutine (seed : nat -> Duration)
    (probe : nat -> nat -> string -> Response) (st : Prober) (i : nat)
  : Outcome Prober :=
  match nth_error (goroutine_server st) i with
  | None => Returns st
  | Some server =>
      server <- measure (seed i) (probe i) server ;;
      let st := mkProber (servers_slice st) (set_nth i server (goroutine_server st))
                         (firstPass st) (bestServer st) in
      Returns (record st server)
  end.

Fixpoint runProber (seed : nat -> Duration)
    (probe : nat -> nat -> string -> Response) (order : list nat) (st : Prober)
  : Outcome Prober :=
  match order with
  | [] => Returns st
  | i :: order' =>
      st <- goroutine seed probe st i ;;
      runProber seed probe order' st
  end.

(** [order] is the order in which the goroutines take [bestServerLock]. *)
Definition getBestServerMem (servers : list Server.t) (seed : nat -> Duration)
    (probe : nat -> nat -> string -> Response) (order : list nat)
  : Outcome Prober :=
  if covers (List.length servers) order then
    runProber seed probe order (mkProber servers servers true Server.zero)
  else Pending.

Definition getBestServer (servers : list Server.t) (seed : nat -> Duration)
    (probe : nat -> nat -> string -> Response) (order : list nat)
  : Outcome Server.t :=
  st <- getBestServerMem servers seed probe order ;;
  Returns (bestServer st).

End Engine.

(** ** downloadSpeed *)

(** What the producer goroutine does to the channel [ch]. *)
Inductive ChanOp : Type :=
| Send (url : string)
| Close.

(** A consumer goroutine is about to receive from [ch], or holds the [k]-th
    URL sent and is in [fetchHttp], or has left its loop. *)
Inductive Worker : Type :=
| Receiving
| Fetching (k : nat) (url : string)
| Exited.

(** The consumers' side of [downloadSpeed]: what the producer has still to
    send before it closes [ch], how many URLs were handed over, the consumer
    goroutines, and the two totals guarded by [totalBytesLock]. *)
Record Pool : Type := mkPool {
  ch : list string;
  sent : nat;
  workers : list Worker;
  totalBytes : R;
  totalDur : Duration
}.

Definition isExited (w : Worker) : bool :=
  match w with
  | Exited => true
  | _ => false
  end.

(** [wg.Wait()] returns once every consumer has left its loop. *)
Definition allExited (st : Pool) : bool := forallb isExited (workers st).

(** One step of consumer [i].  Receiving from the unbuffered [ch] takes the
    next URL of the producer, or finds [ch] closed once the producer has sent
    everything; a consumer that holds a URL fetches it and adds to the totals
    under the lock. *)
Definition workerStep (download : nat -> string -> Response) (st : Pool) (i : nat)
  : Pool :=
  match nth_error (workers st) i with
  | Some Receiving =>
      match ch st with
      | url :: rest =>
          mkPool rest (S (sent st)) (set_nth i (Fetching (sent st) url) (workers st))
                 (totalBytes st) (totalDur st)
      | [] =>
          mkPool [] (sent st) (set_nth i Exited (workers st))
                 (totalBytes st) (totalDur st)
      end
  | Some (Fetching k url) =>
      let '(b, d, _) := fetchHttp (download k url) in
      mkPool (ch st) (sent st) (set_nth i Receiving (workers st))
             (totalBytes st + IZR (Z.of_nat (List.length b)))%R
             (add64 (totalDur st) d)
  | Some Exited => st
  | None => st
  end.

Definition runPool (download : nat -> string -> Response) (schedule : list nat)
    (st : Pool) : Pool :=
  fold_left (workerStep download) schedule st.

(** The template of the replacement, after the reference to group 1. *)
Definition randomImage (size : Z) : string :=
  "/random" ++ Itoa size ++ "x" ++ Itoa size ++ ".jpg".

Section Sampler.
Context {P : Packages}.

(** The loop [for i := 0; i < duplicateDownloads; i++] with [n] iterations
    left: what it sends, and [u] as it leaves it. *)
Fixpoint emit (n : nat) (size : Z) (u : URL.t) : list string * URL.t :=
  match n with
  | O => ([], u)
  | S n' =>
      let u := URL.with_Path u (replaceLastSegment (URL.Path u) (randomImage size)) in
      let (out, u') := emit n' size u in
      (URL_String u :: out, u')
  end.

(** The loop [for _, size := range downloadSizes]. *)
Fixpoint generate (sizes : list Z) (u : URL.t) : list string :=
  match sizes with
  | [] => []
  | size :: sizes' =>
      let (out, u') := emit duplicateDownloads size u in
      out ++ generate sizes' u'
  end.

(** The URL generator goroutine. *)
Definition producer (u : URL.t) : list ChanOp :=
  map Send (generate downloadSizes u) ++ [Close].

(** [downloadSpeed] with [n] consumer goroutines.  [seed] is the value of
    [time.Since(time.Now())] that [totalDur] starts from, [download k url]
    is what the fetch of the [k]-th URL sent meets. *)
Definition downloadSpeedWith (n : nat) (server : Server.t) (seed : Duration)
    (download : nat -> string -> Response) (schedule : list nat) : Outcome R :=
  match url_Parse (Server.Url server) with
  | inr err => Fatal err
  | inl u =>
      let totalBytes0 := 0%R in
      let totalDur0 := seed in
      let st := runPool download schedule
                  (mkPool (generate downloadSizes u) 0 (repeat Receiving n)
                          totalBytes0 totalDur0) in
      if allExited st then
        let bytesPerSecond := (totalBytes st / Seconds (totalDur st))%R in
        let megaBitsPerSecond := (bytesPerSecond / IZR bytesPerMegabit)%R in
        Returns megaBitsPerSecond
      else Pending
  end.

Definition downloadSpeed : Server.t -> Duration -> (nat -> string -> Response) ->
                           list nat -> Outcome R :=
  downloadSpeedWith concurrentDownloads.

End Sampler.

(** ** main *)

(** Everything a run depends on: the flag, the network, the clock and the
    scheduler. *)
Module World.
Record t := mk {
  help : bool;
  configResponse : Response;
  serversResponse : Response;
  latencySeed : nat -> Duration;
  latencyProbe : nat -> nat -> string -> Response;
  lockOrder : list nat;
  downloadSeed : Duration;
  download : nat -> string -> Response;
  schedule : list nat
}.
End World.

Definition main {P : Packages} (w : World.t) : Outcome R :=
  if World.help w then Exits 2
  else
    c <- getConfig (World.configResponse w) ;;
    client <- getClient c ;;
    s <- getClosestServers client (World.serversResponse w) ;;
    b <- getBestServer s (World.latencySeed w) (World.latencyProbe w) (World.lockOrder w) ;;
    mb <- downloadSpeed b (World.downloadSeed w) (World.download w) (World.schedule w) ;;
    Returns mb.

(** ** Inputs used in the examples *)

Definition client0 : Client.t := Client.mk "192.0.2.1" "Example ISP" 0%R 0%R.

(** A server on the equator, at longitude [lon] degrees. *)
Definition onEquator (name : string) (lon : R) : Server.t :=
  Server.mk name "Sponsor" "Country" 0%R lon
            "http://speedtest.example.net/speedtest/upload.php" "speedtest.example.net:8080"
            0%R 0.

(** Two servers at the same place. *)
Definition twins : list Server.t := [onEquator "A" 1%R; onEquator "B" 1%R].

(** Five servers at 1 to 5 degrees, a sixth that shares the place of the
    first, and a far one. *)
Definition crowd : list Server.t :=
  [onEquator "S1" 1%R; onEquator "S2" 2%R; onEquator "S3" 3%R; onEquator "S4" 4%R;
   onEquator "S5" 5%R; onEquator "S1bis" 1%R; onEquator "Far" 100%R].

(** A point on the equator and a point at the latitude of the pole. *)
Definition equator0 : Point.t := Point.mk 0%R 0%R.
Definition pole60 : Point.t := Point.mk 90%R 60%R.

(** [onEquator name lon] with the distance from [client0] assigned. *)
Definition ranked (name : string) (lon : R) : Server.t :=
  Server.with_Distance (onEquator name lon) (lon * (6371 * PI / 180))%R.

(** ** An instance of the packages for the examples *)

(** A parser for plain URLs of the shape scheme://host/path?query, the shape
    of the URLs of a server list; like [url.Parse] it takes a string without
    a scheme as a path and refuses control characters. *)
Definition isControl (c : ascii) : bool :=
  (nat_of_ascii c <? 32)%nat || (nat_of_ascii c =? 127)%nat.

Definition cut (sep : string) (s : string) : string * option string :=
  match index 0 sep s with
  | Some n =>
      (substring 0 n s,
       Some (substring (n + String.length sep) (String.length s - (n + String.length sep)) s))
  | None => (s, None)
  end.

Definition plain_Parse (s : string) : URL.t + error :=
  if existsb isControl (list_ascii_of_string s) then
    inr "net/url: invalid control character in URL"
  else
    let (s, query) := cut "?" s in
    let query := match query with Some q => q | None => "" end in
    match cut "://" s with
    | (scheme, Some rest) =>
        match index 0 "/" rest with
        | Some n =>
            inl (URL.mk scheme (substring 0 n rest)
                        (substring n (String.length rest - n) rest) query)
        | None => inl (URL.mk scheme rest "" query)
        end
    | (path, None) => inl (URL.mk "" "" path query)
    end.

Definition plain_String (u : URL.t) : string :=
  (if String.eqb (URL.Scheme u) "" then "" else URL.Scheme u ++ "://") ++
  URL.Host u ++ URL.Path u ++
  (if String.eqb (URL.RawQuery u) "" then "" else "?" ++ URL.RawQuery u).

(** Two documents for [getConfig]: a complete one, and one that breaks off
    after its [client] element, for which [xml.Unmarshal] returns an error
    after it has decoded the client. *)
Definition clientElement : string :=
  "<client ip='192.0.2.1' isp='Example ISP' lat='0' lon='0'/>".

Definition configXml : string :=
  "<settings>" ++ clientElement ++ "</settings>".

Definition truncatedConfigXml : string :=
  "<settings>" ++ clientElement ++ "<times dl1=".

(** A document for [getClosestServers] that lists the servers of [twins],
    and one that breaks off after the group that holds them. *)
Definition serverElement (name : string) : string :=
  "<server name='" ++ name ++ "' sponsor='Sponsor' country='Country' lat='0' lon='1'"
  ++ " url='http://speedtest.example.net/speedtest/upload.php'"
  ++ " host='speedtest.example.net:8080'/>".

Definition serversXml : string :=
  "<settings><servers>" ++ serverElement "A" ++ serverElement "B"
  ++ "</servers></settings>".

Definition truncatedServersXml : string :=
  "<settings><servers>" ++ serverElement "A" ++ serverElement "B"
  ++ "</servers><servers><server".

(** Decoders that know these documents. *)
Definition table_Unmarshal_Config (data : list Byte.byte) (v : Config.t)
  : Config.t * option error :=
  let doc := string_of_list_byte data in
  if String.eqb doc configXml then (Config.mk "" [client0], None)
  else if String.eqb doc truncatedConfigXml then
    (Config.mk "" [client0], Some "XML syntax error on line 1: unexpected EOF")
  else (v, Some "EOF").

Definition table_Unmarshal_Servers (data : list Byte.byte) (v : Servers.t)
  : Servers.t * option error :=
  let doc := string_of_list_byte data in
  if String.eqb doc serversXml then (Servers.mk [twins], None)
  else if String.eqb doc truncatedServersXml then
    (Servers.mk [twins], Some "XML syntax error on line 1: unexpected EOF")
  else (v, Some "EOF").

Definition examplePackages : Packages :=
  Build_Packages table_Unmarshal_Config table_Unmarshal_Servers plain_Parse plain_String.

(** Three candidates for the prober and the sampler. *)
Definition candidate (name : string) (url : string) : Server.t :=
  Server.mk name "Sponsor" "Country" 0%R 0%R url "" 0%R 0.

Definition candidates : list Server.t :=
  [candidate "near" "http://near.example.net/speedtest/upload.php";
   candidate "fast" "http://fast.example.net/speedtest/upload.php";
   candidate "tied" "http://tied.example.net/speedtest/upload.php"].

(** Every probe of candidate [i] is served after the same time: 20 ms for
    the first, 5 ms for the two others. *)
Definition steadyProbe (i k : nat) (url : string) : Response :=
  Served [] (match i with O => 20000000 | _ => 5000000 end).

(** Five probes that take 4999999 ns together. *)
Definition tightProbe (k : nat) (url : string) : Response :=
  Served [] (match k with 4%nat => 999999 | _ => 1000000 end).

(** The third probe fails. *)
Definition brokenProbe (k : nat) (url : string) : Response :=
  match k with
  | 2%nat => GetFails "dial tcp: connection refused" 40
  | _ => Served [] 10000000
  end.

(** ** Notions used in the statements *)

(** A goroutine's parameter is the slice element, up to its own [Ping]. *)
Definition copyOf (s s' : Server.t) : Prop :=
  Server.with_Ping s' 0 = Server.with_Ping s 0.

Section ProberNotions.
Context {P : Packages}.
Variable seed : nat -> Duration.
Variable probe : nat -> nat -> string -> Response.

(** What goroutine [i] assigns to [server.Ping], once [server.Url] is parsed
  to [u]. *)
Definition meanPing (i : nat) (u : URL.t) : Z :=
Z.quot
  (durationToMilliSeconds
     (latencyLoop timesToRunLatency 0
        (fun k => probe i k (URL_String (URL.with_Path u "/latency.txt"))) (seed i)))
  (Z.of_nat timesToRunLatency).

(** [b] is candidate [i] of the slice with the mean of its own probes
  assigned to [Ping]; no candidate has a lower mean, and those recorded
  before [i] have a strictly higher one. *)
Definition lowestRecordedFirst (servers : list Server.t) (order : list nat) (b : Server.t)
: Prop :=
exists i s u o1 o2,
  order = (o1 ++ i :: o2)%list /\
  nth_error servers i = Some s /\
  url_Parse (Server.Url s) = inl u /\
  b = Server.with_Ping s (meanPing i u) /\
  (forall j sj uj, nth_error servers j = Some sj ->
     url_Parse (Server.Url sj) = inl uj ->
     meanPing i u <= meanPing j uj) /\
  (forall j sj uj, In j o1 -> nth_error servers j = Some sj ->
     url_Parse (Server.Url sj) = inl uj ->
     meanPing i u < meanPing j uj).

(** The state of the prober after the goroutines of [order] took the lock, in
  terms of the caller's slice [servers]. *)
Definition recorded (servers : list Server.t) (order : list nat) (st : Prober) : Prop :=
servers_slice st = servers /\
Forall2 copyOf servers (goroutine_server st) /\
((firstPass st = true /\ bestServer st = Server.zero /\
  forall j, In j order -> nth_error servers j = None)
 \/
 (firstPass st = false /\
  exists i s o1 o2,
    order = (o1 ++ i :: o2)%list /\
    nth_error servers i = Some s /\
    measure (seed i) (probe i) s = Returns (bestServer st) /\
    (forall j sj bj, In j o1 -> nth_error servers j = Some sj ->
       measure (seed j) (probe j) sj = Returns bj ->
       Server.Ping (bestServer st) < Server.Ping bj) /\
    (forall j sj bj, In j o2 -> nth_error servers j = Some sj ->
       measure (seed j) (probe j) sj = Returns bj ->
       Server.Ping (bestServer st) <= Server.Ping bj))).

End ProberNotions.

Definition int64 (z : Z) : Prop := - 2 ^ 63 <= z < 2 ^ 63.

Definition sumZ (l : list Z) : Z := fold_right Z.add 0 l.

(** The durations of the probes that [latencyLoop] adds up: those served
    before the first failure, of [n] probes starting with the [i]-th. *)
Fixpoint measuredDurations (n i : nat) (fetch : nat -> Response) : list Duration :=
  match n with
  | O => []
  | S n' =>
      match fetchHttp (fetch i) with
      | (_, dur, None) => dur :: measuredDurations n' (S i) fetch
      | (_, _, Some _) => []
      end
  end.

(** The mean latency in the words of the specification: the sum of the
    durations of the successful probes, in whole milliseconds, divided by the
    number of probes; both divisions truncate. *)
Definition meanLatency_spec (successful : list Duration) : Z :=
  Z.quot (Z.quot (sumZ successful) 1000000) 5.

Definition nearCandidate : Server.t :=
  candidate "near" "http://near.example.net/speedtest/upload.php".

(** A non-empty name without a slash and without a newline. *)
Definition plainChar (c : ascii) : bool :=
  negb (Ascii.eqb c newline) && negb (Ascii.eqb c slash).

Definition isFileName (s : string) : bool :=
  match list_ascii_of_string s with
  | [] => false
  | l => forallb plainChar l
  end.

(** The name of the image of a given size. *)
Definition imageName (size : Z) : string :=
  "random" ++ Itoa size ++ "x" ++ Itoa size ++ ".jpg".

(** The URL of a server whose path is a lone slash. *)
Definition rootURL : URL.t := URL.mk "http" "speedtest.example.net" "/" "".

(** What one fetch adds to the totals of [downloadSpeed]. *)
Definition bytesOf (r : Response) : R :=
  IZR (Z.of_nat (List.length (fst (fst (fetchHttp r))))).

Definition durOf (r : Response) : Duration := snd (fst (fetchHttp r)).

Definition sumR (l : list R) : R := fold_right Rplus 0%R l.

(** The responses to the URLs still to be sent, the first of which will be
    the [k]-th URL sent. *)
Fixpoint queued (download : nat -> string -> Response) (k : nat) (urls : list string)
  : list Response :=
  match urls with
  | [] => []
  | url :: rest => download k url :: queued download (S k) rest
  end.

(** The response to the URL that a consumer holds, if it holds one. *)
Definition heldBy (download : nat -> string -> Response) (w : Worker) : list Response :=
  match w with
  | Fetching k url => [download k url]
  | _ => []
  end.

Definition held (download : nat -> string -> Response) (ws : list Worker) : list Response :=
  flat_map (heldBy download) ws.

(** A schedule in which the first consumer takes every URL and then all
    consumers find the channel closed. *)
Definition drainSchedule (n m : nat) : list nat :=
  (repeat 0%nat (2 * m) ++ seq 0 n)%list.

(** The states a pool of [n] consumers can be in when [responses] are the
    responses to all the URLs of the producer and [seed] is what [totalDur]
    started from: what is counted, held and still queued adds up to the
    whole, and a consumer has left only if the channel is closed. *)
Definition poolInv (download : nat -> string -> Response) (n : nat) (seed : Duration)
    (responses : list Response) (st : Pool) : Prop :=
  (totalBytes st + sumR (map bytesOf (held download (workers st)))
   + sumR (map bytesOf (queued download (sent st) (ch st))))%R
  = sumR (map bytesOf responses) /\
  wrap64 (totalDur st + sumZ (map durOf (held download (workers st)))
          + sumZ (map durOf (queued download (sent st) (ch st))))
  = wrap64 (seed + sumZ (map durOf responses)) /\
  int64 (totalDur st) /\
  (existsb isExited (workers st) = true -> ch st = []) /\
  List.length (workers st) = n.

(** A fetcher that serves the same body after the same time to every
    request. *)
Definition steadyDownload (body : list Byte.byte) (d : Duration) (k : nat) (url : string)
  : Response :=
  Served body d.

(** A body of a million bytes. *)
Definition megabyte : list Byte.byte := repeat Byte.x00 (Z.to_nat 1000000).

(** A fetcher whose every request is refused, with a reading of 40 ns in the
    branch of [fetchHttp] that returns the error. *)
Definition refusedDownload (k : nat) (url : string) : Response :=
  GetFails "dial tcp: connection refused" 40.

(** ** Notions for the further properties *)

(** The number [a] of [distance], of which it takes [math.Sqrt(a)] and
    [math.Sqrt(1-a)].  It is a sum of squares; where it is above 1 the code
    takes the square root of a negative number, which in Go is not a number
    and which the reals of the model cannot express. *)
Definition haversineArg (origin destination : Point.t) : R :=
  let dlat := ((Point.Lat destination - Point.Lat origin) * degToRad)%R in
  let dlon := ((Point.Long destination - Point.Long origin) * degToRad)%R in
  let radOriginLat := (Point.Lat origin * degToRad)%R in
  (sin (dlat / 2) * sin (dlat / 2) +
   cos radOriginLat * cos radOriginLat * sin (dlon / 2) * sin (dlon / 2))%R.

(** The square roots taken for the distance between the client and the
    server are of numbers that are not negative. *)
Definition measurable (client : Client.t) (server : Server.t) : Prop :=
  (haversineArg (Point.mk (Client.Lat client) (Client.Long client))
                (Point.mk (Server.Lat server) (Server.Long server)) <= 1)%R.

(** Coordinates of a place on the globe, in degrees. *)
Definition geographic (p : Point.t) : Prop :=
  (-90 <= Point.Lat p <= 90)%R /\ (-180 <= Point.Long p <= 180)%R.

(** The distance that [getClosestServers] assigns to a candidate. *)
Definition distanceTo (client : Client.t) (server : Server.t) : R :=
  distance (Point.mk (Client.Lat client) (Client.Long client))
           (Point.mk (Server.Lat server) (Server.Long server)).

(** What the ranking loop keeps while it runs over the candidates: the keys
    of the map are different from each other, there are at most five, every
    entry is a candidate seen so far under its own distance, and for every
    candidate seen so far some key is at most its distance. *)
Definition rankInv (client : Client.t) (seen : list Server.t) (m : DistMap) : Prop :=
  NoDup (map fst m) /\
  (List.length m <= 5)%nat /\
  (forall k v, In (k, v) m ->
     exists s, In s seen /\ k = distanceTo client s /\
               v = Server.with_Distance s (distanceTo client s)) /\
  (forall s, In s seen -> exists k, In k (map fst m) /\ (k <= distanceTo client s)%R).

(** ** The ranking loop over any keys

    The keys of [closestServers] are [float64] distances: the loop compares
    them with [<] and [>], the map with [==], and [highestDistance] starts
    at the zero value.  A distance that [distance] computes is NaN or a
    number that is not below zero, with one zero only, and on such numbers
    [==] is identity and [<] a total order.  Here the loop is written over
    any type of keys with a zero, a [<] and a [==], so that what is proved
    of it rests on the laws of the two comparisons and not on the real
    numbers: it holds of the loop on [float64] whenever no distance is NaN. *)
Section KeyedRanking.
Variable K : Type.
Variable kzero : K.
Variable klt : K -> K -> bool.
Variable keq : K -> K -> bool.
Variable dist : Server.t -> K.
Variable assign : Server.t -> K -> Server.t.

Definition KMap : Type := list (K * Server.t).

(** [m[k] = v]. *)
Fixpoint kmap_set (m : KMap) (k : K) (v : Server.t) : KMap :=
  match m with
  | [] => [(k, v)]
  | (k', v') :: m' =>
      if keq k' k then (k', v) :: m' else (k', v') :: kmap_set m' k v
  end.

(** [delete(m, k)]. *)
Fixpoint kmap_delete (m : KMap) (k : K) : KMap :=
  match m with
  | [] => []
  | (k', v') :: m' =>
      if keq k' k then m' else (k', v') :: kmap_delete m' k
  end.

(** The loop [for k := range closestServers], with [k > highestDistance]
    as [highestDistance < k]. *)
Definition khighestFrom (highestDistance : K) (m : KMap) : K :=
  fold_left (fun highestDistance kv =>
               if klt highestDistance (fst kv) then fst kv else highestDistance)
            m highestDistance.

(** The body of the loop over the candidates: [dist server] is the distance
    computed for the candidate, [assign] the assignment to
    [server.Distance]. *)
Definition rankStepWith (closestServers : KMap) (server : Server.t) : KMap :=
  let d := dist server in
  let server := assign server d in
  if (List.length closestServers <? 5)%nat then
    kmap_set closestServers d server
  else
    let highestDistance := khighestFrom kzero closestServers in
    if klt d highestDistance then
      kmap_set (kmap_delete closestServers highestDistance) d server
    else closestServers.

(** The map after the loop; its values are the servers returned. *)
Definition rankWith (servers : list Server.t) : KMap :=
  fold_left rankStepWith servers [].

(** The laws of the comparisons: [==] is identity, [<] is a strict total
    order. *)
Record KeyLaws : Prop := {
  keq_eq : forall a b, keq a b = true <-> a = b;
  klt_irrefl : forall a, klt a a = false;
  klt_trans : forall a b c, klt a b = true -> klt b c = true -> klt a c = true;
  klt_total : forall a b, klt a b = true \/ a = b \/ klt b a = true
}.

(** What the loop keeps while it runs over the candidates: the keys of the
    map are different from each other, there are at most five, every entry
    is a candidate seen so far under its own key, and for every candidate
    seen so far some key is not above its key. *)
Definition keyedInv (seen : list Server.t) (m : KMap) : Prop :=
  NoDup (map fst m) /\
  (List.length m <= 5)%nat /\
  (forall k v, In (k, v) m ->
     exists s, In s seen /\ k = dist s /\ v = assign s (dist s)) /\
  (forall s, In s seen -> exists k, In k (map fst m) /\ klt (dist s) k = false).

(** With candidates whose keys differ the loop keeps more: the map holds
    five entries or all candidates seen, and a candidate seen whose key is
    not in the map is above every key of a full map. *)
Definition keyedTop (seen : list Server.t) (m : KMap) : Prop :=
  List.length m = Nat.min 5%nat (List.length seen) /\
  (forall s, In s seen ->
     In (dist s) (map fst m) \/
     ((5 <= List.length m)%nat /\
      forall k, In k (map fst m) -> klt k (dist s) = true)).

End KeyedRanking.

Arguments kmap_set {K} keq m k v.
Arguments kmap_delete {K} keq m k.
Arguments khighestFrom {K} klt highestDistance m.
Arguments rankStepWith {K} kzero klt keq dist assign closestServers server.
Arguments rankWith {K} kzero klt keq dist assign servers.
Arguments KeyLaws {K} klt keq.
Arguments keyedInv {K} klt dist assign seen m.
Arguments keyedTop {K} klt dist seen m.

(** The comparisons of the model's distances. *)
Definition Rltb (a b : R) : bool := if Rlt_dec a b then true else false.
Definition Reqb (a b : R) : bool := if Req_dec_T a b then true else false.

(** Seven servers at different distances from [client0]. *)
Definition seven : list Server.t :=
  [onEquator "S3" 3%R; onEquator "S1" 1%R; onEquator "S2" 2%R; onEquator "S7" 7%R;
   onEquator "S5" 5%R; onEquator "S4" 4%R; onEquator "S6" 6%R].

(** A candidate whose URL holds a control character. *)
Definition badCandidate : Server.t :=
  candidate "bad" ("http://bad.example.net/" ++ String "009"%char "upload.php").

(** Every probe of candidate [i] is served after the same time: 20 ms, 5 ms
    and 9 ms for the first three. *)
Definition spreadProbe (i k : nat) (url : string) : Response :=
  Served [] (match i with O => 20000000 | 1%nat => 5000000 | _ => 9000000 end).

(** Every probe is refused. *)
Definition refusedProbe (i k : nat) (url : string) : Response :=
  GetFails "dial tcp: connection refused" 40.

(** How many steps a consumer still has to take at least: two while it
    holds a URL, one while it waits at the channel. *)
Definition stepsLeft (w : Worker) : nat :=
  match w with
  | Fetching _ _ => 2
  | Receiving => 1
  | Exited => 0
  end.

(** The number of steps after which a pool is done, whatever the schedule:
    two for every URL still to be sent, and the steps of the consumers. *)
Definition workLeft (st : Pool) : nat :=
  2 * List.length (ch st) + list_sum (map stepsLeft (workers st)).

(** ** A fetch that never returns

    [fetchHttp] calls [http.Get] on the default client, which has no
    timeout: a call may never return, and the consumer that made it stays
    in it.  Here [download k url] is [None] for such a call and the response
    otherwise; the rest of the step is the step of [workerStep]. *)
Definition workerStepMay (download : nat -> string -> option Response) (st : Pool)
    (i : nat) : Pool :=
  match nth_error (workers st) i with
  | Some Receiving =>
      match ch st with
      | url :: rest =>
          mkPool rest (S (sent st)) (set_nth i (Fetching (sent st) url) (workers st))
                 (totalBytes st) (totalDur st)
      | [] =>
          mkPool [] (sent st) (set_nth i Exited (workers st))
                 (totalBytes st) (totalDur st)
      end
  | Some (Fetching k url) =>
      match download k url with
      | Some r =>
          let '(b, d, _) := fetchHttp r in
          mkPool (ch st) (sent st) (set_nth i Receiving (workers st))
                 (totalBytes st + IZR (Z.of_nat (List.length b)))%R
                 (add64 (totalDur st) d)
      | None => st
      end
  | Some Exited => st
  | None => st
  end.

Definition runPoolMay (download : nat -> string -> option Response) (schedule : list nat)
    (st : Pool) : Pool :=
  fold_left (workerStepMay download) schedule st.

(** The responses of calls that all return. *)
Definition returned (download : nat -> string -> option Response) (k : nat) (url : string)
  : Response :=
  match download k url with
  | Some r => r
  | None => GetFails "" 0
  end.

(** Every call returns, and is served a million bytes after 0.1 s. *)
Definition steadyReturns (k : nat) (url : string) : option Response :=
  Some (steadyDownload megabyte 100000000 k url).

(** The second call never returns. *)
Definition secondHangs (k : nat) (url : string) : option Response :=
  match k with
  | 1%nat => None
  | _ => Some (steadyDownload megabyte 100000000 k url)
  end.

(** ** The earlier revision

    The earlier revision of [speedtest-cli.go] has the same [distance] and
    the same ranking loop; its [fetchHttp] ends the run on every error, its
    [getBestServer] probes the candidates one after the other, and its
    [main] stops after the best server. *)
Module Earlier.

Definition latencyPath : string := "/latency.txt".

(** [fetchHttp] returns the body and the download time; both errors go to
    [log.Fatal]. *)
Definition fetchHttp (r : Response) : Outcome (list Byte.byte * Duration) :=
  match r with
  | GetFails err _ => Fatal err
  | ReadFails err _ => Fatal err
  | Served body downloadTime => Returns (body, downloadTime)
  end.

(** The loop [for i := 0; i < timesToRunLatency; i++], with [n] iterations
    left. *)
Fixpoint latencyLoop (n i : nat) (fetch : nat -> Response) (totalDur : Duration)
  : Outcome Duration :=
  match n with
  | O => Returns totalDur
  | S n' =>
      bd <- fetchHttp (fetch i) ;;
      latencyLoop n' (S i) fetch (add64 totalDur (snd bd))
  end.

Section Engine.
Context {P : Packages}.

Definition getConfig (resp : Response) : Outcome Config.t :=
  bd <- fetchHttp resp ;;
  let config := Config.zero in
  let config := fst (xml_Unmarshal_Config (fst bd) config) in
  Returns config.

Definition getClosestServers (client : Client.t) (resp : Response)
  : Outcome (list Server.t) :=
  bd <- fetchHttp resp ;;
  let servers := Servers.zero in
  let servers := fst (xml_Unmarshal_Servers (fst bd) servers) in
  match Servers.ServerGroup servers with
  | [] => Panics
  | group :: _ => Returns (rankServers client group)
  end.

(** The loop [for _, server := range servers] from the [i]-th server on,
    with the two variables it carries. *)
Fixpoint probeFrom (seed : nat -> Duration) (probe : nat -> nat -> string -> Response)
    (i : nat) (servers : list Server.t) (firstPass : bool) (bestServer : Server.t)
  : Outcome Server.t :=
  match servers with
  | [] => Returns bestServer
  | server :: rest =>
      match url_Parse (Server.Url server) with
      | inr err => Fatal err
      | inl u =>
          let u := URL.with_Path u latencyPath in
          let totalDur := seed i in
          totalDur <- latencyLoop timesToRunLatency 0
                        (fun k => probe i k (URL_String u)) totalDur ;;
          let server :=
            Server.with_Ping server
              (Z.quot (durationToMilliSeconds totalDur) (Z.of_nat timesToRunLatency)) in
          if firstPass || (Server.Ping server <? Server.Ping bestServer)%Z then
            probeFrom seed probe (S i) rest false server
          else
            probeFrom seed probe (S i) rest firstPass bestServer
      end
  end.

Definition getBestServer (servers : list Server.t) (seed : nat -> Duration)
    (probe : nat -> nat -> string -> Response) : Outcome Server.t :=
  probeFrom seed probe 0 servers true Server.zero.

Definition main (help : bool) (configResponse serversResponse : Response)
    (seed : nat -> Duration) (probe : nat -> nat -> string -> Response)
  : Outcome Server.t :=
  if help then Exits 2
  else
    c <- getConfig configResponse ;;
    match Config.Clients c with
    | [] => Panics
    | client :: _ =>
        s <- getClosestServers client serversResponse ;;
        b <- getBestServer s seed probe ;;
        Returns b
    end.

End Engine.
End Earlier.

(** The second probe of the second candidate is refused, all others are
    served. *)
Definition brokenSecond (i k : nat) (url : string) : Response :=
  match i, k with
  | 1%nat, 1%nat => GetFails "dial tcp: connection refused" 40
  | _, _ => Served [] 5000000
  end.

(** A server list whose only group holds no server, and an instance of the
    packages whose decoder knows it. *)
Definition emptyGroupXml : string := "<settings><servers></servers></settings>".

Definition emptyGroup_Unmarshal_Servers (data : list Byte.byte) (v : Servers.t)
  : Servers.t * option error :=
  if String.eqb (string_of_list_byte data) emptyGroupXml then (Servers.mk [[]], None)
  else table_Unmarshal_Servers data v.

Definition emptyGroupPackages : Packages :=
  Build_Packages table_Unmarshal_Config emptyGroup_Unmarshal_Servers plain_Parse plain_String.

(** A run in which everything is served. *)
Definition servedWorld : World.t :=
  World.mk false
           (Served (list_byte_of_string configXml) 1000000)
           (Served (list_byte_of_string serversXml) 2000000)
           (fun _ => 0) steadyProbe [0%nat]
           50 (steadyDownload megabyte 100000000) (drainSchedule 6 40).

(** The same run with the two documents that break off. *)
Definition truncatedWorld : World.t :=
  World.mk false
           (Served (list_byte_of_string truncatedConfigXml) 1000000)
           (Served (list_byte_of_string truncatedServersXml) 2000000)
           (fun _ => 0) steadyProbe [0%nat]
           50 (steadyDownload megabyte 100000000) (drainSchedule 6 40).

(** * Properties *)

(** ** distance *)

Section Distance.
#[local] Open Scope R_scope.

Lemma sin_sq_PI4 : sin (PI / 4) * sin (PI / 4) = 1 / 2.
Proof.
  rewrite sin_PI4.
  assert (H : sqrt 2 * sqrt 2 = 2) by (apply sqrt_sqrt; lra).
  assert (H0 : sqrt 2 <> 0) by (intro E; rewrite E in H; lra).
  field_simplify; [ | exact H0].
  replace (sqrt 2 ^ 2) with (sqrt 2 * sqrt 2) by ring.
  rewrite H. lra.
Qed.

Lemma Atan2_pos (y x : R) : 0 < x -> Atan2 y x = atan (y / x).
Proof.
  intros H. unfold Atan2.
  destruct (Rlt_dec 0 x); [reflexivity | contradiction].
Qed.

Lemma Atan2_diag (x : R) : 0 < x -> Atan2 x x = PI / 4.
Proof.
  intros H. rewrite Atan2_pos by exact H.
  replace (x / x) with 1 by (field; lra).
  exact atan_1.
Qed.

Lemma atan_sqrt3 : atan (sqrt 3) = PI / 3.
Proof.
  rewrite <- tan_PI3. apply atan_tan.
  pose proof PI_RGT_0. lra.
Qed.

(** For an angle [x] of the first quadrant, the last step of [distance]
    gives [x] back from [a = sin x * sin x]. *)
Lemma Atan2_sin_cos (x : R) :
  0 <= x < PI / 2 ->
  Atan2 (sqrt (sin x * sin x)) (sqrt (1 - sin x * sin x)) = x.
Proof.
  intros [H0 H1].
  assert (Hc : 0 < cos x) by (apply cos_gt_0; lra).
  assert (Hs : 0 <= sin x) by (apply sin_ge_0; lra).
  replace (1 - sin x * sin x) with (cos x * cos x)
    by (pose proof (sin2_cos2 x) as E; unfold Rsqr in E; lra).
  rewrite !sqrt_square by lra.
  rewrite Atan2_pos by exact Hc.
  change (sin x / cos x) with (tan x).
  apply atan_tan. lra.
Qed.

Lemma distance_equator_pole : distance equator0 pole60 = 6371 * (2 * (PI / 3)).
Proof.
  unfold distance, equator0, pole60, degToRad, earthsRadiusKm;
    cbn [Point.Lat Point.Long].
  replace ((90 - 0) * (PI / 180) / 2) with (PI / 4) by field.
  replace ((60 - 0) * (PI / 180) / 2) with (PI / 6) by field.
  replace (0 * (PI / 180)) with 0 by field.
  rewrite sin_sq_PI4, cos_0, sin_PI6.
  replace (1 / 2 + 1 * 1 * (1 / 2) * (1 / 2)) with (3 / 4) by field.
  replace (1 - 3 / 4) with (1 / 4) by field.
  assert (Hq : 0 < sqrt (1 / 4)) by (apply sqrt_lt_R0; lra).
  rewrite Atan2_pos by exact Hq.
  rewrite <- sqrt_div by lra.
  replace (3 / 4 / (1 / 4)) with 3 by field.
  rewrite atan_sqrt3. reflexivity.
Qed.

Lemma distance_pole_equator : distance pole60 equator0 = 6371 * (2 * (PI / 4)).
Proof.
  unfold distance, equator0, pole60, degToRad, earthsRadiusKm;
    cbn [Point.Lat Point.Long].
  replace ((0 - 90) * (PI / 180) / 2) with (- (PI / 4)) by field.
  replace (90 * (PI / 180)) with (PI / 2) by field.
  rewrite sin_neg, cos_PI2.
  replace (- sin (PI / 4) * - sin (PI / 4)) with (sin (PI / 4) * sin (PI / 4)) by ring.
  rewrite sin_sq_PI4.
  replace (1 / 2 + 0 * 0 * _ * _) with (1 / 2) by ring.
  replace (1 - 1 / 2) with (1 / 2) by field.
  rewrite Atan2_diag by (apply sqrt_lt_R0; lra).
  reflexivity.
Qed.

Lemma haversine_spec_equator_pole :
  haversine_spec equator0 pole60 = 6371 * (2 * (PI / 4)).
Proof.
  unfold haversine_spec, equator0, pole60, Rsqr; cbn [Point.Lat Point.Long].
  replace ((90 - 0) * (PI / 180) / 2) with (PI / 4) by field.
  replace (90 * (PI / 180)) with (PI / 2) by field.
  rewrite sin_sq_PI4, cos_PI2.
  replace (1 / 2 + cos (0 * (PI / 180)) * 0 * _) with (1 / 2) by ring.
  replace (1 - 1 / 2) with (1 / 2) by field.
  rewrite Atan2_diag by (apply sqrt_lt_R0; lra).
  field.
Qed.

(** C3.  [distance] is not the haversine distance of the specification and is
    not symmetric: from the point (0, 0) to the point (90, 60) it gives
    6371 * 2 * PI / 3 km (about 13343 km), while the formula of the
    specification, and [distance] itself in the other direction, give
    6371 * PI / 2 km (about 10008 km).  The code multiplies the cosine of
    the origin's latitude by itself where the formula has the cosine of the
    destination's latitude. *)
Theorem distance_not_haversine :
  distance equator0 pole60 = 6371 * (2 * (PI / 3)) /\
  distance pole60 equator0 = 6371 * (2 * (PI / 4)) /\
  haversine_spec equator0 pole60 = 6371 * (2 * (PI / 4)) /\
  distance equator0 pole60 <> haversine_spec equator0 pole60 /\
  distance equator0 pole60 <> distance pole60 equator0.
Proof.
  pose proof PI_RGT_0 as HPI.
  rewrite distance_equator_pole, distance_pole_equator, haversine_spec_equator_pole.
  repeat split; try reflexivity; lra.
Qed.

(** Where the two latitudes have the same cosine, [distance] is the formula
    of the specification. *)
Lemma distance_haversine_same_cos (origin destination : Point.t) :
  cos (Point.Lat destination * (PI / 180)) = cos (Point.Lat origin * (PI / 180)) ->
  distance origin destination = haversine_spec origin destination.
Proof.
  intros E. unfold distance, haversine_spec, degToRad, earthsRadiusKm, Rsqr.
  rewrite E.
  set (x := sin ((Point.Lat destination - Point.Lat origin) * (PI / 180) / 2)).
  set (y := sin ((Point.Long destination - Point.Long origin) * (PI / 180) / 2)).
  set (c := cos (Point.Lat origin * (PI / 180))).
  replace (x * x + c * c * y * y) with (x * x + c * c * (y * y)) by ring.
  ring.
Qed.

End Distance.

(** ** getClosestServers *)

Section Ranking.
#[local] Open Scope R_scope.

Lemma map_set_nil k v : map_set [] k v = [(k, v)].
Proof. reflexivity. Qed.

Lemma map_set_hit k' v' m k v : k' = k -> map_set ((k', v') :: m) k v = (k', v) :: m.
Proof.
  intros E. cbn. destruct (Req_dec_T k' k); [reflexivity | contradiction].
Qed.

Lemma map_set_miss k' v' m k v :
  k' <> k -> map_set ((k', v') :: m) k v = (k', v') :: map_set m k v.
Proof.
  intros E. cbn. destruct (Req_dec_T k' k); [contradiction | reflexivity].
Qed.

Lemma map_delete_hit k' v' m k : k' = k -> map_delete ((k', v') :: m) k = m.
Proof.
  intros E. cbn. destruct (Req_dec_T k' k); [reflexivity | contradiction].
Qed.

Lemma map_delete_miss k' v' m k :
  k' <> k -> map_delete ((k', v') :: m) k = (k', v') :: map_delete m k.
Proof.
  intros E. cbn. destruct (Req_dec_T k' k); [contradiction | reflexivity].
Qed.

Lemma highestFrom_nil h : highestFrom h [] = h.
Proof. reflexivity. Qed.

Lemma highestFrom_up h k v m : h < k -> highestFrom h ((k, v) :: m) = highestFrom k m.
Proof.
  intros E. cbn. destruct (Rlt_dec h k); [reflexivity | contradiction].
Qed.

Lemma highestFrom_keep h k v m : k <= h -> highestFrom h ((k, v) :: m) = highestFrom h m.
Proof.
  intros E. cbn. destruct (Rlt_dec h k); [lra | reflexivity].
Qed.

Lemma Rlt_dec_true {A} a b (x y : A) : a < b -> (if Rlt_dec a b then x else y) = x.
Proof.
  intros. destruct (Rlt_dec a b); [reflexivity | contradiction].
Qed.

Lemma Rlt_dec_false {A} a b (x y : A) : b <= a -> (if Rlt_dec a b then x else y) = y.
Proof.
  intros. destruct (Rlt_dec a b); [lra | reflexivity].
Qed.

Lemma fold_left_step {A B} (f : A -> B -> A) x l a :
  fold_left f (x :: l) a = fold_left f l (f a x).
Proof. reflexivity. Qed.

(** Seen from [client0], a server on the equator at [lon] degrees east is
    at [lon] times the length of one degree. *)
Lemma distance_on_equator (lon : R) :
  0 <= lon < 180 ->
  distance (Point.mk 0 0) (Point.mk 0 lon) = lon * (6371 * PI / 180).
Proof.
  intros H. pose proof PI_RGT_0 as HPI.
  unfold distance, degToRad, earthsRadiusKm; cbn [Point.Lat Point.Long].
  replace ((0 - 0) * (PI / 180) / 2) with 0 by field.
  replace (0 * (PI / 180)) with 0 by field.
  rewrite sin_0, cos_0.
  set (x := (lon - 0) * (PI / 180) / 2).
  replace (0 * 0 + 1 * 1 * sin x * sin x) with (sin x * sin x) by ring.
  rewrite Atan2_sin_cos.
  - unfold x. field.
  - unfold x. split; nra.
Qed.

Lemma rankStep_on_equator (m : DistMap) (name : string) (lon : R) :
  0 <= lon < 180 ->
  rankStep client0 m (onEquator name lon) =
  if (List.length m <? 5)%nat then map_set m (lon * (6371 * PI / 180)) (ranked name lon)
  else if Rlt_dec (lon * (6371 * PI / 180)) (highest m)
       then map_set (map_delete m (highest m)) (lon * (6371 * PI / 180)) (ranked name lon)
       else m.
Proof.
  intros H. unfold rankStep.
  cbn [client0 Client.Lat Client.Long onEquator Server.Lat Server.Long].
  rewrite (distance_on_equator lon H). reflexivity.
Qed.

End Ranking.

Ltac eval_map :=
  repeat first
    [ rewrite map_set_nil
    | rewrite map_set_hit by lra
    | rewrite map_set_miss by lra
    | rewrite map_delete_hit by lra
    | rewrite map_delete_miss by lra
    | rewrite highestFrom_nil
    | rewrite highestFrom_up by lra
    | rewrite highestFrom_keep by lra
    | rewrite Rlt_dec_true by lra
    | rewrite Rlt_dec_false by lra ].

Ltac rank_step :=
  rewrite fold_left_step;
  rewrite rankStep_on_equator by lra;
  cbn [List.length Nat.ltb Nat.leb];
  unfold highest; eval_map.

Section RankingExamples.
#[local] Open Scope R_scope.

Lemma rankServers_twins : rankServers client0 twins = [ranked "B" 1].
Proof.
  pose proof PI_RGT_0 as HPI.
  unfold rankServers, twins.
  do 2 rank_step. reflexivity.
Qed.

Lemma rankServers_crowd :
  rankServers client0 crowd =
  [ranked "S1bis" 1; ranked "S2" 2; ranked "S3" 3; ranked "S4" 4; ranked "Far" 100].
Proof.
  pose proof PI_RGT_0 as HPI.
  unfold rankServers, crowd.
  do 7 rank_step. reflexivity.
Qed.

(** Whatever the client, of two servers at the same place the second
    alone is retained. *)
Lemma rankServers_same_place (client : Client.t) (s1 s2 : Server.t) :
  Server.Lat s1 = Server.Lat s2 ->
  Server.Long s1 = Server.Long s2 ->
  rankServers client [s1; s2] =
  [Server.with_Distance s2
     (distance (Point.mk (Client.Lat client) (Client.Long client))
               (Point.mk (Server.Lat s2) (Server.Long s2)))].
Proof.
  intros Hlat Hlong. unfold rankServers. cbn [fold_left].
  unfold rankStep at 2. cbn [List.length Nat.ltb Nat.leb map_set].
  unfold rankStep. cbn [List.length Nat.ltb Nat.leb Server.Distance Server.with_Distance
                        Server.Lat Server.Long].
  rewrite Hlat, Hlong, map_set_hit by reflexivity.
  reflexivity.
Qed.

(** C1.  Two distinct servers at the same distance from the client, offered
    to an empty selection: only the second is retained, because the
    selection is a map keyed by the distance and the second assignment
    overwrites the first. *)
Theorem getClosestServers_drops_equal_distance :
  distance (Point.mk (Client.Lat client0) (Client.Long client0))
           (Point.mk (Server.Lat (onEquator "A" 1)) (Server.Long (onEquator "A" 1))) =
  distance (Point.mk (Client.Lat client0) (Client.Long client0))
           (Point.mk (Server.Lat (onEquator "B" 1)) (Server.Long (onEquator "B" 1))) /\
  Server.Name (onEquator "A" 1) <> Server.Name (onEquator "B" 1) /\
  map Server.Name (rankServers client0 twins) = ["B"%string].
Proof.
  split; [reflexivity | split].
  - cbn. discriminate.
  - rewrite rankServers_twins. reflexivity.
Qed.

(** C2.  Of seven candidates the five returned include the one at 100
    degrees and not the one at 5 degrees, which is closer: the candidate
    that shares its distance with a retained one evicts the farthest and
    then overwrites its twin, which leaves room for whatever comes next.
    And of the two candidates of [twins] one is returned, not two. *)
Theorem getClosestServers_not_the_closest :
  let out := rankServers client0 crowd in
  List.length out = Nat.min 5 (List.length crowd) /\
  In "Far"%string (map Server.Name out) /\
  ~ In "S5"%string (map Server.Name out) /\
  distance (Point.mk 0 0) (Point.mk 0 5) < distance (Point.mk 0 0) (Point.mk 0 100) /\
  List.length (rankServers client0 twins) <> Nat.min 5 (List.length twins).
Proof.
  pose proof PI_RGT_0 as HPI.
  cbv zeta. rewrite rankServers_crowd, rankServers_twins.
  rewrite !distance_on_equator by lra.
  cbn [map ranked Server.with_Distance Server.Name onEquator List.length crowd twins Nat.min].
  repeat split.
  - right; right; right; right; left; reflexivity.
  - intros H. repeat (destruct H as [H | H]; [discriminate H | ]). exact H.
  - lra.
  - discriminate.
Qed.

End RankingExamples.

(** ** getBestServer *)

Section Prober.
Context {P : Packages}.
Variable seed : nat -> Duration.
Variable probe : nat -> nat -> string -> Response.

Lemma measure_parsed (i : nat) (s : Server.t) (u : URL.t) :
url_Parse (Server.Url s) = inl u ->
measure (seed i) (probe i) s = Returns (Server.with_Ping s (meanPing seed probe i u)).
Proof.
intros E. unfold measure, meanPing. rewrite E. reflexivity.
Qed.

Lemma measure_unparsed (i : nat) (s : Server.t) (err : error) :
url_Parse (Server.Url s) = inr err ->
measure (seed i) (probe i) s = Fatal err.
Proof.
intros E. unfold measure. rewrite E. reflexivity.
Qed.

Lemma copyOf_refl (s : Server.t) : copyOf s s.
Proof. reflexivity. Qed.

Lemma copyOf_with_Ping (s s' : Server.t) (p : Z) :
copyOf s s' -> copyOf s (Server.with_Ping s' p).
Proof.
unfold copyOf. destruct s, s'. cbn. intros E. exact E.
Qed.

Lemma measure_copyOf (i : nat) (s s' : Server.t) :
copyOf s s' -> measure (seed i) (probe i) s' = measure (seed i) (probe i) s.
Proof.
unfold copyOf, measure. destruct s, s'; cbn.
intros E. injection E as -> -> -> -> -> -> -> ->. reflexivity.
Qed.

Lemma Forall2_copyOf_refl (l : list Server.t) : Forall2 copyOf l l.
Proof.
induction l; constructor; [apply copyOf_refl | assumption].
Qed.

Lemma Forall2_nth_error {A B} (R : A -> B -> Prop) l l' i y :
Forall2 R l l' -> nth_error l' i = Some y ->
exists x, nth_error l i = Some x /\ R x y.
Proof.
intros H. revert i. induction H as [ | x y' l l' Hxy _ IH]; intros [ | i] E; cbn in *;
  try discriminate.
- injection E as ->. eauto.
- eauto.
Qed.

Lemma Forall2_nth_error_None {A B} (R : A -> B -> Prop) l l' i :
Forall2 R l l' -> nth_error l' i = None -> nth_error l i = None.
Proof.
intros H. revert i. induction H; intros [ | i] E; cbn in *;
  try discriminate; auto.
Qed.

Lemma Forall2_set_nth {A B} (R : A -> B -> Prop) l l' i x y :
Forall2 R l l' -> nth_error l i = Some x -> R x y ->
Forall2 R l (set_nth i y l').
Proof.
intros H. revert i. induction H as [ | a b l l' Hab H IH]; intros [ | i] E Hxy; cbn in *;
  try discriminate.
- injection E as ->. constructor; assumption.
- constructor; [assumption | eapply IH; eassumption].
Qed.

Lemma runProber_app (o1 o2 : list nat) (st : Prober) :
runProber seed probe (o1 ++ o2)%list st =
(st' <- runProber seed probe o1 st ;; runProber seed probe o2 st').
Proof.
revert st. induction o1 as [ | i o1 IH]; intros st; cbn.
- reflexivity.
- destruct (goroutine seed probe st i); cbn; auto.
Qed.

Lemma goroutine_recorded (servers : list Server.t) (order : list nat) (st st' : Prober)
  (i : nat) :
recorded seed probe servers order st ->
goroutine seed probe st i = Returns st' ->
recorded seed probe servers (order ++ [i])%list st'.
Proof.
intros (Hslice & Hcopies & Hbest). unfold goroutine.
destruct (nth_error (goroutine_server st) i) as [s' | ] eqn:Ei.
- destruct (Forall2_nth_error _ _ _ _ _ Hcopies Ei) as (s & Es & Hc).
  rewrite (measure_copyOf i s s' Hc).
  destruct (measure (seed i) (probe i) s) as [b | | | | ] eqn:Hb; cbn [bind];
    try discriminate.
  intros E. injection E as <-.
  assert (Hcopies' : Forall2 copyOf servers (set_nth i b (goroutine_server st))).
  { eapply Forall2_set_nth; try eassumption.
    unfold measure in Hb. destruct (url_Parse (Server.Url s)); [ | discriminate].
    injection Hb as <-. apply copyOf_with_Ping, copyOf_refl. }
  unfold record; cbn [firstPass bestServer servers_slice goroutine_server].
  destruct Hbest as [(Hf & Hz & Hnone) | (Hf & k & sk & o1 & o2 & Ho & Ek & Hk & Hlt & Hle)].
  + rewrite Hf. cbn [orb].
    split; [exact Hslice | split; [exact Hcopies' | right]].
    split; [reflexivity | ].
    exists i, s, order, []. cbn [bestServer].
    repeat split; auto.
    * intros j sj bj Hj Ej _. rewrite (Hnone j Hj) in Ej. discriminate.
    * intros j sj bj [].
  + rewrite Hf. cbn [orb].
    destruct (Z.ltb_spec (Server.Ping b) (Server.Ping (bestServer st))) as [Hlt' | Hge].
    * split; [exact Hslice | split; [exact Hcopies' | right]].
      split; [reflexivity | ].
      exists i, s, order, []. cbn [bestServer].
      repeat split; auto.
      -- intros j sj bj Hj Ej Hm. subst order.
         apply in_app_or in Hj. destruct Hj as [Hj | [<- | Hj]].
         ++ specialize (Hlt j sj bj Hj Ej Hm). lia.
         ++ rewrite Ek in Ej. injection Ej as <-. rewrite Hk in Hm.
            injection Hm as <-. exact Hlt'.
         ++ specialize (Hle j sj bj Hj Ej Hm). lia.
      -- intros j sj bj [].
    * split; [exact Hslice | split; [exact Hcopies' | right]].
      cbn [firstPass bestServer].
      split; [first [reflexivity | exact Hf] | ].
      exists k, sk, o1, (o2 ++ [i])%list.
      repeat split; auto.
      -- subst order. rewrite <- app_assoc. reflexivity.
      -- intros j sj bj Hj Ej Hm.
         apply in_app_or in Hj. destruct Hj as [Hj | [<- | []]].
         ++ eapply Hle; eassumption.
         ++ rewrite Es in Ej. injection Ej as <-. rewrite Hb in Hm.
            injection Hm as <-. exact Hge.
- pose proof (Forall2_nth_error_None _ _ _ _ Hcopies Ei) as En.
  intros E. injection E as <-.
  split; [exact Hslice | split; [exact Hcopies | ]].
  destruct Hbest as [(Hf & Hz & Hnone) | (Hf & k & sk & o1 & o2 & Ho & Ek & Hk & Hlt & Hle)].
  + left. repeat split; auto.
    intros j Hj. apply in_app_or in Hj. destruct Hj as [Hj | [<- | []]]; auto.
  + right. split; [exact Hf | ].
    exists k, sk, o1, (o2 ++ [i])%list.
    repeat split; auto.
    * subst order. rewrite <- app_assoc. reflexivity.
    * intros j sj bj Hj Ej Hm.
      apply in_app_or in Hj. destruct Hj as [Hj | [<- | []]].
      -- eapply Hle; eassumption.
      -- rewrite En in Ej. discriminate.
Qed.

Lemma goroutine_returns (servers : list Server.t) (order : list nat) (st : Prober) (i : nat) :
Forall (fun s => exists u, url_Parse (Server.Url s) = inl u) servers ->
recorded seed probe servers order st ->
exists st', goroutine seed probe st i = Returns st'.
Proof.
intros Hparse (Hslice & Hcopies & _). unfold goroutine.
destruct (nth_error (goroutine_server st) i) as [s' | ] eqn:Ei; [ | eauto].
destruct (Forall2_nth_error _ _ _ _ _ Hcopies Ei) as (s & Es & Hc).
rewrite (measure_copyOf i s s' Hc).
rewrite Forall_forall in Hparse.
destruct (Hparse s (nth_error_In _ _ Es)) as (u & Hu).
rewrite (measure_parsed i s u Hu). cbn [bind]. eauto.
Qed.

Lemma recorded_initial (servers : list Server.t) :
recorded seed probe servers [] (mkProber servers servers true Server.zero).
Proof.
split; [reflexivity | split; [apply Forall2_copyOf_refl | left]].
repeat split; auto. intros j [].
Qed.

(** Whatever the order, a run of the goroutines that returns leaves the
  prober in a state [recorded] describes. *)
Lemma runProber_recorded (servers : list Server.t) (order : list nat) (st : Prober) :
runProber seed probe order (mkProber servers servers true Server.zero) = Returns st ->
recorded seed probe servers order st.
Proof.
revert st. induction order as [ | i order IH] using rev_ind; intros st.
- cbn. intros E. injection E as <-. apply recorded_initial.
- rewrite runProber_app.
  destruct (runProber seed probe order _) as [st1 | | | | ]; cbn [bind];
    try discriminate.
  cbn [runProber].
  destruct (goroutine seed probe st1 i) as [st2 | | | | ] eqn:Hg; cbn [bind];
    try discriminate.
  intros E. injection E as <-.
  eapply goroutine_recorded; [apply IH; reflexivity | exact Hg].
Qed.

(** With URLs that parse, every goroutine gets to the lock. *)
Lemma runProber_returns (servers : list Server.t) (order : list nat) :
Forall (fun s => exists u, url_Parse (Server.Url s) = inl u) servers ->
exists st, runProber seed probe order (mkProber servers servers true Server.zero) = Returns st.
Proof.
intros Hparse. induction order as [ | i order IH] using rev_ind.
- eexists. reflexivity.
- destruct IH as (st & Hrun).
  destruct (goroutine_returns servers order st i Hparse (runProber_recorded _ _ _ Hrun))
    as (st' & Hg).
  exists st'. rewrite runProber_app, Hrun. cbn. rewrite Hg. reflexivity.
Qed.

Lemma covers_In (n : nat) (order : list nat) (j : nat) :
covers n order = true -> (j < n)%nat -> In j order.
Proof.
unfold covers. intros H Hj.
apply andb_true_iff in H. destruct H as [_ H].
rewrite forallb_forall in H.
specialize (H j). rewrite in_seq in H.
assert (Hx : existsb (Nat.eqb j) order = true) by (apply H; lia).
apply existsb_exists in Hx. destruct Hx as (k & Hk & E).
apply Nat.eqb_eq in E. subst k. exact Hk.
Qed.

(** C5.  For a non-empty list of candidates whose URLs parse, and whatever the
  order in which the goroutines take the lock, [getBestServer] returns one
  server: candidate [i] of the list with the mean of its own probes assigned
  to [Ping]; no candidate's mean is below that mean, and the mean of every
  candidate recorded before it is strictly above.  So among the candidates
  with the lowest mean the one recorded first is returned. *)
Theorem getBestServer_lowest_mean (servers : list Server.t) (order : list nat) :
servers <> [] ->
Forall (fun s => exists u, url_Parse (Server.Url s) = inl u) servers ->
covers (List.length servers) order = true ->
exists b, getBestServer servers seed probe order = Returns b /\
          lowestRecordedFirst seed probe servers order b.
Proof.
intros Hne Hparse Hcov.
destruct (runProber_returns servers order Hparse) as (st & Hrun).
pose proof (runProber_recorded servers order st Hrun) as (_ & _ & Hbest).
exists (bestServer st). split.
- unfold getBestServer, getBestServerMem. rewrite Hcov, Hrun. reflexivity.
- destruct Hbest as [(_ & _ & Hnone) | (_ & i & s & o1 & o2 & Ho & Ei & Hi & Hlt & Hle)].
  + exfalso. destruct servers as [ | s0 servers']; [congruence | ].
    assert (H0 : In 0%nat order) by (apply (covers_In _ _ _ Hcov); cbn; lia).
    specialize (Hnone _ H0). discriminate.
  + rewrite Forall_forall in Hparse.
    destruct (Hparse s (nth_error_In _ _ Ei)) as (u & Hu).
    rewrite (measure_parsed i s u Hu) in Hi. injection Hi as Hi.
    assert (Hping : Server.Ping (bestServer st) = meanPing seed probe i u).
    { rewrite <- Hi. destruct s; reflexivity. }
    exists i, s, u, o1, o2.
    split; [exact Ho | split; [exact Ei | split; [exact Hu | split; [auto | split]]]].
    * intros j sj uj Ej Huj.
      pose proof (measure_parsed j sj uj Huj) as Hj.
      assert (Hin : In j order).
      { apply (covers_In _ _ _ Hcov). apply nth_error_Some. congruence. }
      rewrite Ho in Hin. apply in_app_or in Hin. destruct Hin as [Hin | [<- | Hin]].
      -- specialize (Hlt j sj _ Hin Ej Hj). rewrite Hping in Hlt.
         destruct sj; cbn in Hlt. lia.
      -- rewrite Ei in Ej. injection Ej as <-. rewrite Hu in Huj.
         injection Huj as <-. lia.
      -- specialize (Hle j sj _ Hin Ej Hj). rewrite Hping in Hle.
         destruct sj; cbn in Hle. exact Hle.
    * intros j sj uj Hin Ej Huj.
      pose proof (measure_parsed j sj uj Huj) as Hj.
      specialize (Hlt j sj _ Hin Ej Hj). rewrite Hping in Hlt.
      destruct sj; cbn in Hlt. exact Hlt.
Qed.

(** The lock section replaces the recorded best on the first pass or for a
  strictly lower mean, and only then. *)
Lemma record_replaces (st : Prober) (server : Server.t) :
(firstPass st = true \/ Server.Ping server < Server.Ping (bestServer st) ->
 bestServer (record st server) = server /\ firstPass (record st server) = false) /\
(firstPass st = false -> Server.Ping (bestServer st) <= Server.Ping server ->
 record st server = st).
Proof.
unfold record. split.
- intros [H | H].
  + rewrite H. cbn. auto.
  + apply Z.ltb_lt in H. rewrite H, orb_true_r. cbn. auto.
- intros Hf Hle. rewrite Hf. cbn [orb].
  destruct (Z.ltb_spec (Server.Ping server) (Server.Ping (bestServer st))); [lia | reflexivity].
Qed.

(** C10.  A run of [getBestServer] that returns leaves the caller's slice as
  it was: the goroutines assign [Ping] in their own copies, which differ
  from the elements of the slice in [Ping] at most, so an element whose
  [Ping] was zero still has it zero; the measured ping is in the server
  returned, a copy of one of the elements with [Ping] assigned. *)
Theorem getBestServer_keeps_slice (servers : list Server.t) (order : list nat) (st : Prober) :
getBestServerMem servers seed probe order = Returns st ->
servers_slice st = servers /\
Forall2 copyOf servers (goroutine_server st) /\
(Forall (fun s => Server.Ping s = 0) servers ->
 Forall (fun s => Server.Ping s = 0) (servers_slice st)) /\
getBestServer servers seed probe order = Returns (bestServer st) /\
(servers <> [] ->
 exists i s u, nth_error servers i = Some s /\ url_Parse (Server.Url s) = inl u /\
               bestServer st = Server.with_Ping s (meanPing seed probe i u)).
Proof.
unfold getBestServer, getBestServerMem.
destruct (covers (List.length servers) order) eqn:Hcov; [ | discriminate].
intros Hrun. rewrite Hrun. cbn [bind].
pose proof (runProber_recorded servers order st Hrun) as (Hslice & Hcopies & Hbest).
split; [exact Hslice | split; [exact Hcopies | split; [ | split; [reflexivity | ]]]].
- rewrite Hslice. auto.
- intros Hne.
  destruct Hbest as [(_ & _ & Hnone) | (_ & i & s & o1 & o2 & Ho & Ei & Hi & _)].
  + exfalso. destruct servers as [ | s0 servers']; [congruence | ].
    assert (H0 : In 0%nat order) by (apply (covers_In _ _ _ Hcov); cbn; lia).
    specialize (Hnone _ H0). discriminate.
  + exists i, s. unfold measure in Hi.
    destruct (url_Parse (Server.Url s)) as [u | err] eqn:Hu; [ | discriminate].
    exists u. injection Hi as Hi. repeat split; auto.
Qed.

End Prober.

(** The three candidates, recorded in the order "tied", "near", "fast":
    "tied" and "fast" both have a mean of 5 ms, "near" has 20 ms, and the
    server returned is "tied" with [Ping] 5. *)
Lemma getBestServer_lowest_mean_witness :
  candidates <> [] /\
  covers (List.length candidates) [2; 0; 1]%nat = true /\
  getBestServer (P := examplePackages) candidates (fun _ => 0) steadyProbe [2; 0; 1]%nat
  = Returns (Server.with_Ping
               (candidate "tied" "http://tied.example.net/speedtest/upload.php") 5) /\
  lowestRecordedFirst (P := examplePackages) (fun _ => 0) steadyProbe candidates
                      [2; 0; 1]%nat
                      (Server.with_Ping
                         (candidate "tied" "http://tied.example.net/speedtest/upload.php") 5).
Proof.
  split; [discriminate | split; [reflexivity | split; [reflexivity | ]]].
  destruct (getBestServer_lowest_mean (P := examplePackages) (fun _ => 0) steadyProbe
              candidates [2; 0; 1]%nat) as (b & Hb & Hlow).
  - discriminate.
  - repeat constructor; eexists; reflexivity.
  - reflexivity.
  - injection Hb as <-. exact Hlow.
Defined.

(** In that run the candidate "tied" is recorded first and keeps the slot
    against "fast", which has the same mean. *)
Example getBestServer_tie :
  getBestServer (P := examplePackages) candidates (fun _ => 0) steadyProbe [2; 0; 1]%nat
  = Returns (Server.with_Ping
               (candidate "tied" "http://tied.example.net/speedtest/upload.php") 5).
Proof. reflexivity. Qed.

Lemma getBestServer_keeps_slice_witness :
  exists st,
    getBestServerMem (P := examplePackages) candidates (fun _ => 0) steadyProbe [2; 0; 1]%nat
    = Returns st /\
    servers_slice st = candidates /\
    Forall (fun s => Server.Ping s = 0) (servers_slice st) /\
    Server.Ping (bestServer st) = 5.
Proof.
  eexists. split; [reflexivity | ].
  destruct (getBestServer_keeps_slice (P := examplePackages) (fun _ => 0) steadyProbe
              candidates [2; 0; 1]%nat _ eq_refl) as (Hs & _ & Hz & _).
  split; [exact Hs | split; [ | reflexivity]].
  apply Hz. repeat constructor.
Defined.

(** ** The mean latency *)

Lemma wrap64_id (z : Z) : int64 z -> wrap64 z = z.
Proof.
  unfold int64, wrap64. intros H.
  rewrite Z.mod_small by lia. lia.
Qed.

Lemma wrap64_add_l (a b : Z) : wrap64 (wrap64 a + b) = wrap64 (a + b).
Proof.
  unfold wrap64.
  replace ((a + 2 ^ 63) mod 2 ^ 64 - 2 ^ 63 + b + 2 ^ 63)
    with ((a + 2 ^ 63) mod 2 ^ 64 + b) by ring.
  rewrite Zplus_mod_idemp_l.
  replace (a + 2 ^ 63 + b) with (a + b + 2 ^ 63) by ring.
  reflexivity.
Qed.

Lemma wrap64_int64 (z : Z) : int64 (wrap64 z).
Proof.
  unfold int64, wrap64.
  pose proof (Z.mod_pos_bound (z + 2 ^ 63) (2 ^ 64)). lia.
Qed.

(** [latencyLoop] adds to what [totalDur] starts from the durations of the
    probes served before the first failure, on [int64]. *)
Lemma latencyLoop_sum (n i : nat) (fetch : nat -> Response) (totalDur : Duration) :
  latencyLoop n i fetch totalDur =
  match measuredDurations n i fetch with
  | [] => totalDur
  | ds => wrap64 (totalDur + sumZ ds)
  end.
Proof.
  revert i totalDur. induction n as [ | n IH]; intros i totalDur; cbn.
  - reflexivity.
  - destruct (fetchHttp (fetch i)) as [[b dur] [err | ]]; [reflexivity | ].
    rewrite IH.
    destruct (measuredDurations n (S i) fetch) as [ | d ds]; cbn [sumZ fold_right].
    + unfold add64. f_equal. lia.
    + unfold add64. rewrite wrap64_add_l. f_equal. lia.
Qed.

(** The mean that a goroutine assigns: the seed counts in the sum, failed
    probes do not, and the divisor is 5 whatever the number of successes. *)
Lemma measure_mean {P : Packages} (seed : Duration) (fetch : nat -> string -> Response)
    (s : Server.t) (u : URL.t) :
  url_Parse (Server.Url s) = inl u ->
  int64 seed ->
  measure seed fetch s =
  Returns (Server.with_Ping s
             (Z.quot (Z.quot
                        (wrap64 (seed +
                                 sumZ (measuredDurations timesToRunLatency 0
                                         (fun k => fetch k (URL_String
                                                              (URL.with_Path u "/latency.txt"))))))
                        1000000) 5)).
Proof.
  intros Hu Hseed. unfold measure. rewrite Hu.
  rewrite latencyLoop_sum.
  destruct (measuredDurations _ _ _) as [ | d ds] eqn:E.
  - cbn [sumZ fold_right]. rewrite Z.add_0_r, (wrap64_id seed Hseed). reflexivity.
  - reflexivity.
Qed.

(** With a seed of zero that is the mean of the specification. *)
Lemma measure_mean_seed0 {P : Packages} (fetch : nat -> string -> Response)
    (s : Server.t) (u : URL.t) :
  url_Parse (Server.Url s) = inl u ->
  let ds := measuredDurations timesToRunLatency 0
              (fun k => fetch k (URL_String (URL.with_Path u "/latency.txt"))) in
  int64 (sumZ ds) ->
  measure 0 fetch s = Returns (Server.with_Ping s (meanLatency_spec ds)).
Proof.
  intros Hu ds Hds.
  rewrite (measure_mean 0 fetch s u Hu) by (unfold int64; lia).
  fold ds. rewrite Z.add_0_l, (wrap64_id _ Hds). reflexivity.
Qed.

(** C6.  Five probes are served in 4999999 ns together and [totalDur] starts
    from a reading of 1 ns: the goroutine records a mean of 1 ms, where the
    sum of the measured durations gives 4 ms and a mean of 0.  When the third
    probe fails, the two served before it are summed, the loop ends, and the
    sum is still divided by 5. *)
Theorem getBestServer_mean_includes_seed :
  measure (P := examplePackages) 1 tightProbe nearCandidate
  = Returns (Server.with_Ping nearCandidate 1) /\
  measuredDurations timesToRunLatency 0
    (fun k => tightProbe k "http://near.example.net/latency.txt")
  = [1000000; 1000000; 1000000; 1000000; 999999] /\
  meanLatency_spec [1000000; 1000000; 1000000; 1000000; 999999] = 0 /\
  measure (P := examplePackages) 0 brokenProbe nearCandidate
  = Returns (Server.with_Ping nearCandidate 4) /\
  measuredDurations timesToRunLatency 0
    (fun k => brokenProbe k "http://near.example.net/latency.txt")
  = [10000000; 10000000] /\
  meanLatency_spec [10000000; 10000000] = 4.
Proof.
  repeat split; reflexivity.
Qed.

(** ** The producer of downloadSpeed *)

Section Strings.

Lemma list_ascii_of_string_app (a b : string) :
list_ascii_of_string (a ++ b) = (list_ascii_of_string a ++ list_ascii_of_string b)%list.
Proof.
induction a as [ | c a IH]; cbn; [reflexivity | now rewrite IH].
Qed.

Lemma scanBack_plain (l rest : list ascii) :
forallb plainChar l = true ->
scanBack (l ++ slash :: rest)%list = Some rest.
Proof.
induction l as [ | c l IH]; cbn [app forallb scanBack]; intros H.
- reflexivity.
- apply andb_true_iff in H. destruct H as [Hc Hl].
  unfold plainChar in Hc. apply andb_true_iff in Hc. destruct Hc as [Hn Hs].
  apply negb_true_iff in Hn, Hs. rewrite Hn, Hs. auto.
Qed.

(** A path that ends in a slash and a file name loses the file name and gets
  [tail] in its place. *)
Lemma replaceLastSegment_file (dir file tail : string) :
isFileName file = true ->
replaceLastSegment (dir ++ "/" ++ file) tail = dir ++ tail.
Proof.
unfold isFileName, replaceLastSegment. intros H.
rewrite !list_ascii_of_string_app. cbn [list_ascii_of_string app].
destruct (list_ascii_of_string file) as [ | c l] eqn:E; [discriminate | ].
assert (Hne : c :: l <> []) by discriminate.
destruct (exists_last Hne) as (l' & c0 & El). rewrite El in *.
rewrite forallb_app in H. apply andb_true_iff in H. destruct H as [Hl' Hc0].
cbn in Hc0. rewrite andb_true_r in Hc0.
change ("/"%char :: (l' ++ [c0]))%list with (slash :: (l' ++ [c0]))%list.
rewrite rev_app_distr. cbn [rev]. rewrite rev_app_distr. cbn [rev app].
unfold plainChar in Hc0. apply andb_true_iff in Hc0. destruct Hc0 as [Hn _].
apply negb_true_iff in Hn. rewrite Hn.
rewrite <- app_assoc. cbn [app].
rewrite scanBack_plain.
- rewrite rev_involutive, string_of_list_ascii_of_string. reflexivity.
- rewrite forallb_forall in Hl' |- *. intros x Hx. apply Hl'.
  apply in_rev. exact Hx.
Qed.

(** A path that is empty or a lone slash has nothing to replace. *)
Lemma replaceLastSegment_root (tail : string) :
replaceLastSegment "/" tail = "/" /\ replaceLastSegment "" tail = "".
Proof. split; reflexivity. Qed.

End Strings.

Section Producer.
Context {P : Packages}.

Lemma with_Path_twice (u : URL.t) (p q : string) :
URL.with_Path (URL.with_Path u p) q = URL.with_Path u q.
Proof. reflexivity. Qed.

Lemma emit_file (n : nat) (size : Z) (u : URL.t) (dir file : string) :
URL.Path u = dir ++ "/" ++ file ->
isFileName file = true ->
isFileName (imageName size) = true ->
emit (S n) size u =
(repeat (URL_String (URL.with_Path u (dir ++ randomImage size))) (S n),
 URL.with_Path u (dir ++ randomImage size)).
Proof.
revert u file. induction n as [ | n IH]; intros u file Hp Hf Hi.
- cbn [emit]. rewrite Hp, (replaceLastSegment_file dir file _ Hf). reflexivity.
- change (emit (S (S n)) size u) with
    (let u1 := URL.with_Path u (replaceLastSegment (URL.Path u) (randomImage size)) in
     let (out, u') := emit (S n) size u1 in (URL_String u1 :: out, u')).
  rewrite Hp, (replaceLastSegment_file dir file _ Hf). cbv zeta.
  rewrite (IH (URL.with_Path u (dir ++ randomImage size)) (imageName size));
    [reflexivity | reflexivity | exact Hi | exact Hi].
Qed.

Lemma generate_file (sizes : list Z) (u : URL.t) (dir file : string) :
URL.Path u = dir ++ "/" ++ file ->
isFileName file = true ->
Forall (fun size => isFileName (imageName size) = true) sizes ->
generate sizes u =
flat_map (fun size =>
            repeat (URL_String (URL.with_Path u (dir ++ randomImage size)))
                   duplicateDownloads) sizes.
Proof.
intros Hp Hf Hs. revert u file Hp Hf.
induction Hs as [ | size sizes Hi _ IH]; intros u file Hp Hf.
- reflexivity.
- cbn [generate flat_map]. unfold duplicateDownloads at 1.
  rewrite (emit_file 3 size u dir file Hp Hf Hi).
  rewrite (IH (URL.with_Path u (dir ++ randomImage size)) (imageName size));
    [reflexivity | reflexivity | exact Hi].
Qed.

Lemma emit_length (n : nat) (size : Z) (u : URL.t) :
List.length (fst (emit n size u)) = n.
Proof.
revert u. induction n as [ | n IH]; intros u; cbn [emit].
- reflexivity.
- specialize (IH (URL.with_Path u (replaceLastSegment (URL.Path u) (randomImage size)))).
  destruct (emit n size _) as [out u']. cbn in *. now rewrite IH.
Qed.

Lemma generate_length (sizes : list Z) (u : URL.t) :
List.length (generate sizes u) = (List.length sizes * duplicateDownloads)%nat.
Proof.
revert u. induction sizes as [ | size sizes IH]; intros u; cbn [generate].
- reflexivity.
- pose proof (emit_length duplicateDownloads size u) as E.
  destruct (emit duplicateDownloads size u) as [out u']. cbn [fst] in E.
  rewrite length_app, E, IH. reflexivity.
Qed.

Lemma downloadSizes_names :
Forall (fun size => isFileName (imageName size) = true) downloadSizes.
Proof. repeat constructor. Qed.

(** C7, as amended.  When the path of the server's URL ends in a slash and a
  file name, the producer sends 40 URLs and then closes the channel: for
  the ten sizes in ascending order, four times the URL of the server with
  the file name replaced by random<size>x<size>.jpg. *)
Theorem producer_emits (u : URL.t) (dir file : string) :
URL.Path u = dir ++ "/" ++ file ->
isFileName file = true ->
producer u =
(map Send
   (flat_map (fun size =>
                repeat (URL_String
                          (URL.with_Path u
                             (dir ++ "/random" ++ Itoa size ++ "x" ++ Itoa size ++ ".jpg")))
                       4)
             [350; 500; 750; 1000; 1500; 2000; 2500; 3000; 3500; 4000])
 ++ [Close])%list /\
List.length (generate downloadSizes u) = 40%nat.
Proof.
intros Hp Hf. split.
- unfold producer.
  rewrite (generate_file downloadSizes u dir file Hp Hf downloadSizes_names).
  reflexivity.
- apply generate_length.
Qed.

End Producer.

Lemma producer_emits_witness :
  producer (P := examplePackages)
           (URL.mk "http" "speedtest.example.net" "/speedtest/upload.php" "") =
  (map Send
     (flat_map (fun size =>
                  repeat ("http://speedtest.example.net/speedtest/random" ++ Itoa size ++ "x"
                          ++ Itoa size ++ ".jpg")%string 4)
               [350; 500; 750; 1000; 1500; 2000; 2500; 3000; 3500; 4000])
   ++ [Close])%list.
Proof.
  exact (proj1 (producer_emits (P := examplePackages)
                  (URL.mk "http" "speedtest.example.net" "/speedtest/upload.php" "")
                  "/speedtest" "upload.php" eq_refl eq_refl)).
Defined.

(** C7, as stated, fails for a server whose URL has the path "/": the
    expression has nothing to replace, and the producer sends the URL of the
    server itself 40 times. *)
Lemma producer_root_counterexample :
  url_Parse (Packages := examplePackages) "http://speedtest.example.net/" = inl rootURL /\
  producer (P := examplePackages) rootURL =
  (map Send (repeat "http://speedtest.example.net/" 40) ++ [Close])%list.
Proof. split; reflexivity. Qed.

(** ** The consumers of downloadSpeed *)

Section Pool.
Variable download : nat -> string -> Response.

Lemma sumR_app (l1 l2 : list R) : sumR (l1 ++ l2) = (sumR l1 + sumR l2)%R.
Proof.
unfold sumR. induction l1 as [ | x l1 IH]; cbn [app fold_right]; [lra | rewrite IH; lra].
Qed.

Lemma sumZ_app (l1 l2 : list Z) : sumZ (l1 ++ l2) = sumZ l1 + sumZ l2.
Proof.
unfold sumZ. induction l1 as [ | x l1 IH]; cbn [app fold_right]; [lia | rewrite IH; lia].
Qed.

(** Replacing consumer [i] changes what is held by what [i] holds. *)
Lemma held_set_nth (ws : list Worker) (i : nat) (w w' : Worker) :
nth_error ws i = Some w ->
(sumR (map bytesOf (held download (set_nth i w' ws))) + sumR (map bytesOf (heldBy download w))
 = sumR (map bytesOf (held download ws)) + sumR (map bytesOf (heldBy download w')))%R /\
sumZ (map durOf (held download (set_nth i w' ws))) + sumZ (map durOf (heldBy download w))
= sumZ (map durOf (held download ws)) + sumZ (map durOf (heldBy download w')).
Proof.
revert i. induction ws as [ | a ws IH]; intros [ | i] E; cbn in E; try discriminate.
- injection E as ->. unfold held. cbn [set_nth flat_map].
  rewrite !map_app, !sumR_app, !sumZ_app. split; [lra | lia].
- destruct (IH i E) as [HR HZ]. unfold held in *. cbn [set_nth flat_map].
  rewrite !map_app, !sumR_app, !sumZ_app. split; [lra | lia].
Qed.

Lemma set_nth_length {A} (i : nat) (x : A) (l : list A) :
List.length (set_nth i x l) = List.length l.
Proof.
revert i. induction l as [ | y l IH]; intros [ | i]; cbn; auto.
Qed.

Lemma existsb_set_nth (ws : list Worker) (i : nat) (w : Worker) :
isExited w = false ->
existsb isExited (set_nth i w ws) = true -> existsb isExited ws = true.
Proof.
intros Hw. revert i. induction ws as [ | a ws IH]; intros [ | i]; cbn; auto.
- rewrite Hw. cbn. intros ->. apply orb_true_r.
- intros H. apply orb_true_iff in H. destruct H as [-> | H]; [reflexivity | ].
  rewrite (IH i H). apply orb_true_r.
Qed.

(** A step of any consumer keeps the invariant. *)
Lemma workerStep_inv (n : nat) (seed : Duration) (responses : list Response)
  (st : Pool) (i : nat) :
poolInv download n seed responses st ->
poolInv download n seed responses (workerStep download st i).
Proof.
intros Hinv. pose proof Hinv as (HB & HD & Hint & Hex & Hlen). unfold workerStep.
destruct (nth_error (workers st) i) as [[ | k url | ] | ] eqn:Ei;
  try exact Hinv.
- destruct (ch st) as [ | url rest] eqn:Ech.
  + destruct (held_set_nth (workers st) i Receiving Exited Ei) as [HR HZ].
    cbn [heldBy map sumR sumZ fold_right] in HR, HZ.
    split; [ | split; [ | split; [ | split]]];
      cbn [totalBytes totalDur workers sent ch queued map sumR sumZ fold_right] in *.
    * lra.
    * rewrite <- HD. f_equal. lia.
    * exact Hint.
    * reflexivity.
    * rewrite set_nth_length. exact Hlen.
  + destruct (held_set_nth (workers st) i Receiving (Fetching (sent st) url) Ei)
      as [HR HZ].
    cbn [heldBy map sumR sumZ fold_right] in HR, HZ.
    split; [ | split; [ | split; [ | split]]];
      cbn [totalBytes totalDur workers sent ch queued map sumR sumZ fold_right] in *.
    * lra.
    * rewrite <- HD. f_equal. lia.
    * exact Hint.
    * intros H. apply existsb_set_nth in H; [ | reflexivity].
      specialize (Hex H). discriminate.
    * rewrite set_nth_length. exact Hlen.
- destruct (held_set_nth (workers st) i (Fetching k url) Receiving Ei) as [HR HZ].
  cbn [heldBy map sumR sumZ fold_right] in HR, HZ.
  assert (Eb : bytesOf (download k url)
               = IZR (Z.of_nat (List.length (fst (fst (fetchHttp (download k url)))))))
    by reflexivity.
  assert (Ed : durOf (download k url) = snd (fst (fetchHttp (download k url))))
    by reflexivity.
  destruct (fetchHttp (download k url)) as [[b d] e]. cbn [fst snd] in Eb, Ed.
  rewrite Eb, Ed in *.
  split; [ | split; [ | split; [ | split]]];
    cbn [totalBytes totalDur workers sent ch] in *.
  * lra.
  * rewrite <- HD. unfold add64.
    rewrite <- Z.add_assoc, wrap64_add_l. f_equal. lia.
  * apply wrap64_int64.
  * intros H. apply existsb_set_nth in H; [ | reflexivity]. exact (Hex H).
  * rewrite set_nth_length. exact Hlen.
Qed.

Lemma runPool_inv (n : nat) (seed : Duration) (responses : list Response)
  (schedule : list nat) (st : Pool) :
poolInv download n seed responses st ->
poolInv download n seed responses (runPool download schedule st).
Proof.
unfold runPool. revert st.
induction schedule as [ | i schedule IH]; intros st H; cbn [fold_left].
- exact H.
- apply IH, workerStep_inv, H.
Qed.

Lemma held_repeat_Receiving (n : nat) : held download (repeat Receiving n) = [].
Proof.
induction n as [ | n IH]; cbn; [reflexivity | exact IH].
Qed.

Lemma existsb_repeat_Receiving (n : nat) : existsb isExited (repeat Receiving n) = false.
Proof.
induction n as [ | n IH]; cbn; [reflexivity | exact IH].
Qed.

Lemma poolInv_initial (n : nat) (seed : Duration) (urls : list string) :
int64 seed ->
poolInv download n seed (queued download 0 urls)
        (mkPool urls 0 (repeat Receiving n) 0%R seed).
Proof.
intros Hseed. unfold poolInv; cbn [totalBytes totalDur workers sent ch].
rewrite held_repeat_Receiving, existsb_repeat_Receiving. cbn [map sumR sumZ fold_right].
repeat split.
- lra.
- f_equal. lia.
- apply Hseed.
- apply Hseed.
- discriminate.
- apply repeat_length.
Qed.

Lemma held_allExited (ws : list Worker) :
forallb isExited ws = true -> held download ws = [].
Proof.
induction ws as [ | w ws IH]; cbn; [reflexivity | ].
intros H. apply andb_true_iff in H. destruct H as [Hw Hws].
destruct w; try discriminate. cbn. auto.
Qed.

Lemma allExited_exists (ws : list Worker) :
ws <> [] -> forallb isExited ws = true -> existsb isExited ws = true.
Proof.
destruct ws as [ | w ws]; [congruence | ].
cbn. intros _ H. apply andb_true_iff in H. destruct H as [-> _]. reflexivity.
Qed.

(** Once every consumer has left, the totals are the seed plus everything
  that was fetched, whatever the number of consumers and the schedule. *)
Lemma pool_totals (n : nat) (seed : Duration) (urls : list string) (schedule : list nat) :
(1 <= n)%nat ->
int64 seed ->
let st := runPool download schedule (mkPool urls 0 (repeat Receiving n) 0%R seed) in
allExited st = true ->
totalBytes st = sumR (map bytesOf (queued download 0 urls)) /\
totalDur st = wrap64 (seed + sumZ (map durOf (queued download 0 urls))).
Proof.
intros Hn Hseed st Hall.
pose proof (runPool_inv n seed _ schedule _ (poolInv_initial n seed urls Hseed))
  as (HB & HD & Hint & Hex & Hlen).
fold st in HB, HD, Hint, Hex, Hlen.
unfold allExited in Hall.
rewrite (held_allExited _ Hall) in HB, HD.
assert (Hch : ch st = []).
{ apply Hex, allExited_exists; [ | exact Hall].
  intros E. rewrite E in Hlen. cbn in Hlen. lia. }
rewrite Hch in HB, HD. cbn [queued map sumR sumZ fold_right] in HB, HD.
split; [lra | ].
rewrite <- HD, !Z.add_0_r. symmetry. apply wrap64_id, Hint.
Qed.

End Pool.

(** *** A schedule that completes *)

Section PoolRuns.
Variable download : nat -> string -> Response.

Lemma runPool_app (s1 s2 : list nat) (st : Pool) :
runPool download (s1 ++ s2) st = runPool download s2 (runPool download s1 st).
Proof. apply fold_left_app. Qed.

Lemma workerStep_first_commit (c : list string) (s k : nat) (url : string)
  (ws : list Worker) (tb : R) (td : Duration) :
workerStep download (mkPool c s (Fetching k url :: ws) tb td) 0 =
mkPool c s (Receiving :: ws) (tb + bytesOf (download k url))%R
       (add64 td (durOf (download k url))).
Proof.
unfold workerStep, bytesOf, durOf. cbn [workers nth_error set_nth ch sent totalBytes totalDur].
destruct (fetchHttp (download k url)) as [[b d] e]. reflexivity.
Qed.

(** The first consumer alone empties the channel. *)
Lemma drain_queue (m : nat) (st : Pool) (ws : list Worker) :
List.length (ch st) = m ->
workers st = Receiving :: ws ->
ch (runPool download (repeat 0%nat (2 * m)) st) = [] /\
workers (runPool download (repeat 0%nat (2 * m)) st) = Receiving :: ws.
Proof.
revert st. induction m as [ | m IH]; intros st Hm Hw.
- cbn. split; [ | exact Hw]. destruct (ch st); [reflexivity | discriminate].
- replace (2 * S m)%nat with (S (S (2 * m))) by lia.
  cbn [repeat]. unfold runPool. cbn [fold_left]. fold (runPool download).
  destruct (ch st) as [ | url rest] eqn:Ech; [discriminate | ].
  cbn [List.length] in Hm.
  assert (E1 : workerStep download st 0 =
               mkPool rest (S (sent st)) (Fetching (sent st) url :: ws)
                      (totalBytes st) (totalDur st)).
  { unfold workerStep. rewrite Hw, Ech. reflexivity. }
  rewrite E1, workerStep_first_commit.
  apply IH; cbn [ch workers].
  + lia.
  + reflexivity.
Qed.

Lemma nth_error_next (k j : nat) :
nth_error (repeat Exited k ++ repeat Receiving (S j)) k = Some Receiving.
Proof. induction k; cbn; auto. Qed.

Lemma set_nth_next (k j : nat) :
set_nth k Exited (repeat Exited k ++ repeat Receiving (S j)) =
(repeat Exited (S k) ++ repeat Receiving j)%list.
Proof. induction k; cbn; [reflexivity | now f_equal]. Qed.

(** With the channel closed, the consumers leave one after the other. *)
Lemma exit_all (j k : nat) (st : Pool) :
ch st = [] ->
workers st = (repeat Exited k ++ repeat Receiving j)%list ->
allExited (runPool download (seq k j) st) = true.
Proof.
revert k st. induction j as [ | j IH]; intros k st Hch Hw.
- cbn. unfold allExited. rewrite Hw, app_nil_r.
  clear. induction k; cbn; auto.
- cbn [seq]. unfold runPool. cbn [fold_left]. fold (runPool download).
  apply IH.
  + unfold workerStep. rewrite Hw, nth_error_next, Hch. reflexivity.
  + unfold workerStep. rewrite Hw, nth_error_next, Hch. cbn [workers].
    apply set_nth_next.
Qed.

(** Every pool with a consumer has a schedule after which [wg.Wait()]
  returns. *)
Lemma drainSchedule_completes (n : nat) (urls : list string) (seed : Duration) :
(1 <= n)%nat ->
allExited (runPool download (drainSchedule n (List.length urls))
             (mkPool urls 0 (repeat Receiving n) 0%R seed)) = true.
Proof.
intros Hn. destruct n as [ | n]; [lia | ].
unfold drainSchedule. rewrite runPool_app.
destruct (drain_queue (List.length urls) (mkPool urls 0 (repeat Receiving (S n)) 0%R seed)
            (repeat Receiving n) eq_refl eq_refl) as [Hch Hw].
apply (exit_all (S n) 0); [exact Hch | exact Hw].
Qed.

End PoolRuns.

(** *** The rate *)

Section Rate.
Context {P : Packages}.

(** Whatever the number of consumers and the schedule, a call that returns
  gives the bytes of all downloads over the seed plus the time of all
  downloads, over 131072. *)
Lemma downloadSpeedWith_rate (n : nat) (server : Server.t) (u : URL.t) (seed : Duration)
  (download : nat -> string -> Response) (schedule : list nat) :
url_Parse (Server.Url server) = inl u ->
(1 <= n)%nat ->
int64 seed ->
allExited (runPool download schedule
             (mkPool (generate downloadSizes u) 0 (repeat Receiving n) 0%R seed)) = true ->
let responses := queued download 0 (generate downloadSizes u) in
downloadSpeedWith n server seed download schedule =
Returns (sumR (map bytesOf responses)
         / Seconds (wrap64 (seed + sumZ (map durOf responses)))
         / IZR bytesPerMegabit)%R.
Proof.
intros Hu Hn Hseed Hall responses. unfold downloadSpeedWith. rewrite Hu, Hall.
destruct (pool_totals download n seed (generate downloadSizes u) schedule Hn Hseed Hall)
  as [HB HD].
rewrite HB, HD. reflexivity.
Qed.

Lemma queued_steady (body : list Byte.byte) (d : Duration) (k : nat) (urls : list string) :
queued (steadyDownload body d) k urls = repeat (Served body d) (List.length urls).
Proof.
revert k. induction urls as [ | url urls IH]; intros k; cbn; [reflexivity | now rewrite IH].
Qed.

Lemma sumR_repeat (x : R) (m : nat) : sumR (repeat x m) = (INR m * x)%R.
Proof.
induction m as [ | m IH].
- cbn. lra.
- rewrite S_INR. cbn [repeat]. unfold sumR in *. cbn [fold_right]. rewrite IH. lra.
Qed.

Lemma sumZ_repeat (x : Z) (m : nat) : sumZ (repeat x m) = Z.of_nat m * x.
Proof.
induction m as [ | m IH].
- reflexivity.
- cbn [repeat]. unfold sumZ in *. cbn [fold_right]. rewrite IH. lia.
Qed.

(** A fetcher that serves [N] bytes after [d] to each of the 40 requests:
  the rate is 40 N bytes over the seed plus 40 d, over 131072, for every
  number of consumers and every schedule that completes. *)
Lemma downloadSpeedWith_steady (n : nat) (server : Server.t) (u : URL.t) (seed : Duration)
  (body : list Byte.byte) (d : Duration) (schedule : list nat) :
url_Parse (Server.Url server) = inl u ->
(1 <= n)%nat ->
int64 seed ->
allExited (runPool (steadyDownload body d) schedule
             (mkPool (generate downloadSizes u) 0 (repeat Receiving n) 0%R seed)) = true ->
downloadSpeedWith n server seed (steadyDownload body d) schedule =
Returns (40 * IZR (Z.of_nat (List.length body))
         / Seconds (wrap64 (seed + 40 * d))
         / IZR bytesPerMegabit)%R.
Proof.
intros Hu Hn Hseed Hall.
rewrite (downloadSpeedWith_rate n server u seed _ schedule Hu Hn Hseed Hall).
rewrite queued_steady, generate_length.
change (List.length downloadSizes * duplicateDownloads)%nat with 40%nat.
rewrite !map_repeat, sumR_repeat, sumZ_repeat.
unfold bytesOf, durOf. cbn [fetchHttp fst snd].
replace (INR 40) with 40%R by (rewrite INR_IZR_INZ; reflexivity).
reflexivity.
Qed.

End Rate.

Lemma Seconds_4000000050 : Seconds 4000000050 = (4 + 50 / 1000000000)%R.
Proof. reflexivity. Qed.

Lemma megabyte_length : Z.of_nat (List.length megabyte) = 1000000.
Proof.
  unfold megabyte. rewrite repeat_length. apply Z2Nat.id. lia.
Qed.

(** C4.  Every request is served a million bytes after 0.1 s, and
    [totalDur] starts from a reading of 50 ns: with six consumers
    [downloadSpeed] returns 40000000 bytes over 4.00000005 s, over 131072,
    which is not 40000000 bytes over 4 s, over 131072. *)
Theorem downloadSpeed_includes_seed :
  downloadSpeed (P := examplePackages) nearCandidate 50
                (steadyDownload megabyte 100000000) (drainSchedule 6 40)
  = Returns (40 * 1000000 / (4 + 50 / 1000000000) / 131072)%R /\
  (40 * 1000000 / (4 + 50 / 1000000000) / 131072
   <> 40 * 1000000 / (40 * (100000000 / 1000000000)) / 131072)%R.
Proof.
  split.
  - unfold downloadSpeed, concurrentDownloads.
    rewrite (downloadSpeedWith_steady (P := examplePackages) 6 nearCandidate
               (URL.mk "http" "near.example.net" "/speedtest/upload.php" "")).
    + rewrite megabyte_length.
      change (wrap64 (50 + 40 * 100000000)) with 4000000050.
      rewrite Seconds_4000000050. reflexivity.
    + reflexivity.
    + lia.
    + unfold int64. lia.
    + change 40%nat with (List.length
        (generate (P := examplePackages) downloadSizes
           (URL.mk "http" "near.example.net" "/speedtest/upload.php" ""))).
      apply drainSchedule_completes. lia.
  - intros E.
    assert (H : (40 * 1000000 / (4 + 50 / 1000000000)
                 = 40 * 1000000 / (40 * (100000000 / 1000000000)))%R) by lra.
    apply (f_equal (fun x => (x * (4 + 50 / 1000000000))%R)) in H.
    field_simplify in H. lra.
Qed.

(** ** A failed download *)

(** A consumer whose fetch fails adds no bytes and adds to [totalDur] the
    duration that [fetchHttp] returns with the error; it goes back to
    receive, and the channel is as it was: the URL is not sent again. *)
Lemma workerStep_failed (download : nat -> string -> Response) (st : Pool) (i k : nat)
    (url : string) (err : error) (since : Duration) :
  nth_error (workers st) i = Some (Fetching k url) ->
  fetchHttp (download k url) = ([], since, Some err) ->
  workerStep download st i =
  mkPool (ch st) (sent st) (set_nth i Receiving (workers st))
         (totalBytes st + 0)%R (add64 (totalDur st) since).
Proof.
  intros Ei Ef. unfold workerStep. rewrite Ei, Ef. reflexivity.
Qed.

(** C9.  A consumer holds the first URL and its fetch fails, with a reading
    of 40 ns in the branch of [fetchHttp] that returns the error: the byte
    count stays, the URL is not fetched again and the consumer goes on to
    receive, but the duration grows from 1000 ns to 1040 ns. *)
Theorem failed_download_adds_duration :
  let st := mkPool ["http://near.example.net/speedtest/random350x350.jpg"] 1
                   [Fetching 0 "http://near.example.net/speedtest/random350x350.jpg"]
                   0%R 1000 in
  let st' := workerStep refusedDownload st 0 in
  totalBytes st' = 0%R /\
  totalDur st' = 1040 /\
  totalDur st' <> totalDur st /\
  workers st' = [Receiving] /\
  ch st' = ch st /\
  sent st' = sent st.
Proof.
  cbv zeta.
  rewrite (workerStep_failed refusedDownload
             (mkPool ["http://near.example.net/speedtest/random350x350.jpg"] 1
                     [Fetching 0 "http://near.example.net/speedtest/random350x350.jpg"]
                     0%R 1000)
             0 0 "http://near.example.net/speedtest/random350x350.jpg"
             "dial tcp: connection refused" 40 eq_refl eq_refl).
  cbn [totalBytes totalDur workers ch sent set_nth].
  repeat split.
  - lra.
  - discriminate.
Qed.

(** ** getConfig and getClosestServers *)

(** The error of the fetch is examined, in [getConfig] and in
    [getClosestServers]: a fetch that fails is fatal and ends the run. *)
Lemma fetch_failure_is_fatal {P : Packages} (client : Client.t) (err : error)
    (since : Duration) :
  getConfig (GetFails err since) = Fatal err /\
  getConfig (ReadFails err since) = Fatal err /\
  getClosestServers client (GetFails err since) = Fatal err /\
  getClosestServers client (ReadFails err since) = Fatal err /\
  (forall r ls lp lo ds dl sch,
     main (World.mk false (GetFails err since) r ls lp lo ds dl sch) = Fatal err /\
     main (World.mk false (ReadFails err since) r ls lp lo ds dl sch) = Fatal err).
Proof.
  repeat split.
Qed.

(** The error of [xml.Unmarshal] is not: whatever it is, the record goes on
    as far as it was filled, and no body makes either function fatal. *)
Lemma decoding_error_is_dropped {P : Packages} (client : Client.t) (body : list Byte.byte)
    (t : Duration) :
  getConfig (Served body t) = Returns (fst (xml_Unmarshal_Config body Config.zero)) /\
  getClosestServers client (Served body t) =
  match Servers.ServerGroup (fst (xml_Unmarshal_Servers body Servers.zero)) with
  | [] => Panics
  | group :: _ => Returns (rankServers client group)
  end /\
  (forall msg, getConfig (Served body t) <> Fatal msg) /\
  (forall msg, getClosestServers client (Served body t) <> Fatal msg).
Proof.
  repeat split.
  - intros msg. discriminate.
  - intros msg. unfold getClosestServers. cbn [fetchHttp].
    destruct (Servers.ServerGroup _); discriminate.
Qed.

Lemma getClosestServers_served :
  getClosestServers (P := examplePackages) client0
    (Served (list_byte_of_string serversXml) 2000000)
  = Returns [ranked "B" 1%R].
Proof.
  change (Returns (rankServers client0 twins) = Returns [ranked "B" 1%R]).
  rewrite rankServers_twins. reflexivity.
Qed.

Lemma getBestServer_served :
  getBestServer (P := examplePackages) [ranked "B" 1%R] (fun _ => 0) steadyProbe [0%nat]
  = Returns (Server.with_Ping (ranked "B" 1%R) 20).
Proof. reflexivity. Qed.

Lemma downloadSpeed_served :
  exists mb,
    downloadSpeed (P := examplePackages) (Server.with_Ping (ranked "B" 1%R) 20) 50
                  (steadyDownload megabyte 100000000) (drainSchedule 6 40) = Returns mb.
Proof.
  eexists. unfold downloadSpeed, concurrentDownloads.
  apply (downloadSpeedWith_steady (P := examplePackages) 6 _
           (URL.mk "http" "speedtest.example.net" "/speedtest/upload.php" "")).
  - reflexivity.
  - lia.
  - unfold int64. lia.
  - change 40%nat with (List.length
      (generate (P := examplePackages) downloadSizes
         (URL.mk "http" "speedtest.example.net" "/speedtest/upload.php" ""))).
    apply drainSchedule_completes. lia.
Qed.

Lemma downloadSpeed_served_rate :
  downloadSpeed (P := examplePackages) (Server.with_Ping (ranked "B" 1%R) 20) 50
                (steadyDownload megabyte 100000000) (drainSchedule 6 40)
  = Returns (40 * 1000000 / (4 + 50 / 1000000000) / 131072)%R.
Proof.
  unfold downloadSpeed, concurrentDownloads.
  rewrite (downloadSpeedWith_steady (P := examplePackages) 6 _
             (URL.mk "http" "speedtest.example.net" "/speedtest/upload.php" "")).
  - rewrite megabyte_length.
    change (wrap64 (50 + 40 * 100000000)) with 4000000050.
    rewrite Seconds_4000000050. reflexivity.
  - reflexivity.
  - lia.
  - unfold int64. lia.
  - change 40%nat with (List.length
      (generate (P := examplePackages) downloadSizes
         (URL.mk "http" "speedtest.example.net" "/speedtest/upload.php" ""))).
    apply drainSchedule_completes. lia.
Qed.

(** C8.  A configuration and a server list that break off after the client
    and after the first group of servers: [xml.Unmarshal] returns an error
    for both, and the run is not aborted.  [getConfig] returns the record
    with the client decoded so far, [getClosestServers] ranks the servers
    decoded so far, and [main] goes on through the latency and download
    measurements and returns a rate, the rate of the run with the complete
    documents.  A body that decodes to nothing at all
    is not a fatal error either: the run ends in the panic of [Clients[0]]
    or of [ServerGroup[0]]. *)
Theorem undecoded_body_not_fatal :
  snd (xml_Unmarshal_Config (Packages := examplePackages)
         (list_byte_of_string truncatedConfigXml) Config.zero)
  = Some "XML syntax error on line 1: unexpected EOF" /\
  getConfig (P := examplePackages) (Served (list_byte_of_string truncatedConfigXml) 1000000)
  = Returns (Config.mk "" [client0]) /\
  snd (xml_Unmarshal_Servers (Packages := examplePackages)
         (list_byte_of_string truncatedServersXml) Servers.zero)
  = Some "XML syntax error on line 1: unexpected EOF" /\
  getClosestServers (P := examplePackages) client0
    (Served (list_byte_of_string truncatedServersXml) 2000000)
  = Returns [ranked "B" 1%R] /\
  main (P := examplePackages) truncatedWorld
  = Returns (40 * 1000000 / (4 + 50 / 1000000000) / 131072)%R /\
  snd (xml_Unmarshal_Config (Packages := examplePackages)
         (list_byte_of_string "this is not xml") Config.zero) = Some "EOF" /\
  (c <- getConfig (P := examplePackages)
          (Served (list_byte_of_string "this is not xml") 1000000) ;;
   getClient c) = Panics /\
  getClosestServers (P := examplePackages) client0
    (Served (list_byte_of_string "this is not xml") 2000000) = Panics.
Proof.
  assert (Hrank : getClosestServers (P := examplePackages) client0
                    (Served (list_byte_of_string truncatedServersXml) 2000000)
                  = Returns [ranked "B" 1%R]).
  { change (Returns (rankServers client0 twins) = Returns [ranked "B" 1%R]).
    rewrite rankServers_twins. reflexivity. }
  split; [reflexivity | split; [reflexivity | split; [reflexivity | split; [exact Hrank | ]]]].
  split; [ | split; [reflexivity | split; reflexivity]].
  unfold main, truncatedWorld.
  cbn [World.help World.configResponse World.serversResponse World.latencySeed
       World.latencyProbe World.lockOrder World.downloadSeed World.download World.schedule].
  change (getConfig (P := examplePackages)
            (Served (list_byte_of_string truncatedConfigXml) 1000000))
    with (Returns (Config.mk "" [client0])).
  cbn [bind getClient Config.Clients].
  rewrite Hrank. cbn [bind].
  rewrite getBestServer_served. cbn [bind].
  rewrite downloadSpeed_served_rate. reflexivity.
Qed.

(** * Further properties *)

(** ** distance *)

Section DistanceBounds.
#[local] Open Scope R_scope.

Lemma Atan2_quadrant (y x : R) : 0 <= y -> 0 <= x -> 0 <= Atan2 y x <= PI / 2.
Proof.
  intros Hy Hx. pose proof PI_RGT_0 as HPI. unfold Atan2.
  destruct (Rlt_dec 0 x) as [Hpos | Hnpos].
  - pose proof (atan_bound (y / x)) as Hb.
    assert (H0 : 0 <= y / x) by (apply Rle_mult_inv_pos; assumption).
    split; [ | lra].
    destruct H0 as [H0 | <-]; [ | rewrite atan_0; lra].
    pose proof (atan_increasing 0 (y / x) H0) as Hi. rewrite atan_0 in Hi. lra.
  - destruct (Rlt_dec x 0); [lra | ].
    destruct (Rlt_dec 0 y); [lra | ].
    destruct (Rlt_dec y 0); lra.
Qed.

(** X1.  The distance from a point to itself is zero. *)
Theorem distance_same_point (p : Point.t) : distance p p = 0.
Proof.
  unfold distance, earthsRadiusKm.
  replace ((Point.Lat p - Point.Lat p) * degToRad / 2) with 0 by (unfold degToRad; field).
  replace ((Point.Long p - Point.Long p) * degToRad / 2) with 0 by (unfold degToRad; field).
  rewrite sin_0.
  replace (0 * 0 + cos (Point.Lat p * degToRad) * cos (Point.Lat p * degToRad) * 0 * 0)
    with 0 by ring.
  rewrite sqrt_0, Rminus_0_r, sqrt_1.
  rewrite Atan2_pos by lra.
  replace (0 / 1) with 0 by field. rewrite atan_0. ring.
Qed.

Lemma distance_nonneg (origin destination : Point.t) :
  0 <= distance origin destination.
Proof.
  unfold distance, earthsRadiusKm.
  set (a := sin _ * sin _ + _).
  pose proof (Atan2_quadrant (sqrt a) (sqrt (1 - a)) (sqrt_pos a) (sqrt_pos (1 - a))) as H.
  nra.
Qed.

(** X2.  For two places on the globe whose number [a] is at most 0.99, the
    distance is not negative and is below 6371 * PI km, half the
    circumference of the sphere.  The margin below 1 is what keeps both
    square roots away from a negative number; the reals of the model need
    it for the strict bound alone, and do not need the bounds on the
    coordinates, which keep the rounding of [float64] within the margin. *)
Theorem distance_bounds (origin destination : Point.t) :
  geographic origin ->
  geographic destination ->
  haversineArg origin destination <= 99 / 100 ->
  0 <= distance origin destination < 6371 * PI.
Proof.
  intros _ _ Ha. split; [apply distance_nonneg | ].
  pose proof PI_RGT_0 as HPI.
  unfold haversineArg in Ha. unfold distance, earthsRadiusKm.
  set (a := sin _ * sin _ + _) in *.
  assert (Hx : 0 < sqrt (1 - a)) by (apply sqrt_lt_R0; lra).
  rewrite Atan2_pos by exact Hx.
  pose proof (atan_bound (sqrt a / sqrt (1 - a))) as Hb. lra.
Qed.

Lemma haversineArg_on_equator (lon : R) :
  haversineArg (Point.mk 0 0) (Point.mk 0 lon) <= 1.
Proof.
  unfold haversineArg, degToRad; cbn [Point.Lat Point.Long].
  replace ((0 - 0) * (PI / 180) / 2) with 0 by field.
  replace (0 * (PI / 180)) with 0 by field.
  rewrite sin_0, cos_0.
  set (x := (lon - 0) * (PI / 180) / 2).
  pose proof (sin2_cos2 x) as E. unfold Rsqr in E.
  pose proof (Rle_0_sqr (cos x)) as Hc. unfold Rsqr in Hc. lra.
Qed.

End DistanceBounds.

Section DistanceMargin.
#[local] Open Scope R_scope.

(** A quarter of the equator. *)
Lemma distance_bounds_witness :
  geographic (Point.mk 0 0) /\ geographic (Point.mk 0 90) /\
  haversineArg (Point.mk 0 0) (Point.mk 0 90) <= 99 / 100 /\
  0 <= distance (Point.mk 0 0) (Point.mk 0 90) < 6371 * PI.
Proof.
  assert (Hg0 : geographic (Point.mk 0 0)) by (unfold geographic; cbn; lra).
  assert (Hg1 : geographic (Point.mk 0 90)) by (unfold geographic; cbn; lra).
  assert (Ha : haversineArg (Point.mk 0 0) (Point.mk 0 90) <= 99 / 100).
  { unfold haversineArg, degToRad; cbn [Point.Lat Point.Long].
    replace ((0 - 0) * (PI / 180) / 2) with 0 by field.
    replace (0 * (PI / 180)) with 0 by field.
    replace ((90 - 0) * (PI / 180) / 2) with (PI / 4) by field.
    rewrite sin_0, cos_0. pose proof sin_sq_PI4. lra. }
  split; [exact Hg0 | split; [exact Hg1 | split; [exact Ha | ]]].
  exact (distance_bounds (Point.mk 0 0) (Point.mk 0 90) Hg0 Hg1 Ha).
Defined.

End DistanceMargin.

(** ** The ranking loop of getClosestServers *)

Section RankingInvariant.
#[local] Open Scope R_scope.

Lemma map_set_keys (m : DistMap) (k : R) (v : Server.t) (k' : R) :
  In k' (map fst (map_set m k v)) <-> k' = k \/ In k' (map fst m).
Proof.
  induction m as [ | [k0 v0] m IH]; cbn.
  - intuition.
  - destruct (Req_dec_T k0 k) as [-> | Hne]; cbn; intuition.
Qed.

Lemma map_set_entries (m : DistMap) (k : R) (v : Server.t) (k' : R) (v' : Server.t) :
  In (k', v') (map_set m k v) -> (k' = k /\ v' = v) \/ In (k', v') m.
Proof.
  induction m as [ | [k0 v0] m IH]; cbn.
  - intros [E | []]. injection E as <- <-. auto.
  - destruct (Req_dec_T k0 k) as [-> | Hne]; cbn.
    + intros [E | H]; [injection E as <- <-; auto | auto].
    + intros [E | H]; [auto | ]. destruct (IH H); auto.
Qed.

Lemma map_set_NoDup (m : DistMap) (k : R) (v : Server.t) :
  NoDup (map fst m) -> NoDup (map fst (map_set m k v)).
Proof.
  induction m as [ | [k0 v0] m IH]; cbn; intros H.
  - constructor; [intros [] | constructor].
  - inversion H as [ | ? ? Hn Hd]; subst.
    destruct (Req_dec_T k0 k) as [-> | Hne]; cbn.
    + constructor; assumption.
    + constructor; [ | auto].
      rewrite map_set_keys. intros [E | Hin]; [congruence | contradiction].
Qed.

Lemma map_set_length (m : DistMap) (k : R) (v : Server.t) :
  (In k (map fst m) -> List.length (map_set m k v) = List.length m) /\
  (~ In k (map fst m) -> List.length (map_set m k v) = S (List.length m)).
Proof.
  induction m as [ | [k0 v0] m [IH1 IH2]]; cbn.
  - split; [intros [] | reflexivity].
  - destruct (Req_dec_T k0 k) as [-> | Hne]; cbn.
    + split; [reflexivity | intros H; exfalso; apply H; auto].
    + split.
      * intros [E | H]; [congruence | now rewrite IH1].
      * intros H. rewrite IH2; [reflexivity | intuition].
Qed.

Lemma map_set_length_le (m : DistMap) (k : R) (v : Server.t) :
  (List.length (map_set m k v) <= S (List.length m))%nat.
Proof.
  induction m as [ | [k0 v0] m IH]; cbn; [lia | ].
  destruct (Req_dec_T k0 k); cbn; lia.
Qed.

Lemma map_delete_entries (m : DistMap) (k : R) (kv : R * Server.t) :
  In kv (map_delete m k) -> In kv m.
Proof.
  induction m as [ | [k0 v0] m IH]; cbn; [auto | ].
  destruct (Req_dec_T k0 k); cbn; intuition.
Qed.

Lemma map_delete_keys (m : DistMap) (k k' : R) :
  NoDup (map fst m) ->
  (In k' (map fst (map_delete m k)) <-> k' <> k /\ In k' (map fst m)).
Proof.
  induction m as [ | [k0 v0] m IH]; cbn; intros H.
  - intuition.
  - inversion H as [ | ? ? Hn Hd]; subst.
    destruct (Req_dec_T k0 k) as [-> | Hne]; cbn.
    + split.
      * intros Hin. split; [intros ->; contradiction | auto].
      * intros [Hk [E | Hin]]; [congruence | assumption].
    + rewrite (IH Hd). split.
      * intros [<- | [Hk Hin]]; auto.
      * intros [Hk [E | Hin]]; auto.
Qed.

Lemma map_delete_NoDup (m : DistMap) (k : R) :
  NoDup (map fst m) -> NoDup (map fst (map_delete m k)).
Proof.
  induction m as [ | [k0 v0] m IH]; cbn; intros H; [constructor | ].
  inversion H as [ | ? ? Hn Hd]; subst.
  destruct (Req_dec_T k0 k) as [-> | Hne]; cbn; [assumption | ].
  constructor; [ | auto].
  rewrite (map_delete_keys m k k0 Hd). intuition.
Qed.

Lemma map_delete_length (m : DistMap) (k : R) :
  (In k (map fst m) -> S (List.length (map_delete m k)) = List.length m) /\
  (List.length (map_delete m k) <= List.length m)%nat.
Proof.
  induction m as [ | [k0 v0] m [IH1 IH2]]; cbn.
  - split; [intros [] | lia].
  - destruct (Req_dec_T k0 k) as [-> | Hne]; cbn.
    + split; [reflexivity | lia].
    + split; [ | lia].
      intros [E | H]; [congruence | now rewrite IH1].
Qed.

(** [highestDistance] ends at least where it started and at least at every
    key, and it ends where it started or at a key. *)
Lemma highestFrom_spec (h : R) (m : DistMap) :
  h <= highestFrom h m /\
  (forall k, In k (map fst m) -> k <= highestFrom h m) /\
  (highestFrom h m = h \/ In (highestFrom h m) (map fst m)).
Proof.
  unfold highestFrom. revert h.
  induction m as [ | [k0 v0] m IH]; intros h; cbn [fold_left map fst].
  - split; [lra | split; [intros k [] | auto]].
  - destruct (Rlt_dec h k0) as [Hlt | Hge].
    + destruct (IH k0) as (H1 & H2 & H3).
      split; [lra | split].
      * intros k [<- | Hin]; [lra | auto].
      * destruct H3 as [-> | Hin]; right; cbn; auto.
    + destruct (IH h) as (H1 & H2 & H3).
      split; [lra | split].
      * intros k [<- | Hin]; [lra | auto].
      * destruct H3 as [E | Hin]; [left; exact E | right; cbn; auto].
Qed.

Lemma rankStep_eq (client : Client.t) (m : DistMap) (s : Server.t) :
  rankStep client m s =
  if (List.length m <? 5)%nat then
    map_set m (distanceTo client s) (Server.with_Distance s (distanceTo client s))
  else if Rlt_dec (distanceTo client s) (highest m) then
    map_set (map_delete m (highest m)) (distanceTo client s)
            (Server.with_Distance s (distanceTo client s))
  else m.
Proof. reflexivity. Qed.

Lemma distanceTo_nonneg (client : Client.t) (s : Server.t) : 0 <= distanceTo client s.
Proof. apply distance_nonneg. Qed.

Lemma rankInv_step (client : Client.t) (seen : list Server.t) (m : DistMap) (s : Server.t) :
  rankInv client seen m -> rankInv client (seen ++ [s]) (rankStep client m s).
Proof.
  intros (Hnd & Hlen & Hent & Hmin). rewrite rankStep_eq.
  set (d := distanceTo client s).
  assert (Hnew : forall k v, k = d /\ v = Server.with_Distance s d ->
            exists s0, In s0 (seen ++ [s]) /\ k = distanceTo client s0 /\
                       v = Server.with_Distance s0 (distanceTo client s0)).
  { intros k v [-> ->]. exists s. split; [apply in_or_app; right; left | ]; auto. }
  assert (Hold : forall k v, In (k, v) m ->
            exists s0, In s0 (seen ++ [s]) /\ k = distanceTo client s0 /\
                       v = Server.with_Distance s0 (distanceTo client s0)).
  { intros k v Hin. destruct (Hent k v Hin) as (s0 & H0 & H1).
    exists s0. split; [apply in_or_app; left | ]; auto. }
  destruct (Nat.ltb_spec (List.length m) 5) as [Hlt | Hge].
  - split; [apply map_set_NoDup, Hnd | split; [ | split]].
    + pose proof (map_set_length_le m d (Server.with_Distance s d)). lia.
    + intros k v Hin. apply map_set_entries in Hin. destruct Hin; auto.
    + intros s0 Hin. apply in_app_or in Hin. destruct Hin as [Hin | [<- | []]].
      * destruct (Hmin s0 Hin) as (k & Hk & Hle). exists k.
        split; [apply map_set_keys; auto | exact Hle].
      * exists d. split; [apply map_set_keys; auto | unfold d; lra].
  - destruct (Rlt_dec d (highest m)) as [Hd | Hd].
    + assert (Hh : In (highest m) (map fst m)).
      { destruct (highestFrom_spec 0 m) as (_ & _ & [E | Hin]); [ | exact Hin].
        pose proof (distanceTo_nonneg client s). unfold highest in Hd. fold d in H. lra. }
      pose proof (proj1 (map_delete_length m (highest m)) Hh) as Hdl.
      split; [apply map_set_NoDup, map_delete_NoDup, Hnd | split; [ | split]].
      * pose proof (map_set_length_le (map_delete m (highest m)) d
                      (Server.with_Distance s d)). lia.
      * intros k v Hin. apply map_set_entries in Hin.
        destruct Hin as [Hin | Hin]; [auto | ].
        apply map_delete_entries in Hin. auto.
      * intros s0 Hin. apply in_app_or in Hin. destruct Hin as [Hin | [<- | []]].
        -- destruct (Hmin s0 Hin) as (k & Hk & Hle).
           destruct (Req_dec_T k (highest m)) as [E | Hne].
           ++ exists d. split; [apply map_set_keys; auto | lra].
           ++ exists k. split; [ | exact Hle].
              apply map_set_keys. right. apply map_delete_keys; auto.
        -- exists d. split; [apply map_set_keys; auto | unfold d; lra].
    + split; [exact Hnd | split; [exact Hlen | split; [exact Hold | ]]].
      intros s0 Hin. apply in_app_or in Hin. destruct Hin as [Hin | [<- | []]].
      * auto.
      * destruct m as [ | [k0 v0] m']; [cbn in Hge; lia | ].
        exists k0. split; [left; reflexivity | ].
        destruct (highestFrom_spec 0 ((k0, v0) :: m')) as (_ & Hall & _).
        specialize (Hall k0 (or_introl eq_refl)). unfold highest in Hd. fold d. lra.
Qed.

Lemma rankInv_fold (client : Client.t) (servers seen : list Server.t) (m : DistMap) :
  rankInv client seen m ->
  rankInv client (seen ++ servers) (fold_left (rankStep client) servers m).
Proof.
  revert seen m. induction servers as [ | s servers IH]; intros seen m H; cbn [fold_left].
  - rewrite app_nil_r. exact H.
  - replace (seen ++ s :: servers)%list with ((seen ++ [s]) ++ servers)%list
      by (rewrite <- app_assoc; reflexivity).
    apply IH, rankInv_step, H.
Qed.

Lemma rankInv_final (client : Client.t) (servers : list Server.t) :
  rankInv client servers (fold_left (rankStep client) servers []).
Proof.
  apply (rankInv_fold client servers [] []).
  split; [constructor | split; [cbn; lia | split]].
  - intros k v [].
  - intros s [].
Qed.

Lemma keys_are_distances (client : Client.t) (seen : list Server.t) (m : DistMap) :
  rankInv client seen m -> map Server.Distance (map snd m) = map fst m.
Proof.
  intros (_ & _ & Hent & _). induction m as [ | [k v] m IH]; cbn; [reflexivity | ].
  rewrite IH by (intros k' v' Hin; apply Hent; right; exact Hin).
  destruct (Hent k v (or_introl eq_refl)) as (s & _ & -> & ->). reflexivity.
Qed.

(** X3.  Whatever the candidates, at most five servers are returned. *)
Theorem rankServers_at_most_five (client : Client.t) (servers : list Server.t) :
  (List.length (rankServers client servers) <= 5)%nat.
Proof.
  unfold rankServers. rewrite length_map.
  apply (rankInv_final client servers).
Qed.

(** X4.  Where the distances of the candidates are numbers, no two of the
    servers returned have the same distance. *)
Theorem rankServers_distances_differ (client : Client.t) (servers : list Server.t) :
  Forall (measurable client) servers ->
  NoDup (map Server.Distance (rankServers client servers)).
Proof.
  intros _. unfold rankServers.
  rewrite (keys_are_distances client servers _ (rankInv_final client servers)).
  apply (rankInv_final client servers).
Qed.

(** X5.  Every server returned is one of the candidates, with [Distance] set
    to its distance from the client and nothing else changed. *)
Theorem rankServers_are_candidates (client : Client.t) (servers : list Server.t)
    (r : Server.t) :
  In r (rankServers client servers) ->
  exists s, In s servers /\
            r = Server.with_Distance s
                  (distance (Point.mk (Client.Lat client) (Client.Long client))
                            (Point.mk (Server.Lat s) (Server.Long s))).
Proof.
  unfold rankServers. intros Hin. apply in_map_iff in Hin.
  destruct Hin as ([k v] & <- & Hin).
  destruct (rankInv_final client servers) as (_ & _ & Hent & _).
  destruct (Hent k v Hin) as (s & Hs & _ & ->). exists s. auto.
Qed.

End RankingInvariant.

Section RankingWitnesses.
#[local] Open Scope R_scope.

Lemma rankServers_are_candidates_witness :
  exists s, In s twins /\
            ranked "B" 1 =
            Server.with_Distance s
              (distance (Point.mk (Client.Lat client0) (Client.Long client0))
                        (Point.mk (Server.Lat s) (Server.Long s))).
Proof.
  apply (rankServers_are_candidates client0 twins (ranked "B" 1)).
  rewrite rankServers_twins. left. reflexivity.
Defined.

Lemma measurable_onEquator (name : string) (lon : R) :
  measurable client0 (onEquator name lon).
Proof. apply haversineArg_on_equator. Qed.

Lemma rankServers_distances_differ_witness :
  NoDup (map Server.Distance (rankServers client0 crowd)).
Proof.
  apply rankServers_distances_differ.
  repeat (apply Forall_cons; [apply measurable_onEquator | ]). apply Forall_nil.
Defined.

End RankingWitnesses.

(** ** The ranking loop over any keys *)

Section KeyedRankingInvariant.
Variable K : Type.
Variable kzero : K.
Variable klt : K -> K -> bool.
Variable keq : K -> K -> bool.
Variable dist : Server.t -> K.
Variable assign : Server.t -> K -> Server.t.
(** The comparisons obey their laws: what [float64] gives when no key is
    NaN. *)
Hypothesis laws : KeyLaws klt keq.

Lemma keq_cases (a b : K) : (a = b /\ keq a b = true) \/ (a <> b /\ keq a b = false).
Proof.
  destruct (keq a b) eqn:E.
  - left. split; [apply (keq_eq _ _ _ laws), E | reflexivity].
  - right. split; [ | reflexivity].
    intros H. apply (keq_eq _ _ _ laws) in H. congruence.
Qed.

Lemma klt_asym (a b : K) : klt a b = true -> klt b a = false.
Proof.
  intros H. destruct (klt b a) eqn:E; [ | reflexivity].
  pose proof (klt_trans _ _ _ laws a b a H E) as H0.
  rewrite (klt_irrefl _ _ _ laws) in H0. discriminate.
Qed.

(** [a <= b] and [b <= c] give [a <= c]. *)
Lemma kle_trans (a b c : K) : klt b a = false -> klt c b = false -> klt c a = false.
Proof.
  intros H1 H2. destruct (klt c a) eqn:E; [ | reflexivity].
  destruct (klt_total _ _ _ laws a b) as [H | [-> | H]]; try congruence.
  pose proof (klt_trans _ _ _ laws c a b E H). congruence.
Qed.

(** [a < b] and [b <= c] give [a < c]. *)
Lemma klt_le_trans (a b c : K) : klt a b = true -> klt c b = false -> klt a c = true.
Proof.
  intros H1 H2.
  destruct (klt_total _ _ _ laws a c) as [H | [-> | H]]; try congruence.
  pose proof (klt_trans _ _ _ laws c a b H H1). congruence.
Qed.

(** [a <= b] and [a <> b] give [a < b]. *)
Lemma kle_neq (a b : K) : klt b a = false -> a <> b -> klt a b = true.
Proof.
  intros H1 H2.
  destruct (klt_total _ _ _ laws a b) as [H | [-> | H]]; congruence.
Qed.

Lemma kmap_set_keys (m : KMap K) (k : K) (v : Server.t) (k' : K) :
  In k' (map fst (kmap_set keq m k v)) <-> k' = k \/ In k' (map fst m).
Proof.
  induction m as [ | [k0 v0] m IH]; cbn.
  - intuition.
  - destruct (keq_cases k0 k) as [[-> E] | [Hne E]]; rewrite E; cbn; intuition.
Qed.

Lemma kmap_set_entries (m : KMap K) (k : K) (v : Server.t) (k' : K) (v' : Server.t) :
  In (k', v') (kmap_set keq m k v) -> (k' = k /\ v' = v) \/ In (k', v') m.
Proof.
  induction m as [ | [k0 v0] m IH]; cbn.
  - intros [E | []]. injection E as <- <-. auto.
  - destruct (keq_cases k0 k) as [[-> E] | [Hne E]]; rewrite E; cbn.
    + intros [E' | H]; [injection E' as <- <-; auto | auto].
    + intros [E' | H]; [auto | ]. destruct (IH H); auto.
Qed.

Lemma kmap_set_new (m : KMap K) (k : K) (v : Server.t) :
  In (k, v) (kmap_set keq m k v).
Proof.
  induction m as [ | [k0 v0] m IH]; cbn; [auto | ].
  destruct (keq_cases k0 k) as [[-> E] | [Hne E]]; rewrite E; cbn; auto.
Qed.

Lemma kmap_set_NoDup (m : KMap K) (k : K) (v : Server.t) :
  NoDup (map fst m) -> NoDup (map fst (kmap_set keq m k v)).
Proof.
  induction m as [ | [k0 v0] m IH]; cbn; intros H.
  - constructor; [intros [] | constructor].
  - inversion H as [ | ? ? Hn Hd]; subst.
    destruct (keq_cases k0 k) as [[-> E] | [Hne E]]; rewrite E; cbn.
    + constructor; assumption.
    + constructor; [ | auto].
      rewrite kmap_set_keys. intros [E' | Hin]; [congruence | contradiction].
Qed.

Lemma kmap_set_length (m : KMap K) (k : K) (v : Server.t) :
  (In k (map fst m) -> List.length (kmap_set keq m k v) = List.length m) /\
  (~ In k (map fst m) -> List.length (kmap_set keq m k v) = S (List.length m)).
Proof.
  induction m as [ | [k0 v0] m [IH1 IH2]]; cbn.
  - split; [intros [] | reflexivity].
  - destruct (keq_cases k0 k) as [[-> E] | [Hne E]]; rewrite E; cbn.
    + split; [reflexivity | intros H; exfalso; apply H; auto].
    + split.
      * intros [E' | H]; [congruence | now rewrite IH1].
      * intros H. rewrite IH2; [reflexivity | intuition].
Qed.

Lemma kmap_set_length_le (m : KMap K) (k : K) (v : Server.t) :
  (List.length (kmap_set keq m k v) <= S (List.length m))%nat.
Proof.
  induction m as [ | [k0 v0] m IH]; cbn; [lia | ].
  destruct (keq k0 k); cbn; lia.
Qed.

Lemma kmap_delete_entries (m : KMap K) (k : K) (kv : K * Server.t) :
  In kv (kmap_delete keq m k) -> In kv m.
Proof.
  induction m as [ | [k0 v0] m IH]; cbn; [auto | ].
  destruct (keq k0 k); cbn; intuition.
Qed.

Lemma kmap_delete_kept (m : KMap K) (k k' : K) (v' : Server.t) :
  In (k', v') m -> k' <> k -> In (k', v') (kmap_delete keq m k).
Proof.
  induction m as [ | [k0 v0] m IH]; cbn; [auto | ].
  destruct (keq_cases k0 k) as [[-> E] | [Hne E]]; rewrite E; cbn.
  - intros [E' | H] Hk; [congruence | exact H].
  - intros [E' | H] Hk; auto.
Qed.

Lemma kmap_delete_keys (m : KMap K) (k k' : K) :
  NoDup (map fst m) ->
  (In k' (map fst (kmap_delete keq m k)) <-> k' <> k /\ In k' (map fst m)).
Proof.
  induction m as [ | [k0 v0] m IH]; cbn; intros H.
  - intuition.
  - inversion H as [ | ? ? Hn Hd]; subst.
    destruct (keq_cases k0 k) as [[-> E] | [Hne E]]; rewrite E; cbn.
    + split.
      * intros Hin. split; [intros ->; contradiction | auto].
      * intros [Hk [E' | Hin]]; [congruence | assumption].
    + rewrite (IH Hd). split.
      * intros [<- | [Hk Hin]]; auto.
      * intros [Hk [E' | Hin]]; auto.
Qed.

Lemma kmap_delete_NoDup (m : KMap K) (k : K) :
  NoDup (map fst m) -> NoDup (map fst (kmap_delete keq m k)).
Proof.
  induction m as [ | [k0 v0] m IH]; cbn; intros H; [constructor | ].
  inversion H as [ | ? ? Hn Hd]; subst.
  destruct (keq_cases k0 k) as [[-> E] | [Hne E]]; rewrite E; cbn; [assumption | ].
  constructor; [ | auto].
  rewrite (kmap_delete_keys m k k0 Hd). intuition.
Qed.

Lemma kmap_delete_length (m : KMap K) (k : K) :
  (In k (map fst m) -> S (List.length (kmap_delete keq m k)) = List.length m) /\
  (List.length (kmap_delete keq m k) <= List.length m)%nat.
Proof.
  induction m as [ | [k0 v0] m [IH1 IH2]]; cbn.
  - split; [intros [] | lia].
  - destruct (keq_cases k0 k) as [[-> E] | [Hne E]]; rewrite E; cbn.
    + split; [reflexivity | lia].
    + split; [ | lia].
      intros [E' | H]; [congruence | now rewrite IH1].
Qed.

(** [highestDistance] ends not below where it started and not below any
    key, and it ends where it started or at a key. *)
Lemma khighestFrom_spec (h : K) (m : KMap K) :
  klt (khighestFrom klt h m) h = false /\
  (forall k, In k (map fst m) -> klt (khighestFrom klt h m) k = false) /\
  (khighestFrom klt h m = h \/ In (khighestFrom klt h m) (map fst m)).
Proof.
  unfold khighestFrom. revert h.
  induction m as [ | [k0 v0] m IH]; intros h; cbn [fold_left map fst].
  - split; [apply (klt_irrefl _ _ _ laws) | split; [intros k [] | auto]].
  - destruct (klt h k0) eqn:Hlt.
    + destruct (IH k0) as (H1 & H2 & H3).
      split; [ | split].
      * apply (kle_trans h k0 _); [apply klt_asym, Hlt | exact H1].
      * intros k [<- | Hin]; [exact H1 | auto].
      * destruct H3 as [-> | Hin]; right; cbn; auto.
    + destruct (IH h) as (H1 & H2 & H3).
      split; [exact H1 | split].
      * intros k [<- | Hin]; [ | auto].
        apply (kle_trans k0 h _); assumption.
      * destruct H3 as [E | Hin]; [left; exact E | right; cbn; auto].
Qed.

(** In a map that is full and whose keys are not below zero,
    [highestDistance] ends at a key. *)
Lemma khighestFrom_key (m : KMap K) :
  m <> [] ->
  (forall k, In k (map fst m) -> klt k kzero = false) ->
  In (khighestFrom klt kzero m) (map fst m).
Proof.
  intros Hne Hpos.
  destruct (khighestFrom_spec kzero m) as (H1 & H2 & [E | Hin]); [ | exact Hin].
  destruct m as [ | [k0 v0] m']; [congruence | ].
  assert (Hk : In k0 (map fst ((k0, v0) :: m'))) by (left; reflexivity).
  pose proof (H2 k0 Hk) as Ha. rewrite E in Ha.
  pose proof (Hpos k0 Hk) as Hb.
  destruct (klt_total _ _ _ laws k0 kzero) as [H | [H | H]]; [congruence | | congruence].
  rewrite E, <- H. exact Hk.
Qed.

Lemma keyedInv_step (seen : list Server.t) (m : KMap K) (s : Server.t) :
  (forall c, In c seen -> klt (dist c) kzero = false) ->
  keyedInv klt dist assign seen m ->
  keyedInv klt dist assign (seen ++ [s]) (rankStepWith kzero klt keq dist assign m s).
Proof.
  intros Hpos (Hnd & Hlen & Hent & Hmin). unfold rankStepWith. cbv zeta.
  set (d := dist s).
  assert (Hnew : forall k v, k = d /\ v = assign s d ->
            exists s0, In s0 (seen ++ [s]) /\ k = dist s0 /\ v = assign s0 (dist s0)).
  { intros k v [-> ->]. exists s. split; [apply in_or_app; right; left | ]; auto. }
  assert (Hold : forall k v, In (k, v) m ->
            exists s0, In s0 (seen ++ [s]) /\ k = dist s0 /\ v = assign s0 (dist s0)).
  { intros k v Hin. destruct (Hent k v Hin) as (s0 & H0 & H1).
    exists s0. split; [apply in_or_app; left | ]; auto. }
  destruct (Nat.ltb_spec (List.length m) 5) as [Hlt | Hge].
  - split; [apply kmap_set_NoDup, Hnd | split; [ | split]].
    + pose proof (kmap_set_length_le m d (assign s d)). lia.
    + intros k v Hin. apply kmap_set_entries in Hin. destruct Hin; auto.
    + intros s0 Hin. apply in_app_or in Hin. destruct Hin as [Hin | [<- | []]].
      * destruct (Hmin s0 Hin) as (k & Hk & Hle). exists k.
        split; [apply kmap_set_keys; auto | exact Hle].
      * exists d. split; [apply kmap_set_keys; auto | apply (klt_irrefl _ _ _ laws)].
  - set (h := khighestFrom klt kzero m).
    assert (Hh : In h (map fst m)).
    { apply khighestFrom_key.
      - intros E. rewrite E in Hge. cbn in Hge. lia.
      - intros k Hk. apply in_map_iff in Hk. destruct Hk as ([k' v] & E & Hin).
        cbn in E. subst k'. destruct (Hent k v Hin) as (s0 & Hs0 & -> & _). auto. }
    destruct (khighestFrom_spec kzero m) as (_ & Hall & _). fold h in Hall.
    destruct (klt d h) eqn:Hd.
    + pose proof (proj1 (kmap_delete_length m h) Hh) as Hdl.
      split; [apply kmap_set_NoDup, kmap_delete_NoDup, Hnd | split; [ | split]].
      * pose proof (kmap_set_length_le (kmap_delete keq m h) d (assign s d)). lia.
      * intros k v Hin. apply kmap_set_entries in Hin.
        destruct Hin as [Hin | Hin]; [auto | ].
        apply kmap_delete_entries in Hin. auto.
      * intros s0 Hin. apply in_app_or in Hin. destruct Hin as [Hin | [<- | []]].
        -- destruct (Hmin s0 Hin) as (k & Hk & Hle).
           destruct (keq_cases k h) as [[E _] | [Hne _]].
           ++ exists d. split; [apply kmap_set_keys; auto | ].
              subst k. apply klt_asym. apply (klt_le_trans d h _); assumption.
           ++ exists k. split; [ | exact Hle].
              apply kmap_set_keys. right. apply kmap_delete_keys; auto.
        -- exists d. split; [apply kmap_set_keys; auto | apply (klt_irrefl _ _ _ laws)].
    + split; [exact Hnd | split; [exact Hlen | split; [exact Hold | ]]].
      intros s0 Hin. apply in_app_or in Hin. destruct Hin as [Hin | [<- | []]].
      * auto.
      * exists h. split; [exact Hh | ].
        destruct (klt d h) eqn:E; [discriminate | ].
        destruct (klt_total _ _ _ laws d h) as [H | [H | H]]; try congruence.
        -- fold d. rewrite H. apply (klt_irrefl _ _ _ laws).
        -- fold d. apply klt_asym, H.
Qed.

Lemma keyedInv_fold (servers seen : list Server.t) (m : KMap K) :
  (forall c, In c (seen ++ servers) -> klt (dist c) kzero = false) ->
  keyedInv klt dist assign seen m ->
  keyedInv klt dist assign (seen ++ servers)
           (fold_left (rankStepWith kzero klt keq dist assign) servers m).
Proof.
  revert seen m. induction servers as [ | s servers IH]; intros seen m Hpos H;
    cbn [fold_left].
  - rewrite app_nil_r. exact H.
  - replace (seen ++ s :: servers)%list with ((seen ++ [s]) ++ servers)%list in *
      by (rewrite <- app_assoc; reflexivity).
    apply IH; [exact Hpos | ].
    apply keyedInv_step; [ | exact H].
    intros c Hc. apply Hpos. apply in_or_app. left. apply in_or_app. left. exact Hc.
Qed.

Lemma keyedInv_nil : keyedInv klt dist assign [] [].
Proof.
  split; [constructor | split; [cbn; lia | split]].
  - intros k v [].
  - intros s [].
Qed.

Lemma keyedInv_final (servers : list Server.t) :
  (forall c, In c servers -> klt (dist c) kzero = false) ->
  keyedInv klt dist assign servers (rankWith kzero klt keq dist assign servers).
Proof.
  intros Hpos. apply (keyedInv_fold servers [] []); [exact Hpos | apply keyedInv_nil].
Qed.

(** X6.  Under the laws of the comparisons (the hypothesis [laws] of this
    section: [==] is identity on the keys and [<] orders them totally) and
    with every candidate's distance not below zero, that is whenever no
    distance is NaN: for every candidate the map ends with an entry of a
    candidate that is not farther.  A closest candidate, or one at the same
    distance, is always among the servers returned. *)
Theorem rankWith_keeps_a_closest (servers : list Server.t) (s : Server.t) :
  (forall c, In c servers -> klt (dist c) kzero = false) ->
  In s servers ->
  exists c, In c servers /\
            In (dist c, assign c (dist c)) (rankWith kzero klt keq dist assign servers) /\
            klt (dist s) (dist c) = false.
Proof.
  intros Hpos Hs.
  destruct (keyedInv_final servers Hpos)
    as (_ & _ & Hent & Hmin).
  destruct (Hmin s Hs) as (k & Hin & Hle).
  apply in_map_iff in Hin. destruct Hin as ([k' v] & E & Hin). cbn in E. subst k'.
  destruct (Hent k v Hin) as (c & Hc & -> & ->).
  exists c. auto.
Qed.

Lemma keyed_keys_seen (seen : list Server.t) (m : KMap K) (k : K) :
  keyedInv klt dist assign seen m -> In k (map fst m) -> In k (map dist seen).
Proof.
  intros (_ & _ & Hent & _) Hin. apply in_map_iff in Hin.
  destruct Hin as ([k' v] & E & Hin). cbn in E. subst k'.
  destruct (Hent k v Hin) as (s & Hs & -> & _). apply in_map. exact Hs.
Qed.

Lemma keyedTop_step (seen : list Server.t) (m : KMap K) (s : Server.t) :
  (forall c, In c seen -> klt (dist c) kzero = false) ->
  keyedInv klt dist assign seen m ->
  keyedTop klt dist seen m ->
  ~ In (dist s) (map dist seen) ->
  keyedTop klt dist (seen ++ [s]) (rankStepWith kzero klt keq dist assign m s).
Proof.
  intros Hpos Hinv (Hlen & Htop) Hfresh.
  assert (Hd : ~ In (dist s) (map fst m)).
  { intros Hin. apply Hfresh. eapply keyed_keys_seen; eassumption. }
  destruct Hinv as (Hnd & _ & Hent & _).
  unfold keyedTop, rankStepWith. cbv zeta. set (d := dist s) in *.
  rewrite length_app. cbn [List.length].
  destruct (Nat.ltb_spec (List.length m) 5) as [Hlt | Hge].
  - split.
    + rewrite (proj2 (kmap_set_length m d (assign s d)) Hd). lia.
    + intros s0 Hin. left. apply kmap_set_keys.
      apply in_app_or in Hin. destruct Hin as [Hin | [<- | []]]; [ | auto].
      destruct (Htop s0 Hin) as [Hk | [H5 _]]; [auto | lia].
  - set (h := khighestFrom klt kzero m).
    assert (Hh : In h (map fst m)).
    { apply khighestFrom_key.
      - intros E. rewrite E in Hge. cbn in Hge. lia.
      - intros k Hk. apply in_map_iff in Hk. destruct Hk as ([k' v] & E & Hin).
        cbn in E. subst k'. destruct (Hent k v Hin) as (s0 & Hs0 & -> & _). auto. }
    destruct (khighestFrom_spec kzero m) as (_ & Hall & _). fold h in Hall.
    destruct (klt d h) eqn:Hlow.
    + pose proof (proj1 (kmap_delete_length m h) Hh) as Hdl.
      assert (Hd' : ~ In d (map fst (kmap_delete keq m h))).
      { rewrite (kmap_delete_keys m h d Hnd). intuition. }
      pose proof (proj2 (kmap_set_length (kmap_delete keq m h) d
                           (assign s d)) Hd') as Hsl.
      assert (Hkeys : forall k, In k (map fst (kmap_set keq (kmap_delete keq m h) d
                                                 (assign s d))) ->
                                k = d \/ (In k (map fst m) /\ klt k h = true)).
      { intros k Hk. apply kmap_set_keys in Hk.
        destruct Hk as [-> | Hk]; [auto | right].
        apply (kmap_delete_keys m h k Hnd) in Hk. destruct Hk as [Hne Hk].
        split; [exact Hk | ].
        apply kle_neq; [apply Hall, Hk | exact Hne]. }
      split; [lia | ].
      intros s0 Hin. apply in_app_or in Hin. destruct Hin as [Hin | [<- | []]].
      * destruct (Htop s0 Hin) as [Hk | [H5 Hfar]].
        -- destruct (keq_cases (dist s0) h) as [[E _] | [Hne _]].
           ++ right. split; [lia | ].
              intros k Hk'. rewrite E.
              destruct (Hkeys k Hk') as [-> | [_ Hlt]]; assumption.
           ++ left. apply kmap_set_keys. right.
              apply (kmap_delete_keys m h _ Hnd). auto.
        -- right. split; [lia | ].
           intros k Hk'. destruct (Hkeys k Hk') as [-> | [Hk _]]; [ | auto].
           apply (klt_trans _ _ _ laws d h); [exact Hlow | apply Hfar, Hh].
      * left. apply kmap_set_keys. auto.
    + split; [lia | ].
      intros s0 Hin. apply in_app_or in Hin. destruct Hin as [Hin | [<- | []]].
      * auto.
      * right. split; [lia | ].
        intros k Hk. fold d.
        assert (Hne : k <> d) by (intros ->; contradiction).
        apply kle_neq; [ | exact Hne].
        apply (kle_trans k h d); [apply Hall, Hk | exact Hlow].
Qed.

Lemma keyedTop_fold (servers seen : list Server.t) (m : KMap K) :
  (forall c, In c (seen ++ servers) -> klt (dist c) kzero = false) ->
  NoDup (map dist (seen ++ servers)) ->
  keyedInv klt dist assign seen m ->
  keyedTop klt dist seen m ->
  keyedTop klt dist (seen ++ servers)
           (fold_left (rankStepWith kzero klt keq dist assign) servers m).
Proof.
  revert seen m.
  induction servers as [ | s servers IH]; intros seen m Hpos Hnd Hinv Htop;
    cbn [fold_left].
  - rewrite app_nil_r. exact Htop.
  - replace (seen ++ s :: servers)%list with ((seen ++ [s]) ++ servers)%list in *
      by (rewrite <- app_assoc; reflexivity).
    assert (Hpos' : forall c, In c seen -> klt (dist c) kzero = false).
    { intros c Hc. apply Hpos. apply in_or_app. left. apply in_or_app. left. exact Hc. }
    apply IH; [exact Hpos | exact Hnd | | ].
    + apply keyedInv_step; assumption.
    + apply keyedTop_step; try assumption.
      rewrite !map_app in Hnd. apply NoDup_app_remove_r in Hnd.
      cbn [map] in Hnd. apply NoDup_remove_2 in Hnd. rewrite app_nil_r in Hnd. exact Hnd.
Qed.

Lemma NoDup_map_same {A B} (f : A -> B) (l : list A) (x y : A) :
  NoDup (map f l) -> In x l -> In y l -> f x = f y -> x = y.
Proof.
  induction l as [ | a l IH]; cbn; intros Hnd Hx Hy E; [contradiction | ].
  inversion Hnd as [ | ? ? Hn Hd]; subst.
  destruct Hx as [-> | Hx], Hy as [-> | Hy]; auto.
  - exfalso. apply Hn. rewrite E. apply in_map, Hy.
  - exfalso. apply Hn. rewrite <- E. apply in_map, Hx.
Qed.

(** X7.  Under the laws of the comparisons (the hypothesis [laws] of this
    section), when the distances of the candidates are not below zero and
    no two candidates have the same distance, the map ends with min(5, n)
    entries, each a candidate under its own distance, and every candidate
    that is left out is farther than every server returned. *)
Theorem rankWith_closest_when_distinct (servers : list Server.t) :
  (forall c, In c servers -> klt (dist c) kzero = false) ->
  NoDup (map dist servers) ->
  List.length (rankWith kzero klt keq dist assign servers)
  = Nat.min 5%nat (List.length servers) /\
  (forall k v, In (k, v) (rankWith kzero klt keq dist assign servers) ->
     exists c, In c servers /\ k = dist c /\ v = assign c (dist c)) /\
  (forall s k v,
     In s servers ->
     ~ In (dist s, assign s (dist s)) (rankWith kzero klt keq dist assign servers) ->
     In (k, v) (rankWith kzero klt keq dist assign servers) ->
     klt k (dist s) = true).
Proof.
  intros Hpos Hnd.
  pose proof (keyedInv_final servers Hpos) as Hinv.
  assert (Htop : keyedTop klt dist servers (rankWith kzero klt keq dist assign servers)).
  { apply (keyedTop_fold servers [] []); try assumption.
    - apply keyedInv_nil.
    - split; [reflexivity | intros s []]. }
  destruct Htop as (Hlen & Htop). destruct Hinv as (_ & _ & Hent & _).
  split; [exact Hlen | split; [exact Hent | ]].
  intros s k v Hs Hout Hr.
  destruct (Htop s Hs) as [Hin | [_ Hfar]].
  - exfalso. apply Hout.
    apply in_map_iff in Hin. destruct Hin as ([k' v'] & E & Hin). cbn in E. subst k'.
    destruct (Hent _ v' Hin) as (s' & Hs' & E & ->).
    assert (s = s') by (eapply NoDup_map_same; eassumption). subst s'. exact Hin.
  - apply Hfar. apply in_map_iff. exists (k, v). auto.
Qed.

End KeyedRankingInvariant.

(** ** The ranking loop of the model is the loop over real keys *)

Section RealKeys.
#[local] Open Scope R_scope.

Lemma realKeyLaws : KeyLaws Rltb Reqb.
Proof.
  unfold Rltb, Reqb. split.
  - intros a b. destruct (Req_dec_T a b); split; intros H; congruence.
  - intros a. destruct (Rlt_dec a a); [lra | reflexivity].
  - intros a b c. destruct (Rlt_dec a b), (Rlt_dec b c), (Rlt_dec a c);
      intros H1 H2; try discriminate; try reflexivity. lra.
  - intros a b. destruct (Rlt_dec a b), (Rlt_dec b a); auto.
    right. left. lra.
Qed.

Lemma map_set_keyed (m : DistMap) (k : R) (v : Server.t) :
  map_set m k v = kmap_set Reqb m k v.
Proof.
  induction m as [ | [k0 v0] m IH]; cbn; [reflexivity | ].
  unfold Reqb at 1. destruct (Req_dec_T k0 k); [reflexivity | ].
  rewrite IH. reflexivity.
Qed.

Lemma map_delete_keyed (m : DistMap) (k : R) :
  map_delete m k = kmap_delete Reqb m k.
Proof.
  induction m as [ | [k0 v0] m IH]; cbn; [reflexivity | ].
  unfold Reqb at 1. destruct (Req_dec_T k0 k); [reflexivity | ].
  rewrite IH. reflexivity.
Qed.

Lemma highestFrom_keyed (h : R) (m : DistMap) :
  highestFrom h m = khighestFrom Rltb h m.
Proof.
  unfold highestFrom, khighestFrom. revert h.
  induction m as [ | [k0 v0] m IH]; intros h; cbn [fold_left fst]; [reflexivity | ].
  unfold Rltb at 2. destruct (Rlt_dec h k0); apply IH.
Qed.

Lemma rankStep_keyed (client : Client.t) (m : DistMap) (s : Server.t) :
  rankStep client m s =
  rankStepWith 0 Rltb Reqb (distanceTo client) Server.with_Distance m s.
Proof.
  rewrite rankStep_eq. unfold rankStepWith, highest. cbv zeta.
  rewrite <- highestFrom_keyed, <- !map_set_keyed, <- map_delete_keyed.
  unfold Rltb. destruct (Rlt_dec (distanceTo client s) (highestFrom 0 m)); reflexivity.
Qed.

(** The ranking loop of [getClosestServers] is the loop over keys, taken
    at the real numbers with their order. *)
Lemma rankLoop_keyed (client : Client.t) (servers : list Server.t) (m : DistMap) :
  fold_left (rankStep client) servers m =
  fold_left (rankStepWith 0 Rltb Reqb (distanceTo client) Server.with_Distance) servers m.
Proof.
  revert m. induction servers as [ | s servers IH]; intros m; cbn [fold_left].
  - reflexivity.
  - rewrite rankStep_keyed. apply IH.
Qed.

Lemma rankServers_keyed (client : Client.t) (servers : list Server.t) :
  rankServers client servers =
  map snd (rankWith 0 Rltb Reqb (distanceTo client) Server.with_Distance servers).
Proof.
  unfold rankServers, rankWith. rewrite rankLoop_keyed. reflexivity.
Qed.

Lemma distanceTo_not_below_zero (client : Client.t) (s : Server.t) :
  Rltb (distanceTo client s) 0 = false.
Proof.
  unfold Rltb. pose proof (distanceTo_nonneg client s).
  destruct (Rlt_dec (distanceTo client s) 0); [lra | reflexivity].
Qed.

Lemma rankLoop_seven :
  fold_left (rankStep client0) seven [] =
  [(3 * (6371 * PI / 180), ranked "S3" 3); (1 * (6371 * PI / 180), ranked "S1" 1);
   (2 * (6371 * PI / 180), ranked "S2" 2); (5 * (6371 * PI / 180), ranked "S5" 5);
   (4 * (6371 * PI / 180), ranked "S4" 4)].
Proof.
  pose proof PI_RGT_0 as HPI.
  unfold seven.
  do 7 rank_step. reflexivity.
Qed.

Lemma seven_distances :
  map (distanceTo client0) seven =
  [3 * (6371 * PI / 180); 1 * (6371 * PI / 180); 2 * (6371 * PI / 180);
   7 * (6371 * PI / 180); 5 * (6371 * PI / 180); 4 * (6371 * PI / 180);
   6 * (6371 * PI / 180)].
Proof.
  unfold seven, distanceTo. cbn [map client0 onEquator Client.Lat Client.Long
                                  Server.Lat Server.Long].
  rewrite !distance_on_equator by lra. reflexivity.
Qed.

Lemma seven_distinct : NoDup (map (distanceTo client0) seven).
Proof.
  pose proof PI_RGT_0 as HPI. rewrite seven_distances.
  repeat constructor; cbn; intros H;
    repeat (destruct H as [H | H]; [lra | ]); exact H.
Qed.

(** Of the candidates of [crowd], one that is not farther than the server
    at 5 degrees, which is left out, is among the servers returned. *)
Lemma rankWith_keeps_a_closest_witness :
  KeyLaws Rltb Reqb /\
  (forall c, In c crowd -> Rltb (distanceTo client0 c) 0 = false) /\
  exists c, In c crowd /\
            In (Server.with_Distance c (distanceTo client0 c)) (rankServers client0 crowd) /\
            Rltb (distanceTo client0 (onEquator "S5" 5)) (distanceTo client0 c) = false.
Proof.
  split; [exact realKeyLaws | split; [intros c _; apply distanceTo_not_below_zero | ]].
  destruct (rankWith_keeps_a_closest R 0 Rltb Reqb (distanceTo client0) Server.with_Distance
              realKeyLaws crowd (onEquator "S5" 5)) as (c & Hc & Hin & Hle).
  - intros c _. apply distanceTo_not_below_zero.
  - right; right; right; right; left. reflexivity.
  - exists c. split; [exact Hc | split; [ | exact Hle]].
    rewrite rankServers_keyed. apply in_map_iff.
    exists (distanceTo client0 c, Server.with_Distance c (distanceTo client0 c)). auto.
Defined.

(** Of the seven candidates of [seven] five are returned; the candidate at
    7 degrees is put out by the one at 4 degrees, the one at 6 degrees is
    never taken in, and both are farther than every server returned. *)
Lemma rankWith_closest_when_distinct_witness :
  KeyLaws Rltb Reqb /\
  (forall c, In c seven -> Rltb (distanceTo client0 c) 0 = false) /\
  NoDup (map (distanceTo client0) seven) /\
  List.length (rankServers client0 seven) = 5%nat /\
  ~ In (ranked "S7" 7) (rankServers client0 seven) /\
  ~ In (ranked "S6" 6) (rankServers client0 seven) /\
  (forall r, In r (rankServers client0 seven) ->
     Rltb (Server.Distance r) (distanceTo client0 (onEquator "S7" 7)) = true /\
     Rltb (Server.Distance r) (distanceTo client0 (onEquator "S6" 6)) = true).
Proof.
  pose proof PI_RGT_0 as HPI.
  split; [exact realKeyLaws | split; [intros c _; apply distanceTo_not_below_zero | ]].
  split; [exact seven_distinct | ].
  destruct (rankWith_closest_when_distinct R 0 Rltb Reqb (distanceTo client0)
              Server.with_Distance realKeyLaws seven
              (fun c _ => distanceTo_not_below_zero client0 c) seven_distinct)
    as (Hlen & Hent & Hfar).
  assert (Hout : forall name lon, 5 < lon < 180 ->
            ~ In (distanceTo client0 (onEquator name lon),
                  Server.with_Distance (onEquator name lon)
                                       (distanceTo client0 (onEquator name lon)))
                 (rankWith 0 Rltb Reqb (distanceTo client0) Server.with_Distance seven)).
  { intros name lon Hlon. unfold rankWith. rewrite <- rankLoop_keyed, rankLoop_seven.
    unfold distanceTo. cbn [client0 onEquator Client.Lat Client.Long Server.Lat Server.Long].
    rewrite distance_on_equator by lra.
    intros H. repeat (destruct H as [H | H]; [injection H as H _; lra | ]). exact H. }
  split; [rewrite rankServers_keyed, length_map; exact Hlen | ].
  assert (Hvals : rankServers client0 seven =
                  [ranked "S3" 3; ranked "S1" 1; ranked "S2" 2; ranked "S5" 5; ranked "S4" 4]).
  { unfold rankServers. rewrite rankLoop_seven. reflexivity. }
  split; [ | split].
  - rewrite Hvals. intros H.
    repeat (destruct H as [H | H]; [apply (f_equal Server.Name) in H; discriminate H | ]).
    exact H.
  - rewrite Hvals. intros H.
    repeat (destruct H as [H | H]; [apply (f_equal Server.Name) in H; discriminate H | ]).
    exact H.
  - intros r Hr. rewrite rankServers_keyed in Hr. apply in_map_iff in Hr.
    destruct Hr as ([k v] & <- & Hin). cbn [snd].
    destruct (Hent k v Hin) as (c & _ & Hk & ->).
    replace (Server.Distance (Server.with_Distance c (distanceTo client0 c))) with k
      by (rewrite Hk; destruct c; reflexivity).
    split.
    + eapply (Hfar (onEquator "S7" 7)); [ | apply Hout; lra | exact Hin].
      right; right; right; left. reflexivity.
    + eapply (Hfar (onEquator "S6" 6)); [ | apply Hout; lra | exact Hin].
      right; right; right; right; right; right; left. reflexivity.
Defined.

End RealKeys.

(** ** getBestServer: failures and ties *)

Section ProberEdges.
Context {P : Packages}.
Variable seed : nat -> Duration.
Variable probe : nat -> nat -> string -> Response.

Lemma Forall2_nth_error_l {A B} (R : A -> B -> Prop) l l' i x :
  Forall2 R l l' -> nth_error l i = Some x ->
  exists y, nth_error l' i = Some y /\ R x y.
Proof.
  intros H. revert i. induction H as [ | a b l l' Hab _ IH]; intros [ | i] E; cbn in *;
    try discriminate.
  - injection E as ->. eauto.
  - eauto.
Qed.

Lemma goroutine_outcome (st : Prober) (i : nat) :
  (exists st', goroutine seed probe st i = Returns st') \/
  (exists msg, goroutine seed probe st i = Fatal msg).
Proof.
  unfold goroutine. destruct (nth_error (goroutine_server st) i) as [s | ]; [ | eauto].
  unfold measure. destruct (url_Parse (Server.Url s)); cbn [bind]; eauto.
Qed.

(** A run of the goroutines returns or ends in [log.Fatal]. *)
Lemma runProber_outcome (order : list nat) (st : Prober) :
  (exists st', runProber seed probe order st = Returns st') \/
  (exists msg, runProber seed probe order st = Fatal msg).
Proof.
  revert st. induction order as [ | i order IH]; intros st; cbn [runProber].
  - eauto.
  - destruct (goroutine_outcome st i) as [(st' & ->) | (msg & ->)]; cbn [bind]; eauto.
Qed.

(** A run that returns has parsed the URL of every candidate it ran. *)
Lemma runProber_parsed (servers : list Server.t) (done order : list nat) (st st' : Prober) :
  recorded seed probe servers done st ->
  runProber seed probe order st = Returns st' ->
  forall i s, In i order -> nth_error servers i = Some s ->
              exists u, url_Parse (Server.Url s) = inl u.
Proof.
  revert done st. induction order as [ | j order IH]; intros done st Hrec Hrun i s Hi Es.
  - destruct Hi.
  - cbn [runProber] in Hrun.
    destruct (goroutine seed probe st j) as [st1 | | | | ] eqn:Hg; cbn [bind] in Hrun;
      try discriminate.
    destruct Hi as [-> | Hi].
    + destruct Hrec as (_ & Hcopies & _).
      destruct (Forall2_nth_error_l _ _ _ _ _ Hcopies Es) as (s' & Es' & Hc).
      unfold goroutine in Hg. rewrite Es', (measure_copyOf seed probe i s s' Hc) in Hg.
      unfold measure in Hg.
      destruct (url_Parse (Server.Url s)) as [u | err]; [eauto | discriminate].
    + exact (IH (done ++ [j])%list st1
                (goroutine_recorded seed probe servers done st st1 j Hrec Hg)
                Hrun i s Hi Es).
Qed.

(** X8.  When the URL of a candidate does not parse, [getBestServer] does
    not return: the run ends in [log.Fatal], whatever the order of the
    goroutines. *)
Theorem getBestServer_unparsed_is_fatal (servers : list Server.t) (order : list nat)
    (i : nat) (s : Server.t) (err : error) :
  covers (List.length servers) order = true ->
  nth_error servers i = Some s ->
  url_Parse (Server.Url s) = inr err ->
  exists msg, getBestServer servers seed probe order = Fatal msg.
Proof.
  intros Hcov Es Hu. unfold getBestServer, getBestServerMem. rewrite Hcov.
  destruct (runProber_outcome order (mkProber servers servers true Server.zero))
    as [(st & Hrun) | (msg & Hrun)]; rewrite Hrun; cbn [bind]; [ | eauto].
  exfalso.
  assert (Hi : In i order).
  { apply (covers_In _ _ _ Hcov). apply nth_error_Some. congruence. }
  destruct (runProber_parsed servers [] order _ st (recorded_initial seed probe servers)
              Hrun i s Hi Es) as (u & Hu').
  congruence.
Qed.

(** X9.  When one candidate has a mean strictly below the mean of every
    other, it is returned with that mean whatever the order in which the
    goroutines take the lock. *)
Theorem getBestServer_strict_minimum (servers : list Server.t) (order : list nat)
    (i : nat) (s b : Server.t) :
  Forall (fun s => exists u, url_Parse (Server.Url s) = inl u) servers ->
  covers (List.length servers) order = true ->
  nth_error servers i = Some s ->
  measure (seed i) (probe i) s = Returns b ->
  (forall j sj bj, j <> i -> nth_error servers j = Some sj ->
     measure (seed j) (probe j) sj = Returns bj -> Server.Ping b < Server.Ping bj) ->
  getBestServer servers seed probe order = Returns b.
Proof.
  intros Hparse Hcov Es Hb Hmin.
  destruct (runProber_returns seed probe servers order Hparse) as (st & Hrun).
  unfold getBestServer, getBestServerMem. rewrite Hcov, Hrun. cbn [bind]. f_equal.
  assert (Hi : In i order).
  { apply (covers_In _ _ _ Hcov). apply nth_error_Some. congruence. }
  destruct (runProber_recorded seed probe servers order st Hrun) as (_ & _ & Hbest).
  destruct Hbest as [(_ & _ & Hnone) | (_ & k & sk & o1 & o2 & Ho & Ek & Hk & Hlt & Hle)].
  - rewrite (Hnone i Hi) in Es. discriminate.
  - destruct (Nat.eq_dec k i) as [-> | Hne].
    + rewrite Ek in Es. injection Es as ->. rewrite Hk in Hb. injection Hb as ->.
      reflexivity.
    + exfalso. specialize (Hmin k sk (bestServer st) Hne Ek Hk).
      rewrite Ho in Hi. apply in_app_or in Hi. destruct Hi as [Hi | [E | Hi]].
      * specialize (Hlt i s b Hi Es Hb). lia.
      * congruence.
      * specialize (Hle i s b Hi Es Hb). lia.
Qed.

(** The mean of a candidate whose first probe fails comes from the seed
    alone. *)
Lemma measure_first_probe_fails (i : nat) (s : Server.t) (u : URL.t) :
  url_Parse (Server.Url s) = inl u ->
  (forall url, snd (fetchHttp (probe i 0%nat url)) <> None) ->
  measure (seed i) (probe i) s =
  Returns (Server.with_Ping s (Z.quot (Z.quot (seed i) 1000000) 5)).
Proof.
  intros Hu Hfail. unfold measure. rewrite Hu. cbn [timesToRunLatency latencyLoop].
  specialize (Hfail (URL_String (URL.with_Path u "/latency.txt"))).
  destruct (fetchHttp (probe i 0%nat _)) as [[b d] [e | ]]; [reflexivity | ].
  exfalso. apply Hfail. reflexivity.
Qed.

(** X10.  When the first probe of every candidate fails and every seed is
    below 5 ms, every mean is zero and the candidate whose goroutine takes
    the lock first is returned, with a [Ping] of zero. *)
Theorem getBestServer_all_probes_fail (servers : list Server.t) (order : list nat)
    (i : nat) (s : Server.t) :
  Forall (fun s => exists u, url_Parse (Server.Url s) = inl u) servers ->
  covers (List.length servers) (i :: order) = true ->
  nth_error servers i = Some s ->
  (forall j url, snd (fetchHttp (probe j 0%nat url)) <> None) ->
  (forall j, 0 <= seed j < 5000000) ->
  getBestServer servers seed probe (i :: order) = Returns (Server.with_Ping s 0).
Proof.
  intros Hparse Hcov Es Hfail Hseed.
  assert (Hzero : forall j sj bj, nth_error servers j = Some sj ->
            measure (seed j) (probe j) sj = Returns bj -> bj = Server.with_Ping sj 0).
  { intros j sj bj Ej Hm. rewrite Forall_forall in Hparse.
    destruct (Hparse sj (nth_error_In _ _ Ej)) as (u & Hu).
    rewrite (measure_first_probe_fails j sj u Hu (Hfail j)) in Hm.
    injection Hm as <-. f_equal.
    specialize (Hseed j).
    assert (H : 0 <= Z.quot (seed j) 1000000 < 5).
    { rewrite Z.quot_div_nonneg by lia.
      split; [apply Z.div_pos; lia | apply Z.div_lt_upper_bound; lia]. }
    apply Z.quot_small. exact H. }
  destruct (runProber_returns seed probe servers (i :: order) Hparse) as (st & Hrun).
  unfold getBestServer, getBestServerMem. rewrite Hcov, Hrun. cbn [bind]. f_equal.
  destruct (runProber_recorded seed probe servers (i :: order) st Hrun) as (_ & _ & Hbest).
  destruct Hbest as [(_ & _ & Hnone) | (_ & k & sk & o1 & o2 & Ho & Ek & Hk & Hlt & _)].
  - rewrite (Hnone i (or_introl eq_refl)) in Es. discriminate.
  - destruct o1 as [ | j o1].
    + cbn in Ho. injection Ho as <- _. rewrite Ek in Es. injection Es as ->.
      apply (Hzero i s _ Ek Hk).
    + exfalso. cbn in Ho. injection Ho as <- _.
      rewrite Forall_forall in Hparse.
      destruct (Hparse s (nth_error_In _ _ Es)) as (u & Hu).
      pose proof (measure_first_probe_fails i s u Hu (Hfail i)) as Hm.
      specialize (Hlt i s _ (or_introl eq_refl) Es Hm).
      rewrite (Hzero k sk _ Ek Hk) in Hlt.
      rewrite (Hzero i s _ Es Hm) in Hlt. cbn in Hlt. lia.
Qed.

End ProberEdges.

Lemma getBestServer_unparsed_is_fatal_witness :
  exists msg,
    getBestServer (P := examplePackages) [nearCandidate; badCandidate] (fun _ => 0)
                  steadyProbe [1; 0]%nat = Fatal msg.
Proof.
  apply (getBestServer_unparsed_is_fatal (P := examplePackages) (fun _ => 0) steadyProbe
           [nearCandidate; badCandidate] [1; 0]%nat 1 badCandidate
           "net/url: invalid control character in URL");
    reflexivity.
Defined.

Lemma getBestServer_strict_minimum_witness :
  getBestServer (P := examplePackages) candidates (fun _ => 0) spreadProbe [2; 0; 1]%nat
  = Returns (Server.with_Ping
               (candidate "fast" "http://fast.example.net/speedtest/upload.php") 5).
Proof.
  apply (getBestServer_strict_minimum (P := examplePackages) (fun _ => 0) spreadProbe
           candidates [2; 0; 1]%nat 1
           (candidate "fast" "http://fast.example.net/speedtest/upload.php")).
  - repeat constructor; eexists; reflexivity.
  - reflexivity.
  - reflexivity.
  - reflexivity.
  - intros j sj bj Hne Ej Hm.
    destruct j as [ | [ | [ | j]]]; cbn in Ej; try congruence.
    + injection Ej as <-. cbv in Hm. injection Hm as <-. cbn. lia.
    + injection Ej as <-. cbv in Hm. injection Hm as <-. cbn. lia.
    + destruct j; discriminate.
Defined.

Lemma getBestServer_all_probes_fail_witness :
  getBestServer (P := examplePackages) candidates (fun _ => 100) refusedProbe [2; 0; 1]%nat
  = Returns (Server.with_Ping
               (candidate "tied" "http://tied.example.net/speedtest/upload.php") 0).
Proof.
  apply (getBestServer_all_probes_fail (P := examplePackages) (fun _ => 100) refusedProbe
           candidates [0; 1]%nat 2
           (candidate "tied" "http://tied.example.net/speedtest/upload.php")).
  - repeat constructor; eexists; reflexivity.
  - reflexivity.
  - reflexivity.
  - intros j url. discriminate.
  - intros j. lia.
Defined.

(** ** The mean latency as a floor *)

Lemma sumZ_nonneg (l : list Z) : Forall (fun d => 0 <= d) l -> 0 <= sumZ l.
Proof.
  unfold sumZ. induction 1 as [ | d l Hd _ IH]; cbn [fold_right]; lia.
Qed.

(** X11.  With a seed and probe durations that are not negative and do not
    overflow, the mean recorded is the whole number of times that 5 ms goes
    into the seed plus the durations of the probes served before the first
    failure: truncating to milliseconds first loses nothing. *)
Theorem measure_mean_is_floor {P : Packages} (seed : Duration)
    (fetch : nat -> string -> Response) (s : Server.t) (u : URL.t) :
  let ds := measuredDurations timesToRunLatency 0
              (fun k => fetch k (URL_String (URL.with_Path u "/latency.txt"))) in
  url_Parse (Server.Url s) = inl u ->
  0 <= seed ->
  Forall (fun d => 0 <= d) ds ->
  seed + sumZ ds < 2 ^ 63 ->
  measure seed fetch s = Returns (Server.with_Ping s ((seed + sumZ ds) / 5000000)) /\
  0 <= (seed + sumZ ds) / 5000000.
Proof.
  intros ds Hu Hseed Hds Hsum.
  pose proof (sumZ_nonneg ds Hds) as Hnn.
  split; [ | apply Z.div_pos; lia].
  rewrite (measure_mean seed fetch s u Hu) by (unfold int64; lia).
  fold ds. rewrite wrap64_id by (unfold int64; lia).
  rewrite (Z.quot_div_nonneg (seed + sumZ ds) 1000000) by lia.
  rewrite Z.quot_div_nonneg; [ | apply Z.div_pos; lia | cbn; lia].
  cbn [timesToRunLatency Z.of_nat Pos.of_succ_nat Pos.succ].
  rewrite Z.div_div by lia. reflexivity.
Qed.

Lemma measure_mean_is_floor_witness :
  measure (P := examplePackages) 1 tightProbe nearCandidate
  = Returns (Server.with_Ping nearCandidate
               ((1 + sumZ (measuredDurations timesToRunLatency 0
                             (fun k => tightProbe k "http://near.example.net/latency.txt")))
                / 5000000)).
Proof.
  refine (proj1 (measure_mean_is_floor (P := examplePackages) 1 tightProbe nearCandidate
                   (URL.mk "http" "near.example.net" "/speedtest/upload.php" "")
                   eq_refl _ _ _)).
  - lia.
  - repeat constructor; cbn; lia.
  - cbn. lia.
Defined.

(** ** The regular expression and the producer, for every URL *)

Section ReplaceComposes.

(** Whether [re] matches depends on the text alone: the replacement gives
    the text back for every template, or a fixed prefix of the text followed
    by the template's tail for every template. *)
Lemma replaceLastSegment_cases (src : string) :
  (forall tail, replaceLastSegment src tail = src) \/
  (exists pre, forall tail, replaceLastSegment src tail = pre ++ tail).
Proof.
  unfold replaceLastSegment.
  destruct (rev (list_ascii_of_string src)) as [ | c0 r]; [left; reflexivity | ].
  destruct (Ascii.eqb c0 newline); [left; reflexivity | ].
  destruct (scanBack r) as [r' | ]; [right | left; reflexivity].
  exists (string_of_list_ascii (rev r')). reflexivity.
Qed.

Lemma replace_after_replace (src name tail : string) :
  isFileName name = true ->
  replaceLastSegment (replaceLastSegment src ("/" ++ name)) tail =
  replaceLastSegment src tail.
Proof.
  intros Hname.
  destruct (replaceLastSegment_cases src) as [Hsame | (pre & Hpre)].
  - rewrite !Hsame. reflexivity.
  - rewrite !Hpre. apply replaceLastSegment_file. exact Hname.
Qed.

(** X12.  A replacement overrides an earlier one: replacing the last segment
    by a file name and then by anything else gives what replacing it by the
    latter at once gives, whether the expression matches the text or not. *)
Theorem replaceLastSegment_overrides (src name tail : string) :
  isFileName name = true ->
  replaceLastSegment (replaceLastSegment src ("/" ++ name)) tail =
  replaceLastSegment src tail.
Proof.
  intros Hname.
  destruct (replaceLastSegment_cases src) as [Hsame | (pre & Hpre)].
  - rewrite !Hsame. reflexivity.
  - rewrite !Hpre. apply replaceLastSegment_file. exact Hname.
Qed.

End ReplaceComposes.

Lemma replaceLastSegment_overrides_witness :
  replaceLastSegment (replaceLastSegment "/speedtest/upload.php" "/random350x350.jpg")
                     "/random500x500.jpg"
  = replaceLastSegment "/speedtest/upload.php" "/random500x500.jpg".
Proof.
  exact (replaceLastSegment_overrides "/speedtest/upload.php" "random350x350.jpg"
           "/random500x500.jpg" eq_refl).
Defined.

Section ProducerAnyURL.
Context {P : Packages}.

Lemma Path_with_Path (u : URL.t) (p : string) : URL.Path (URL.with_Path u p) = p.
Proof. reflexivity. Qed.

Lemma emit_any (n : nat) (size : Z) (u : URL.t) :
  isFileName (imageName size) = true ->
  emit (S n) size u =
  (repeat (URL_String (URL.with_Path u (replaceLastSegment (URL.Path u) (randomImage size))))
          (S n),
   URL.with_Path u (replaceLastSegment (URL.Path u) (randomImage size))).
Proof.
  intros Hi. revert u. induction n as [ | n IH]; intros u.
  - reflexivity.
  - change (emit (S (S n)) size u) with
      (let u1 := URL.with_Path u (replaceLastSegment (URL.Path u) (randomImage size)) in
       let (out, u') := emit (S n) size u1 in (URL_String u1 :: out, u')).
    cbv zeta. rewrite IH. rewrite !with_Path_twice, !Path_with_Path.
    change (randomImage size) with ("/" ++ imageName size).
    rewrite (replace_after_replace (URL.Path u) (imageName size) _ Hi).
    reflexivity.
Qed.

Lemma generate_any (sizes : list Z) (u : URL.t) (name : string) (path : string) :
  Forall (fun size => isFileName (imageName size) = true) sizes ->
  isFileName name = true ->
  generate sizes (URL.with_Path u (replaceLastSegment path ("/" ++ name))) =
  flat_map (fun size =>
              repeat (URL_String
                        (URL.with_Path u (replaceLastSegment path (randomImage size))))
                     duplicateDownloads) sizes.
Proof.
  intros Hs. revert name. induction Hs as [ | size sizes Hi _ IH]; intros name Hn.
  - reflexivity.
  - cbn [generate flat_map]. unfold duplicateDownloads at 1.
    rewrite (emit_any 3 size _ Hi). rewrite !with_Path_twice, !Path_with_Path.
    rewrite (replace_after_replace path name _ Hn).
    change (randomImage size) with ("/" ++ imageName size) at 2.
    rewrite (IH (imageName size) Hi). reflexivity.
Qed.

(** X13.  For every server URL, with or without a file name at its end, the
    producer sends, for the ten sizes in ascending order, four times the URL
    whose path is the server's path with the replacement for that size
    applied once, and then closes the channel: replacements do not pile up
    from one size to the next. *)
Theorem producer_every_url (u : URL.t) :
  producer u =
  (map Send
     (flat_map (fun size =>
                  repeat (URL_String
                            (URL.with_Path u
                               (replaceLastSegment (URL.Path u)
                                  ("/random" ++ Itoa size ++ "x" ++ Itoa size ++ ".jpg"))))
                         4)
               [350; 500; 750; 1000; 1500; 2000; 2500; 3000; 3500; 4000])
   ++ [Close])%list.
Proof.
  unfold producer. f_equal.
  change downloadSizes with (350 :: tl downloadSizes).
  cbn [generate]. unfold duplicateDownloads at 1.
  rewrite (emit_any 3 350 u eq_refl).
  change (randomImage 350) with ("/" ++ imageName 350) at 2.
  rewrite (generate_any (tl downloadSizes) u (imageName 350) (URL.Path u));
    [reflexivity | repeat constructor | reflexivity].
Qed.

End ProducerAnyURL.

(** ** The consumers: progress and independence of the schedule *)

Section PoolProgress.
Variable download : nat -> string -> Response.

Lemma stepsLeft_set_nth (ws : list Worker) (i : nat) (w w' : Worker) :
  nth_error ws i = Some w ->
  (list_sum (map stepsLeft (set_nth i w' ws)) + stepsLeft w
   = list_sum (map stepsLeft ws) + stepsLeft w')%nat.
Proof.
  revert i. induction ws as [ | a ws IH]; intros [ | i] E; cbn in E; try discriminate.
  - injection E as ->. cbn [set_nth map]. unfold list_sum. cbn [fold_right]. lia.
  - specialize (IH i E). cbn [set_nth map]. unfold list_sum in *. cbn [fold_right]. lia.
Qed.

(** A step of a consumer that has not left takes one off the work left. *)
Lemma workerStep_workLeft (st : Pool) (i : nat) (w : Worker) :
  nth_error (workers st) i = Some w ->
  isExited w = false ->
  S (workLeft (workerStep download st i)) = workLeft st.
Proof.
  intros Ei Hw. unfold workerStep, workLeft. rewrite Ei.
  destruct w as [ | k url | ]; [ | | discriminate].
  - destruct (ch st) as [ | url rest] eqn:Ech; cbn [ch workers List.length].
    + pose proof (stepsLeft_set_nth (workers st) i Receiving Exited Ei) as H.
      cbn [stepsLeft] in H. lia.
    + pose proof (stepsLeft_set_nth (workers st) i Receiving (Fetching (sent st) url) Ei)
        as H.
      cbn [stepsLeft] in H. lia.
  - destruct (fetchHttp (download k url)) as [[b d] e]. cbn [ch workers].
    pose proof (stepsLeft_set_nth (workers st) i (Fetching k url) Receiving Ei) as H.
    cbn [stepsLeft] in H. lia.
Qed.

Lemma not_allExited (ws : list Worker) :
  forallb isExited ws = false ->
  exists i w, nth_error ws i = Some w /\ isExited w = false.
Proof.
  induction ws as [ | a ws IH]; cbn; [discriminate | ].
  destruct (isExited a) eqn:Ea; cbn.
  - intros H. destruct (IH H) as (i & w & Ei & Hw). exists (S i), w. auto.
  - intros _. exists 0%nat, a. auto.
Qed.

(** When every fetch returns, from every state of the pool some schedule,
    no longer than the work left, lets every consumer leave. *)
Lemma pool_can_finish (m : nat) (st : Pool) :
  (workLeft st <= m)%nat ->
  exists schedule, (List.length schedule <= m)%nat /\
                   allExited (runPool download schedule st) = true.
Proof.
  revert st. induction m as [ | m IH]; intros st Hm;
    (destruct (forallb isExited (workers st)) eqn:E;
     [exists []; split; [cbn; lia | exact E] | ]);
    destruct (not_allExited _ E) as (i & w & Ei & Hw);
    pose proof (workerStep_workLeft st i w Ei Hw) as Hs.
  - lia.
  - destruct (IH (workerStep download st i)) as (schedule & Hl & Hall); [lia | ].
    exists (i :: schedule). split; [cbn; lia | exact Hall].
Qed.

(** Once every consumer has left, further steps change nothing. *)
Lemma allExited_stable (schedule : list nat) (st : Pool) :
  allExited st = true -> runPool download schedule st = st.
Proof.
  intros Hall. induction schedule as [ | i schedule IH]; [reflexivity | ].
  unfold runPool in *. cbn [fold_left].
  assert (E : workerStep download st i = st).
  { unfold workerStep. destruct (nth_error (workers st) i) as [w | ] eqn:Ei; [ | reflexivity].
    unfold allExited in Hall. rewrite forallb_forall in Hall.
    specialize (Hall w (nth_error_In _ _ Ei)). destruct w; try discriminate. reflexivity. }
  rewrite E. exact IH.
Qed.

End PoolProgress.

Section PoolMayHang.
Variable download : nat -> string -> option Response.

Lemma workerStepMay_returned (st : Pool) (i : nat) :
  (forall k url, download k url <> None) ->
  workerStepMay download st i = workerStep (returned download) st i.
Proof.
  intros Hret. unfold workerStepMay, workerStep, returned.
  destruct (nth_error (workers st) i) as [[ | k url | ] | ]; try reflexivity.
  destruct (download k url) as [r | ] eqn:E; [reflexivity | ].
  exfalso. exact (Hret k url E).
Qed.

Lemma runPoolMay_returned (schedule : list nat) (st : Pool) :
  (forall k url, download k url <> None) ->
  runPoolMay download schedule st = runPool (returned download) schedule st.
Proof.
  intros Hret. unfold runPoolMay, runPool. revert st.
  induction schedule as [ | i schedule IH]; intros st; cbn [fold_left]; [reflexivity | ].
  rewrite workerStepMay_returned by exact Hret. apply IH.
Qed.

(** X14.  Provided every call of [http.Get] returns, the download stage
    cannot get stuck: whatever the number of consumers and whatever steps
    were taken so far, the schedule can be continued so that every consumer
    leaves its loop and [wg.Wait()] returns. *)
Theorem pool_never_stuck_if_fetches_return (n : nat) (urls : list string) (seed : Duration)
    (sofar : list nat) :
  (forall k url, download k url <> None) ->
  exists rest,
    allExited (runPoolMay download (sofar ++ rest)
                 (mkPool urls 0 (repeat Receiving n) 0%R seed)) = true.
Proof.
  intros Hret.
  destruct (pool_can_finish (returned download) _
              (runPool (returned download) sofar
                 (mkPool urls 0 (repeat Receiving n) 0%R seed))
              (Nat.le_refl _)) as (rest & _ & Hall).
  exists rest. rewrite runPoolMay_returned by exact Hret.
  rewrite runPool_app. exact Hall.
Qed.

Lemma nth_error_set_nth_other {A} (l : list A) (i j : nat) (x : A) :
  i <> j -> nth_error (set_nth j x l) i = nth_error l i.
Proof.
  revert i j. induction l as [ | y l IH]; intros [ | i] [ | j] H; cbn; try reflexivity.
  - congruence.
  - apply IH. congruence.
Qed.

Lemma workerStepMay_hung (st : Pool) (i j k : nat) (url : string) :
  nth_error (workers st) i = Some (Fetching k url) ->
  download k url = None ->
  nth_error (workers (workerStepMay download st j)) i = Some (Fetching k url).
Proof.
  intros Ei Hk. unfold workerStepMay.
  destruct (Nat.eq_dec i j) as [<- | Hne].
  - rewrite Ei, Hk. exact Ei.
  - destruct (nth_error (workers st) j) as [[ | k' url' | ] | ]; try exact Ei.
    + destruct (ch st); cbn [workers]; rewrite nth_error_set_nth_other by exact Hne;
        exact Ei.
    + destruct (download k' url') as [r | ]; [ | exact Ei].
      destruct (fetchHttp r) as [[b d] e]. cbn [workers].
      rewrite nth_error_set_nth_other by exact Hne. exact Ei.
Qed.

(** Without the proviso the stage can hang: a consumer that holds a URL
    whose fetch never returns stays in it, and whatever the schedule
    [wg.Wait()] does not return. *)
Lemma hung_fetch_blocks_pool (schedule : list nat) (st : Pool) (i k : nat) (url : string) :
  nth_error (workers st) i = Some (Fetching k url) ->
  download k url = None ->
  allExited (runPoolMay download schedule st) = false.
Proof.
  intros Ei Hk.
  assert (H : nth_error (workers (runPoolMay download schedule st)) i
              = Some (Fetching k url)).
  { unfold runPoolMay. revert st Ei.
    induction schedule as [ | j schedule IH]; intros st Ei; cbn [fold_left]; [exact Ei | ].
    apply IH. apply workerStepMay_hung; assumption. }
  unfold allExited. destruct (forallb isExited _) eqn:E; [ | reflexivity].
  rewrite forallb_forall in E.
  specialize (E _ (nth_error_In _ _ H)). discriminate.
Qed.

End PoolMayHang.

Lemma pool_never_stuck_if_fetches_return_witness :
  (forall k url, steadyReturns k url <> None) /\
  exists rest,
    allExited (runPoolMay steadyReturns ([0; 1; 0]%nat ++ rest)
                 (mkPool ["a"; "b"; "c"] 0 (repeat Receiving 2) 0%R 50)) = true.
Proof.
  split; [intros k url; discriminate | ].
  apply (pool_never_stuck_if_fetches_return steadyReturns 2 ["a"; "b"; "c"] 50 [0; 1; 0]%nat).
  intros k url. discriminate.
Defined.

(** Two consumers, the second of which takes the URL whose fetch never
    returns: the first consumer drains the channel and leaves, the second
    does not. *)
Example hung_fetch_blocks_pool_example (rest : list nat) :
  allExited (runPoolMay secondHangs ([0; 1]%nat ++ rest)
               (mkPool ["a"; "b"; "c"] 0 (repeat Receiving 2) 0%R 50)) = false.
Proof.
  unfold runPoolMay. rewrite fold_left_app.
  apply (hung_fetch_blocks_pool secondHangs rest _ 1 1 "b"); reflexivity.
Qed.

Section RateIndependence.
Context {P : Packages}.

(** X15.  The result of [downloadSpeed] does not depend on the number of
    consumers nor on how their steps interleave: two runs against the same
    network that both come to [wg.Wait()] return the same. *)
Theorem downloadSpeed_schedule_independent (n1 n2 : nat) (server : Server.t)
    (seed : Duration) (download : nat -> string -> Response) (s1 s2 : list nat) :
  (1 <= n1)%nat ->
  (1 <= n2)%nat ->
  int64 seed ->
  downloadSpeedWith n1 server seed download s1 <> Pending ->
  downloadSpeedWith n2 server seed download s2 <> Pending ->
  downloadSpeedWith n1 server seed download s1 =
  downloadSpeedWith n2 server seed download s2.
Proof.
  intros H1 H2 Hseed. unfold downloadSpeedWith.
  destruct (url_Parse (Server.Url server)) as [u | err]; [ | reflexivity].
  destruct (allExited (runPool download s1 _)) eqn:E1; [ | congruence].
  destruct (allExited (runPool download s2 _)) eqn:E2; [ | congruence].
  intros _ _.
  destruct (pool_totals download n1 seed _ s1 H1 Hseed E1) as [-> ->].
  destruct (pool_totals download n2 seed _ s2 H2 Hseed E2) as [-> ->].
  reflexivity.
Qed.

Lemma failed_bytesOf (r : Response) : snd (fetchHttp r) <> None -> bytesOf r = 0%R.
Proof.
  destruct r; cbn; intros H; try reflexivity. exfalso. apply H. reflexivity.
Qed.

Lemma queued_all_failed (download : nat -> string -> Response) (k : nat)
    (urls : list string) :
  (forall j url, snd (fetchHttp (download j url)) <> None) ->
  sumR (map bytesOf (queued download k urls)) = 0%R.
Proof.
  intros Hfail. revert k. induction urls as [ | url urls IH]; intros k.
  - reflexivity.
  - cbn [queued map]. unfold sumR in *. cbn [fold_right].
    rewrite IH, (failed_bytesOf _ (Hfail k url)). lra.
Qed.

(** X16.  When every download fails and the durations returned with the
    errors make a total above zero, [downloadSpeed] returns a rate of zero:
    failures are not reported to the caller. *)
Theorem downloadSpeed_all_failed (n : nat) (server : Server.t) (u : URL.t)
    (seed : Duration) (download : nat -> string -> Response) (schedule : list nat) :
  url_Parse (Server.Url server) = inl u ->
  (1 <= n)%nat ->
  int64 seed ->
  allExited (runPool download schedule
               (mkPool (generate downloadSizes u) 0 (repeat Receiving n) 0%R seed)) = true ->
  (forall k url, snd (fetchHttp (download k url)) <> None) ->
  0 < totalDur (runPool download schedule
                  (mkPool (generate downloadSizes u) 0 (repeat Receiving n) 0%R seed)) ->
  downloadSpeedWith n server seed download schedule = Returns 0%R.
Proof.
  intros Hu Hn Hseed Hall Hfail _.
  rewrite (downloadSpeedWith_rate n server u seed download schedule Hu Hn Hseed Hall).
  cbv zeta. rewrite (queued_all_failed download 0 _ Hfail).
  f_equal. unfold Rdiv. ring.
Qed.

End RateIndependence.

Lemma drain_near (n : nat) (seed : Duration) (download : nat -> string -> Response) :
  (1 <= n)%nat ->
  allExited
    (runPool download (drainSchedule n 40)
       (mkPool (generate (P := examplePackages) downloadSizes
                  (URL.mk "http" "near.example.net" "/speedtest/upload.php" ""))
               0 (repeat Receiving n) 0%R seed)) = true.
Proof.
  intros Hn.
  change 40%nat with (List.length
    (generate (P := examplePackages) downloadSizes
       (URL.mk "http" "near.example.net" "/speedtest/upload.php" ""))).
  apply drainSchedule_completes. exact Hn.
Qed.

Lemma downloadSpeedWith_near_returns (n : nat) (seed : Duration)
    (download : nat -> string -> Response) :
  (1 <= n)%nat ->
  downloadSpeedWith (P := examplePackages) n nearCandidate seed download (drainSchedule n 40)
  <> Pending.
Proof.
  intros Hn. unfold downloadSpeedWith.
  change (url_Parse (Packages := examplePackages) (Server.Url nearCandidate))
    with (@inl URL.t error (URL.mk "http" "near.example.net" "/speedtest/upload.php" "")).
  cbv beta iota zeta. rewrite (drain_near n seed download Hn). discriminate.
Qed.

Lemma downloadSpeed_schedule_independent_witness :
  downloadSpeedWith (P := examplePackages) 6 nearCandidate 50
                    (steadyDownload megabyte 100000000) (drainSchedule 6 40) =
  downloadSpeedWith (P := examplePackages) 1 nearCandidate 50
                    (steadyDownload megabyte 100000000) (drainSchedule 1 40).
Proof.
  apply (downloadSpeed_schedule_independent (P := examplePackages) 6 1).
  - lia.
  - lia.
  - unfold int64. lia.
  - apply downloadSpeedWith_near_returns. lia.
  - apply downloadSpeedWith_near_returns. lia.
Defined.

Lemma downloadSpeed_all_failed_witness :
  downloadSpeedWith (P := examplePackages) 6 nearCandidate 50 refusedDownload
                    (drainSchedule 6 40) = Returns 0%R.
Proof.
  assert (H6 : (1 <= 6)%nat) by lia.
  assert (H50 : int64 50) by (unfold int64; lia).
  refine (downloadSpeed_all_failed (P := examplePackages) 6 nearCandidate
            (URL.mk "http" "near.example.net" "/speedtest/upload.php" "")
            50 refusedDownload (drainSchedule 6 40) eq_refl H6 H50
            (drain_near 6 50 refusedDownload H6) _ _).
  - intros k url. discriminate.
  - rewrite (proj2 (pool_totals refusedDownload 6 50 _ (drainSchedule 6 40) H6 H50
                      (drain_near 6 50 refusedDownload H6))).
    vm_compute. reflexivity.
Defined.

(** ** The earlier revision of getBestServer *)

Section EarlierProber.
Context {P : Packages}.
Variable seed : nat -> Duration.
Variable probe : nat -> nat -> string -> Response.

Lemma served_fetch (r : Response) :
  snd (fetchHttp r) = None ->
  Earlier.fetchHttp r = Returns (fst (fst (fetchHttp r)), snd (fst (fetchHttp r))).
Proof.
  destruct r; cbn; intros H; try discriminate. reflexivity.
Qed.

Lemma earlier_latencyLoop_served (n i : nat) (fetch : nat -> Response) (t : Duration) :
  (forall k, snd (fetchHttp (fetch k)) = None) ->
  Earlier.latencyLoop n i fetch t = Returns (latencyLoop n i fetch t).
Proof.
  intros Hs. revert i t. induction n as [ | n IH]; intros i t; cbn [Earlier.latencyLoop latencyLoop].
  - reflexivity.
  - rewrite (served_fetch _ (Hs i)). cbn [bind snd].
    specialize (Hs i). destruct (fetchHttp (fetch i)) as [[b d] e]. cbn in Hs. subst e.
    cbn [fst snd]. apply IH.
Qed.

Lemma nth_error_skipn_head {A} (l rest : list A) (i : nat) (x : A) :
  skipn i l = x :: rest -> nth_error l i = Some x.
Proof.
  revert l. induction i as [ | i IH]; intros [ | a l]; cbn; try discriminate.
  - intros E. injection E as -> _. reflexivity.
  - apply IH.
Qed.

Lemma skipn_set_nth {A} (l rest : list A) (i : nat) (x y : A) :
  skipn i l = x :: rest -> skipn (S i) (set_nth i y l) = rest.
Proof.
  revert l. induction i as [ | i IH]; intros [ | a l]; cbn; try discriminate.
  - intros E. injection E as _ ->. reflexivity.
  - intros E. specialize (IH l E). cbn in IH. exact IH.
Qed.

(** The sequential loop is the run of the goroutines in the order of the
    list. *)
Lemma probeFrom_runProber (rest : list Server.t) (i : nat) (st : Prober) :
  (forall j k url, snd (fetchHttp (probe j k url)) = None) ->
  skipn i (goroutine_server st) = rest ->
  Earlier.probeFrom seed probe i rest (firstPass st) (bestServer st) =
  (st' <- runProber seed probe (seq i (List.length rest)) st ;; Returns (bestServer st')).
Proof.
  intros Hs. revert i st. induction rest as [ | server rest IH]; intros i st Hskip.
  - reflexivity.
  - cbn [Earlier.probeFrom List.length seq runProber].
    unfold goroutine. rewrite (nth_error_skipn_head _ _ _ _ Hskip).
    unfold measure. destruct (url_Parse (Server.Url server)) as [u | err]; [ | reflexivity].
    cbn [bind]. unfold Earlier.latencyPath.
    rewrite earlier_latencyLoop_served by (intros k; apply Hs). cbn [bind].
    set (server' := Server.with_Ping server _).
    unfold record. cbn [firstPass bestServer servers_slice goroutine_server].
    destruct (firstPass st || (Server.Ping server' <? Server.Ping (bestServer st))%Z).
    + apply (IH (S i) (mkProber (servers_slice st) (set_nth i server' (goroutine_server st))
                               false server')).
      cbn [goroutine_server]. eapply skipn_set_nth. exact Hskip.
    + apply (IH (S i) (mkProber (servers_slice st) (set_nth i server' (goroutine_server st))
                               (firstPass st) (bestServer st))).
      cbn [goroutine_server]. eapply skipn_set_nth. exact Hskip.
Qed.

Lemma covers_seq (n : nat) : covers n (seq 0 n) = true.
Proof.
  unfold covers. rewrite length_seq, Nat.eqb_refl. cbn [andb].
  apply forallb_forall. intros i Hi. apply existsb_exists.
  exists i. split; [exact Hi | apply Nat.eqb_refl].
Qed.

Lemma earlier_getBestServer_agrees_helper (servers : list Server.t) :
  (forall j k url, snd (fetchHttp (probe j k url)) = None) ->
  Earlier.getBestServer servers seed probe =
  getBestServer servers seed probe (seq 0 (List.length servers)).
Proof.
  intros Hs. unfold Earlier.getBestServer, getBestServer, getBestServerMem.
  rewrite covers_seq.
  apply (probeFrom_runProber servers 0 (mkProber servers servers true Server.zero) Hs).
  reflexivity.
Qed.

(** X17.  When every probe is served, the earlier revision, which probes the
    candidates one after the other, returns what the later revision returns
    when its goroutines take the lock in the order of the list; a URL that
    does not parse ends both in the same fatal error. *)
Theorem earlier_getBestServer_agrees (servers : list Server.t) :
  (forall j k url, snd (fetchHttp (probe j k url)) = None) ->
  Earlier.getBestServer servers seed probe =
  getBestServer servers seed probe (seq 0 (List.length servers)).
Proof.
  intros Hs. unfold Earlier.getBestServer, getBestServer, getBestServerMem.
  rewrite covers_seq.
  apply (probeFrom_runProber servers 0 (mkProber servers servers true Server.zero) Hs).
  reflexivity.
Qed.

Lemma seq_split_from (a n i : nat) (o1 o2 : list nat) :
  seq a n = (o1 ++ i :: o2)%list -> o1 = seq a (i - a) /\ (a <= i)%nat.
Proof.
  revert a n. induction o1 as [ | x o1 IH]; intros a [ | n] E; cbn in E; try discriminate.
  - injection E as <- _. rewrite Nat.sub_diag. auto.
  - injection E as <- E. destruct (IH (S a) n E) as [-> Hle].
    split; [ | lia].
    replace (i - a)%nat with (S (i - S a)) by lia. reflexivity.
Qed.

Lemma seq_split (n i : nat) (o1 o2 : list nat) :
  seq 0 n = (o1 ++ i :: o2)%list -> o1 = seq 0 i.
Proof.
  intros E. destruct (seq_split_from 0 n i o1 o2 E) as [-> _].
  rewrite Nat.sub_0_r. reflexivity.
Qed.

(** X18.  With candidates whose URLs parse and whose probes are all served,
    the earlier revision returns the first candidate of the list among those
    with the lowest mean: no candidate has a lower mean, and every candidate
    before it in the list has a strictly higher one. *)
Theorem earlier_getBestServer_first_lowest (servers : list Server.t) :
  servers <> [] ->
  Forall (fun s => exists u, url_Parse (Server.Url s) = inl u) servers ->
  (forall j k url, snd (fetchHttp (probe j k url)) = None) ->
  exists i s b,
    nth_error servers i = Some s /\
    measure (seed i) (probe i) s = Returns b /\
    Earlier.getBestServer servers seed probe = Returns b /\
    (forall j sj bj, nth_error servers j = Some sj ->
       measure (seed j) (probe j) sj = Returns bj -> Server.Ping b <= Server.Ping bj) /\
    (forall j sj bj, (j < i)%nat -> nth_error servers j = Some sj ->
       measure (seed j) (probe j) sj = Returns bj -> Server.Ping b < Server.Ping bj).
Proof.
  intros Hne Hparse Hs.
  rewrite (earlier_getBestServer_agrees_helper servers Hs).
  set (order := seq 0 (List.length servers)).
  destruct (runProber_returns seed probe servers order Hparse) as (st & Hrun).
  destruct (runProber_recorded seed probe servers order st Hrun) as (_ & _ & Hbest).
  assert (Hcov : covers (List.length servers) order = true) by apply covers_seq.
  destruct Hbest as [(_ & _ & Hnone) | (_ & i & s & o1 & o2 & Ho & Ei & Hi & Hlt & Hle)].
  - exfalso. destruct servers as [ | s0 servers']; [congruence | ].
    assert (H0 : In 0%nat order) by (apply (covers_In _ _ _ Hcov); cbn; lia).
    specialize (Hnone _ H0). discriminate.
  - exists i, s, (bestServer st). split; [exact Ei | split; [exact Hi | split]].
    + unfold getBestServer, getBestServerMem. rewrite Hcov. fold order. rewrite Hrun.
      reflexivity.
    + pose proof (seq_split _ _ _ _ Ho) as Eo1. split.
      * intros j sj bj Ej Hj.
        assert (Hin : In j order).
        { apply (covers_In _ _ _ Hcov). apply nth_error_Some. congruence. }
        rewrite Ho in Hin. apply in_app_or in Hin. destruct Hin as [Hin | [<- | Hin]].
        -- specialize (Hlt j sj bj Hin Ej Hj). lia.
        -- rewrite Ei in Ej. injection Ej as <-. rewrite Hi in Hj. injection Hj as <-. lia.
        -- exact (Hle j sj bj Hin Ej Hj).
      * intros j sj bj Hji Ej Hj. apply (Hlt j sj bj); auto.
        rewrite Eo1. apply in_seq. lia.
Qed.

End EarlierProber.

Section EarlierFailures.
Context {P : Packages}.
Variable seed : nat -> Duration.
Variable probe : nat -> nat -> string -> Response.

Lemma earlier_latencyLoop_outcome (n i : nat) (fetch : nat -> Response) (t : Duration) :
  (exists d, Earlier.latencyLoop n i fetch t = Returns d /\
             forall k, (i <= k < i + n)%nat -> snd (fetchHttp (fetch k)) = None) \/
  (exists msg, Earlier.latencyLoop n i fetch t = Fatal msg).
Proof.
  revert i t. induction n as [ | n IH]; intros i t; cbn [Earlier.latencyLoop].
  - left. eexists. split; [reflexivity | intros k Hk; lia].
  - destruct (fetch i) as [err since | err since | body d] eqn:Ef; cbn [Earlier.fetchHttp bind];
      [right; eauto | right; eauto | ].
    cbn [snd].
    destruct (IH (S i) (add64 t d)) as [(d' & -> & Hs) | (msg & ->)]; [left | right; eauto].
    eexists. split; [reflexivity | ].
    intros k Hk. destruct (Nat.eq_dec k i) as [-> | Hne].
    + rewrite Ef. reflexivity.
    + apply Hs. lia.
Qed.

(** The sequential loop returns or ends in [log.Fatal]; when it returns, the
    URL of every candidate was parsed and all its probes were served. *)
Lemma earlier_probeFrom_outcome (rest : list Server.t) (i : nat) (fp : bool)
    (best : Server.t) :
  (exists b, Earlier.probeFrom seed probe i rest fp best = Returns b /\
             forall j s, nth_error rest j = Some s ->
               exists u, url_Parse (Server.Url s) = inl u /\
                 forall k, (k < timesToRunLatency)%nat ->
                   snd (fetchHttp (probe (i + j)%nat k
                                     (URL_String (URL.with_Path u "/latency.txt")))) = None) \/
  (exists msg, Earlier.probeFrom seed probe i rest fp best = Fatal msg).
Proof.
  revert i fp best. induction rest as [ | server rest IH]; intros i fp best;
    cbn [Earlier.probeFrom].
  - left. eexists. split; [reflexivity | ]. intros [ | j] s E; discriminate.
  - destruct (url_Parse (Server.Url server)) as [u | err] eqn:Hu; [ | right; eauto].
    unfold Earlier.latencyPath.
    destruct (earlier_latencyLoop_outcome timesToRunLatency 0
                (fun k => probe i k (URL_String (URL.with_Path u "/latency.txt"))) (seed i))
      as [(d & -> & Hs) | (msg & ->)]; cbn [bind]; [ | right; eauto].
    set (server' := Server.with_Ping server _).
    assert (Hnext : forall fp' best',
              (exists b, Earlier.probeFrom seed probe (S i) rest fp' best' = Returns b /\
                 forall j s, nth_error (server :: rest) j = Some s ->
                   exists u0, url_Parse (Server.Url s) = inl u0 /\
                     forall k, (k < timesToRunLatency)%nat ->
                       snd (fetchHttp (probe (i + j)%nat k
                              (URL_String (URL.with_Path u0 "/latency.txt")))) = None) \/
              (exists msg, Earlier.probeFrom seed probe (S i) rest fp' best' = Fatal msg)).
    { intros fp' best'.
      destruct (IH (S i) fp' best') as [(b & -> & Hb) | (msg & ->)]; [left | right; eauto].
      eexists. split; [reflexivity | ].
      intros [ | j] s E; cbn in E.
      - injection E as <-. exists u. split; [exact Hu | ].
        intros k Hk. rewrite Nat.add_0_r. apply (Hs k). lia.
      - destruct (Hb j s E) as (u0 & Hu0 & Hk0). exists u0. split; [exact Hu0 | ].
        intros k Hk. replace (i + S j)%nat with (S i + j)%nat by lia. auto. }
    destruct (fp || (Server.Ping server' <? Server.Ping best)%Z); apply Hnext.
Qed.

(** X19.  In the earlier revision one failed probe of one candidate ends the
    run in [log.Fatal]: [getBestServer] does not return. *)
Theorem earlier_failed_probe_is_fatal (servers : list Server.t) (i k : nat)
    (s : Server.t) :
  nth_error servers i = Some s ->
  (k < timesToRunLatency)%nat ->
  (forall url, snd (fetchHttp (probe i k url)) <> None) ->
  exists msg, Earlier.getBestServer servers seed probe = Fatal msg.
Proof.
  intros Es Hk Hfail. unfold Earlier.getBestServer.
  destruct (earlier_probeFrom_outcome servers 0 true Server.zero)
    as [(b & _ & Hb) | Hfatal]; [ | exact Hfatal].
  exfalso. destruct (Hb i s Es) as (u & _ & Hs).
  apply (Hfail _ (Hs k Hk)).
Qed.

End EarlierFailures.

Lemma earlier_getBestServer_agrees_witness :
  Earlier.getBestServer (P := examplePackages) candidates (fun _ => 0) steadyProbe =
  getBestServer (P := examplePackages) candidates (fun _ => 0) steadyProbe
                (seq 0 (List.length candidates)).
Proof.
  apply (earlier_getBestServer_agrees (P := examplePackages) (fun _ => 0) steadyProbe
           candidates).
  intros j k url. reflexivity.
Defined.

Lemma earlier_getBestServer_first_lowest_witness :
  exists i s b,
    nth_error candidates i = Some s /\
    measure (P := examplePackages) 0 (steadyProbe i) s = Returns b /\
    Earlier.getBestServer (P := examplePackages) candidates (fun _ => 0) steadyProbe
    = Returns b.
Proof.
  destruct (earlier_getBestServer_first_lowest (P := examplePackages) (fun _ => 0)
              steadyProbe candidates) as (i & s & b & H1 & H2 & H3 & _).
  - discriminate.
  - repeat constructor; eexists; reflexivity.
  - intros j k url. reflexivity.
  - exists i, s, b. auto.
Defined.

(** In the earlier revision the candidate "fast" wins the tie with "tied",
    being first in the list. *)
Example earlier_getBestServer_tie :
  Earlier.getBestServer (P := examplePackages) candidates (fun _ => 0) steadyProbe
  = Returns (Server.with_Ping
               (candidate "fast" "http://fast.example.net/speedtest/upload.php") 5).
Proof. reflexivity. Qed.

Lemma earlier_failed_probe_is_fatal_witness :
  exists msg,
    Earlier.getBestServer (P := examplePackages) candidates (fun _ => 0) brokenSecond
    = Fatal msg.
Proof.
  apply (earlier_failed_probe_is_fatal (P := examplePackages) (fun _ => 0) brokenSecond
           candidates 1 1
           (candidate "fast" "http://fast.example.net/speedtest/upload.php")).
  - reflexivity.
  - unfold timesToRunLatency. lia.
  - intros url. discriminate.
Defined.

(** ** main, getConfig and getClosestServers *)

Section MainEdges.
Context {P : Packages}.

(** X20.  A configuration that decodes to a record without a client makes
    [main] panic on [c.Clients[0]], after the fetch and before anything is
    ranked: the run does not end in [log.Fatal] and does not go on. *)
Theorem main_without_client_panics (body : list Byte.byte) (t : Duration)
    (serversResponse : Response) (latencySeed : nat -> Duration)
    (latencyProbe : nat -> nat -> string -> Response) (lockOrder : list nat)
    (downloadSeed : Duration) (download : nat -> string -> Response)
    (schedule : list nat) :
  Config.Clients (fst (xml_Unmarshal_Config body Config.zero)) = [] ->
  main (World.mk false (Served body t) serversResponse latencySeed latencyProbe lockOrder
                 downloadSeed download schedule) = Panics.
Proof.
  intros E. unfold main, getConfig, getClient. cbn [World.help World.configResponse fetchHttp bind].
  rewrite E. reflexivity.
Qed.

(** X21.  A server list that decodes to a single group without servers is
    not an error: no server is ranked, [getBestServer] returns the zero
    [Server], and [main] measures the download speed against it. *)
Theorem main_empty_group_measures_zero_server (body1 body2 : list Byte.byte)
    (t1 t2 : Duration) (client : Client.t) (clients : list Client.t)
    (groups : list (list Server.t)) (latencySeed : nat -> Duration)
    (latencyProbe : nat -> nat -> string -> Response)
    (downloadSeed : Duration) (download : nat -> string -> Response)
    (schedule : list nat) :
  Config.Clients (fst (xml_Unmarshal_Config body1 Config.zero)) = client :: clients ->
  Servers.ServerGroup (fst (xml_Unmarshal_Servers body2 Servers.zero)) = [] :: groups ->
  main (World.mk false (Served body1 t1) (Served body2 t2) latencySeed latencyProbe []
                 downloadSeed download schedule)
  = downloadSpeed Server.zero downloadSeed download schedule.
Proof.
  intros E1 E2. unfold main, getConfig, getClient, getClosestServers.
  cbn [World.help World.configResponse World.serversResponse World.latencySeed
       World.latencyProbe World.lockOrder World.downloadSeed World.download World.schedule
       fetchHttp bind].
  rewrite E1. cbn [bind]. rewrite E2. cbn [bind].
  change (rankServers client []) with (@nil Server.t).
  change (getBestServer [] latencySeed latencyProbe []) with (Returns Server.zero).
  cbn [bind].
  destruct (downloadSpeed Server.zero downloadSeed download schedule); reflexivity.
Qed.

(** X22.  [main] returns a rate only if the help flag is off, both fetches
    were served, the configuration decoded to at least one client and the
    server list to at least one group. *)
Theorem main_returns_only_after_fetches (w : World.t) (mb : R) :
  main w = Returns mb ->
  World.help w = false /\
  (exists body t client clients,
     World.configResponse w = Served body t /\
     Config.Clients (fst (xml_Unmarshal_Config body Config.zero)) = client :: clients) /\
  (exists body t group groups,
     World.serversResponse w = Served body t /\
     Servers.ServerGroup (fst (xml_Unmarshal_Servers body Servers.zero)) = group :: groups).
Proof.
  unfold main, getConfig, getClient, getClosestServers.
  destruct (World.help w); [discriminate | ].
  destruct (World.configResponse w) as [err since | err since | body t]; cbn [fetchHttp bind];
    try discriminate.
  destruct (Config.Clients (fst (xml_Unmarshal_Config body Config.zero)))
    as [ | client clients] eqn:Ec; cbn [bind]; [discriminate | ].
  destruct (World.serversResponse w) as [err since | err since | body2 t2];
    cbn [fetchHttp bind]; try discriminate.
  destruct (Servers.ServerGroup (fst (xml_Unmarshal_Servers body2 Servers.zero)))
    as [ | group groups] eqn:Es; cbn [bind]; [discriminate | ].
  intros _. split; [reflexivity | split].
  - exists body, t, client, clients. auto.
  - exists body2, t2, group, groups. auto.
Qed.

(** X23.  The earlier revision's [getConfig] and [getClosestServers] end like
    the later ones for every response: passing the error of the fetch up to
    the caller did not change them. *)
Theorem earlier_bootstrap_agrees (client : Client.t) (resp : Response) :
  Earlier.getConfig resp = getConfig resp /\
  Earlier.getClosestServers client resp = getClosestServers client resp.
Proof.
  destruct resp; split; reflexivity.
Qed.

End MainEdges.

Lemma main_without_client_panics_witness :
  main (P := examplePackages)
       (World.mk false (Served (list_byte_of_string "not xml") 1000000)
                 (Served (list_byte_of_string serversXml) 2000000)
                 (fun _ => 0) steadyProbe [0%nat]
                 50 (steadyDownload megabyte 100000000) (drainSchedule 6 40))
  = Panics.
Proof.
  apply (main_without_client_panics (P := examplePackages)). reflexivity.
Defined.

Lemma main_empty_group_measures_zero_server_witness :
  main (P := emptyGroupPackages)
       (World.mk false (Served (list_byte_of_string configXml) 1000000)
                 (Served (list_byte_of_string emptyGroupXml) 2000000)
                 (fun _ => 0) steadyProbe []
                 50 refusedDownload (drainSchedule 6 40))
  = downloadSpeed (P := emptyGroupPackages) Server.zero 50 refusedDownload (drainSchedule 6 40).
Proof.
  apply (main_empty_group_measures_zero_server (P := emptyGroupPackages)
           _ _ _ _ client0 [] []); reflexivity.
Defined.

Lemma main_served_returns : exists mb, main (P := examplePackages) servedWorld = Returns mb.
Proof.
  destruct downloadSpeed_served as (mb & Hmb). exists mb.
  unfold main, servedWorld.
  cbn [World.help World.configResponse World.serversResponse World.latencySeed
       World.latencyProbe World.lockOrder World.downloadSeed World.download World.schedule].
  change (getConfig (P := examplePackages) (Served (list_byte_of_string configXml) 1000000))
    with (Returns (Config.mk "" [client0])).
  cbn [bind getClient Config.Clients].
  rewrite getClosestServers_served. cbn [bind].
  rewrite getBestServer_served. cbn [bind].
  rewrite Hmb. reflexivity.
Qed.

Lemma main_returns_only_after_fetches_witness :
  World.help servedWorld = false /\
  (exists body t client clients,
     World.configResponse servedWorld = Served body t /\
     Config.Clients (fst (xml_Unmarshal_Config (Packages := examplePackages) body Config.zero))
     = client :: clients) /\
  (exists body t group groups,
     World.serversResponse servedWorld = Served body t /\
     Servers.ServerGroup
       (fst (xml_Unmarshal_Servers (Packages := examplePackages) body Servers.zero))
     = group :: groups).
Proof.
  destruct main_served_returns as (mb & Hmb).
  exact (main_returns_only_after_fetches (P := examplePackages) servedWorld mb Hmb).
Defined.
